(** * mcp-neo4j-remote: the credential chain and the graph memory store

    A shallow embedding of [src/auth/manager.ts] (class [AuthManager]) and of
    [src/neo4j/memory.ts] (class [Neo4jMemory]).

    The memory class talks to Neo4j only through Cypher text handed to
    [session.run].  Each query is embedded in two layers:
    - the query text, as the JavaScript template literal of the source
      evaluates it (module [Template]);
    - the effect of the query on a property graph (module [Cypher]), written
      clause by clause after the query.
    The methods of the class (module [Neo4jMemory]) thread a store through a
    small state-and-exception monad (module [Session]): one [session.run] is
    one auto-commit round trip, which either commits or throws. *)

From Stdlib Require Import List String Ascii Bool Arith Lia DecimalString.
Import ListNotations.
Open Scope string_scope.
Open Scope list_scope.

(* ================================================================== *)
(** * JavaScript values used by both classes *)
(* ================================================================== *)

Module JS.

(** Truthiness of a possibly-null string: [null], [undefined] and the empty
    string are falsy. *)
Definition truthy (v : option string) : bool :=
  match v with
  | Some s => negb (s =? "")
  | None => false
  end.

(** [a || b] on a possibly-null array. *)
Definition or_else {A} (v : option (list A)) (d : list A) : list A :=
  match v with
  | Some l => l
  | None => d
  end.

(** [Array.prototype.join]. *)
Fixpoint join (sep : string) (l : list string) : string :=
  match l with
  | [] => ""
  | [x] => x
  | x :: t => x ++ sep ++ join sep t
  end.

(** What a promise settles to: a value, or a thrown error. *)
Inductive result (A : Type) : Type :=
| Ok (a : A)
| Throw (message : string).
Arguments Ok {A} a.
Arguments Throw {A} message.

End JS.
Import JS.

(* ================================================================== *)
(** * Template literals *)
(* ================================================================== *)

Module Template.

(** The pieces of a template literal as the source writes it. *)
Inductive chunk : Type :=
| Text (s : string)      (* characters standing for themselves *)
| Esc (c : ascii)        (* a backslash escape: [\`] or [\$] *)
| Subst (value : string) (* [${e}], with the value [e] evaluates to *).

Definition template := list chunk.

(** The cooked string: an escape contributes the escaped character and starts
    no substitution. *)
Fixpoint cook (t : template) : string :=
  match t with
  | [] => ""
  | Text s :: t' => s ++ cook t'
  | Esc c :: t' => String c (cook t')
  | Subst v :: t' => v ++ cook t'
  end.

Definition backtick : ascii := "`"%char.
Definition dollar : ascii := "$"%char.

End Template.
Import Template.

(* ================================================================== *)
(** * The property graph and the Cypher clauses the queries use *)
(* ================================================================== *)

Module Cypher.

(** Queries are read the way Cypher composes clauses: a clause takes the
    graph and the table of rows its predecessor left and hands on a graph
    and a table; an updating clause works through its rows in table order,
    and no clause sees what a later clause writes.

    The database is written through [Neo4jMemory] only, so the properties
    hold what types/index.ts makes them hold: strings, and a list of
    strings. *)

(** A node: its identity, its label set and the three properties the
    queries read and write.  A property that is absent reads as [null]. *)
Record Node : Type := mkNode {
  node_id : nat;
  labels : list string;
  p_name : option string;
  p_type : option string;
  p_observations : option (list string)
}.

(** A relationship: directed, with exactly one type. *)
Record Rel : Type := mkRel {
  rel_id : nat;
  startNode : nat;
  endNode : nat;
  rel_type : string
}.

Record Graph : Type := mkGraph {
  nodes : list Node;
  rels : list Rel;
  next_id : nat
}.

Definition empty : Graph := mkGraph [] [] 0.

Definition option_string_eqb (a b : option string) : bool :=
  match a, b with
  | Some x, Some y => x =? y
  | None, None => true
  | _, _ => false
  end.

Definition mem (x : string) (l : list string) : bool :=
  existsb (String.eqb x) l.

Definition has_label (l : string) (n : Node) : bool := mem l (labels n).

(** [coalesce(e.observations, [])] *)
Definition coalesce (v : option (list string)) : list string :=
  match v with
  | Some l => l
  | None => []
  end.

(** A backtick-quoted identifier of a query: the characters between the
    first backtick and the next one. *)
Fixpoint until_backtick (s : string) : option string :=
  match s with
  | EmptyString => None
  | String c s' =>
      if Ascii.eqb c backtick then Some EmptyString
      else option_map (String c) (until_backtick s')
  end.

Fixpoint quoted_identifier (q : string) : option string :=
  match q with
  | EmptyString => None
  | String c q' =>
      if Ascii.eqb c backtick then until_backtick q'
      else quoted_identifier q'
  end.

(** [MATCH (e:Memory { name: $name })] *)
Definition match_memory (name : string) (g : Graph) : list Node :=
  filter (fun n => has_label "Memory" n && option_string_eqb (p_name n) (Some name))
         (nodes g).

Definition find_node (id : nat) (g : Graph) : option Node :=
  find (fun n => Nat.eqb (node_id n) id) (nodes g).

(** Rewrites the node bound to [id]. *)
Definition update_node (id : nat) (f : Node -> Node) (g : Graph) : Graph :=
  mkGraph (map (fun n => if Nat.eqb (node_id n) id then f n else n) (nodes g))
          (rels g) (next_id g).

(** [SET e:`l`]: labels are a set. *)
Definition add_label (l : string) (n : Node) : Node :=
  if has_label l n then n
  else mkNode (node_id n) (labels n ++ [l]) (p_name n) (p_type n) (p_observations n).

(** [SET e += { name: .., type: .., observations: .. }] *)
Definition set_properties (name type : string) (observations : list string) (n : Node) : Node :=
  mkNode (node_id n) (labels n) (Some name) (Some type) (Some observations).

(** [SET e.observations = v] *)
Definition set_observations (v : list string) (n : Node) : Node :=
  mkNode (node_id n) (labels n) (p_name n) (p_type n) (Some v).

(** [MERGE (e:Memory { name: $name })] on one row: binds every node the
    pattern matches; creates the node, with the pattern's label and property
    only, when there is none. *)
Definition merge_memory (name : string) (g : Graph) : Graph * list nat :=
  match match_memory name g with
  | [] =>
      let id := next_id g in
      (mkGraph (nodes g ++ [mkNode id ["Memory"] (Some name) None None])
               (rels g) (S id),
       [id])
  | ms => (g, map node_id ms)
  end.

Definition rel_matches (from to : nat) (ty : string) (r : Rel) : bool :=
  Nat.eqb (startNode r) from && Nat.eqb (endNode r) to && String.eqb (rel_type r) ty.

(** [MERGE (from)-[r:`ty`]->(to)] on one row with both ends bound. *)
Definition merge_rel (ty : string) (g : Graph) (row : nat * nat) : Graph :=
  let (from, to) := row in
  if existsb (rel_matches from to ty) (rels g) then g
  else mkGraph (nodes g) (rels g ++ [mkRel (next_id g) from to ty]) (S (next_id g)).

(** [DELETE r] for every relationship the pattern
    [(source)-[r:`ty`]->(target)] matches on one row. *)
Definition delete_rel (ty : string) (g : Graph) (row : nat * nat) : Graph :=
  let (from, to) := row in
  mkGraph (nodes g) (filter (fun r => negb (rel_matches from to ty r)) (rels g)) (next_id g).

Definition incident (id : nat) (r : Rel) : bool :=
  Nat.eqb (startNode r) id || Nat.eqb (endNode r) id.

(** [DETACH DELETE e]: the node goes, and every relationship touching it. *)
Definition detach_delete (g : Graph) (id : nat) : Graph :=
  mkGraph (filter (fun n => negb (Nat.eqb (node_id n) id)) (nodes g))
          (filter (fun r => negb (incident id r)) (rels g))
          (next_id g).

(** The rows of two successive [MATCH] clauses: every pair of bindings. *)
Definition pairs (froms tos : list Node) : list (nat * nat) :=
  flat_map (fun f => map (fun t => (node_id f, node_id t)) tos) froms.

(** The full-text index [search]: which query strings match which indexed
    node is the business of the index (Lucene), so it is a parameter. *)
Definition FulltextIndex := string -> Node -> bool.

(** [CALL db.index.fulltext.queryNodes('search', $filter)]: the index is
    declared [FOR (m:Memory)]. *)
Definition queryNodes (ix : FulltextIndex) (filter_ : string) (g : Graph) : list Node :=
  filter (fun n => has_label "Memory" n && ix filter_ n) (nodes g).

(** [OPTIONAL MATCH (entity)-[r]-(other)]: one row per relationship touching
    the node, in either direction; one row with [r] null when there is none. *)
Definition optional_match (g : Graph) (entity : Node) : list (Node * option Rel) :=
  match filter (incident (node_id entity)) (rels g) with
  | [] => [(entity, None)]
  | rs => map (fun r => (entity, Some r)) rs
  end.

(** The maps collected by [loadGraph]'s [RETURN]. *)
Definition NodeMap : Type := option string * option string * option (list string).
Definition RelMap : Type := option string * option string * option string.

Definition node_map (n : Node) : NodeMap :=
  (p_name n, p_type n, p_observations n).

Definition name_of (g : Graph) (id : nat) : option string :=
  match find_node id g with
  | Some n => p_name n
  | None => None
  end.

Definition rel_map (g : Graph) (r : option Rel) : RelMap :=
  match r with
  | Some r => (name_of g (startNode r), name_of g (endNode r), Some (rel_type r))
  | None => (None, None, None)
  end.

Definition option_eq_dec {A} (dec : forall x y : A, {x = y} + {x <> y})
  (x y : option A) : {x = y} + {x <> y}.
Proof. decide equality. Defined.

Definition NodeMap_eq_dec (x y : NodeMap) : {x = y} + {x <> y}.
Proof.
  decide equality.
  - apply option_eq_dec, list_eq_dec, string_dec.
  - decide equality; apply option_eq_dec, string_dec.
Defined.

Definition RelMap_eq_dec (x y : RelMap) : {x = y} + {x <> y}.
Proof.
  decide equality.
  - apply option_eq_dec, string_dec.
  - decide equality; apply option_eq_dec, string_dec.
Defined.

(** [collect(distinct m)] *)
Definition collect_distinct {A} (dec : forall x y : A, {x = y} + {x <> y})
  (l : list A) : list A := nodup dec l.

End Cypher.
Import Cypher.

(* ================================================================== *)
(** * One driver session: store state, round trips and exceptions *)
(* ================================================================== *)

Module Session.

(** The database behind the driver: the graph, its full-text index, and the
    fate of the coming round trips ([true]: the round trip throws and commits
    nothing; an exhausted schedule means no more failures). *)
Record Store : Type := mkStore {
  graph : Graph;
  index : FulltextIndex;
  faults : list bool
}.

(** An [async] method body: it reads and writes the store and settles. *)
Definition M (A : Type) : Type := Store -> Store * result A.

Definition ret {A} (a : A) : M A := fun s => (s, Ok a).

Definition bind {A B} (m : M A) (k : A -> M B) : M B :=
  fun s =>
    match m s with
    | (s', Ok a) => k a s'
    | (s', Throw e) => (s', Throw e)
    end.

Declare Scope session_scope.
Delimit Scope session_scope with session.
Notation "x <- m ;; k" := (bind m (fun x => k))
  (at level 61, m at next level, right associativity) : session_scope.
Notation "m ;; k" := (bind m (fun _ => k))
  (at level 61, right associativity) : session_scope.

(** [try { body } finally { fin }] *)
Definition try_finally {A} (body : M A) (fin : M unit) : M A :=
  fun s =>
    let (s', r) := body s in
    match fin s' with
    | (s'', Ok _) => (s'', r)
    | (s'', Throw e) => (s'', Throw e)
    end.

(** [for (const x of xs) { await body(x) }] *)
Fixpoint for_of {A} (xs : list A) (body : A -> M unit) : M unit :=
  match xs with
  | [] => ret tt
  | x :: xs' => bind (body x) (fun _ => for_of xs' body)
  end.

(** [await session.run(query, params)]: one auto-commit transaction.  [tx] is
    what the query does to the graph and the records it returns, or the
    error the server raises for it. *)
Definition run {A} (tx : FulltextIndex -> Graph -> result (Graph * A)) : M A :=
  fun s =>
    match faults s with
    | true :: fs => (mkStore (graph s) (index s) fs, Throw "ServiceUnavailable")
    | fs =>
        match tx (index s) (graph s) with
        | Ok (g', a) => (mkStore g' (index s) (tl fs), Ok a)
        | Throw e => (mkStore (graph s) (index s) (tl fs), Throw e)
        end
    end.

(** [throw error] *)
Definition throw {A} (message : string) : M A := fun s => (s, Throw message).

(** [try { body } catch (error) { handler(error) }], [error] being known by
    its message. *)
Definition try_catch {A} (body : M A) (handler : string -> M A) : M A :=
  fun s =>
    match body s with
    | (s', Ok a) => (s', Ok a)
    | (s', Throw message) => handler message s'
    end.

(** [await session.close()] *)
Definition close : M unit := ret tt.

(** A store none of whose coming round trips fails. *)
Definition healthy (s : Store) : Prop := forallb negb (faults s) = true.


End Session.
Import Session.

(* ================================================================== *)
(** * types/index.ts *)
(* ================================================================== *)

Module Types.

Record Entity : Type := mkEntity {
  name : string;
  type : string;
  observations : list string
}.

Record Relation : Type := mkRelation {
  source : string;
  target : string;
  relationType : string
}.

(** An element of [loadGraph]'s [entities]: [type] is whatever the node
    holds, [null] included. *)
Record LoadedEntity : Type := mkLoadedEntity {
  l_name : string;
  l_type : option string;
  l_observations : list string
}.

Record KnowledgeGraph : Type := mkKnowledgeGraph {
  entities : list LoadedEntity;
  relations : list Relation
}.

Record ObservationAddition : Type := mkObservationAddition {
  entityName : string;
  contents : list string
}.

Record ObservationDeletion : Type := mkObservationDeletion {
  d_entityName : string;
  d_observations : list string
}.

(** An element of [addObservations]' result. *)
Record Added : Type := mkAdded {
  a_entityName : string;
  addedObservations : list string
}.

Definition Relation_eq_dec (x y : Relation) : {x = y} + {x <> y}.
Proof. decide equality; apply string_dec. Defined.

End Types.
Import Types.

(* ================================================================== *)
(** * class Neo4jMemory *)
(* ================================================================== *)

Module Neo4jMemory.

Local Open Scope session_scope.

(** ** The queries, as the template literals of the source *)

Definition createEntities_query : template :=
  [Text "UNWIND $entities as entity MERGE (e:Memory { name: entity.name }) SET e += entity, e:";
   Esc backtick; Esc dollar; Text "{entity.type}"; Esc backtick;
   Text " RETURN e"].

Definition createRelations_query : template :=
  [Text "MATCH (from:Memory { name: $source }) MATCH (to:Memory { name: $target }) MERGE (from)-[r:";
   Esc backtick; Esc dollar; Text "{relationType}"; Esc backtick;
   Text "]->(to) RETURN r"].

Definition deleteRelations_query : template :=
  [Text "MATCH (source:Memory { name: $source })-[r:";
   Esc backtick; Esc dollar; Text "{relationType}"; Esc backtick;
   Text "]->(target:Memory { name: $target }) DELETE r"].

(** ** What each query does *)

(** [UNWIND $entities as entity MERGE (e:Memory { name: entity.name })]: the
    rows [(e, entity)], the clause seeing the nodes it created for earlier
    rows. *)
Fixpoint merge_rows (entities : list Entity) (g : Graph) : Graph * list (nat * Entity) :=
  match entities with
  | [] => (g, [])
  | entity :: rest =>
      let (g1, ids) := merge_memory (name entity) g in
      let (g2, rows) := merge_rows rest g1 in
      (g2, map (fun e => (e, entity)) ids ++ rows)
  end.

(** [SET e += entity, e:`label`] on one row. *)
Definition set_entity (label : string) (g : Graph) (row : nat * Entity) : Graph :=
  let (e, entity) := row in
  update_node e
    (fun n => add_label label
                (set_properties (name entity) (type entity) (observations entity) n))
    g.

Definition createEntities_tx (query : string) (entities : list Entity)
  (_ : FulltextIndex) (g : Graph) : result (Graph * unit) :=
  match quoted_identifier query with
  | Some label =>
      let (g1, rows) := merge_rows entities g in
      Ok (fold_left (set_entity label) rows g1, tt)
  | None => Throw "SyntaxError"
  end.

Definition createRelations_tx (query : string) (source target relationType : string)
  (_ : FulltextIndex) (g : Graph) : result (Graph * unit) :=
  match quoted_identifier query with
  | Some ty =>
      Ok (fold_left (merge_rel ty)
            (pairs (match_memory source g) (match_memory target g)) g, tt)
  | None => Throw "SyntaxError"
  end.

Definition deleteRelations_tx (query : string) (source target relationType : string)
  (_ : FulltextIndex) (g : Graph) : result (Graph * unit) :=
  match quoted_identifier query with
  | Some ty =>
      Ok (fold_left (delete_rel ty)
            (pairs (match_memory source g) (match_memory target g)) g, tt)
  | None => Throw "SyntaxError"
  end.

(** [[o in contents WHERE NOT o IN existing]] *)
Definition not_in (existing : list string) (contents : list string) : list string :=
  filter (fun o => negb (mem o existing)) contents.

(** [UNWIND $observations as obs MATCH (e:Memory { name: obs.entityName })
    WITH e, [o in obs.contents WHERE NOT o IN coalesce(e.observations, [])] as new]:
    the rows [(e, e.name, new)], computed on the graph as the query found
    it. *)
Definition new_rows (observations : list ObservationAddition) (g : Graph)
  : list (nat * string * list string) :=
  flat_map
    (fun obs =>
       flat_map
         (fun e =>
            match p_name e with
            | Some nm =>
                [(node_id e, nm, not_in (coalesce (p_observations e)) (contents obs))]
            | None => []
            end)
         (match_memory (entityName obs) g))
    observations.

(** [SET e.observations = coalesce(e.observations, []) + new] on one row,
    [e.observations] read when the row is written. *)
Definition append_new (g : Graph) (row : nat * string * list string) : Graph :=
  let '(e, _, new) := row in
  update_node e
    (fun n => set_observations (coalesce (p_observations n) ++ new) n) g.

Definition addObservations_tx (observations : list ObservationAddition)
  (_ : FulltextIndex) (g : Graph) : result (Graph * list (string * list string)) :=
  let rows := new_rows observations g in
  Ok (fold_left append_new rows g,
      map (fun row : nat * string * list string => let '(_, nm, new) := row in (nm, new)) rows).

(** [UNWIND $entities as name MATCH (e:Memory { name: name }) DETACH DELETE e] *)
Definition deleteEntities_tx (entityNames : list string)
  (_ : FulltextIndex) (g : Graph) : result (Graph * unit) :=
  let rows := flat_map (fun nm => map node_id (match_memory nm g)) entityNames in
  Ok (fold_left detach_delete rows g, tt).

(** [SET e.observations = [o in coalesce(e.observations, []) WHERE NOT o IN d.observations]]
    on one row. *)
Definition remove_listed (g : Graph) (row : nat * list string) : Graph :=
  let (e, listed) := row in
  update_node e
    (fun n => set_observations (not_in listed (coalesce (p_observations n))) n) g.

Definition deleteObservations_tx (deletions : list ObservationDeletion)
  (_ : FulltextIndex) (g : Graph) : result (Graph * unit) :=
  let rows :=
    flat_map (fun d => map (fun e => (node_id e, d_observations d))
                           (match_memory (d_entityName d) g))
             deletions in
  Ok (fold_left remove_listed rows g, tt).

(** [loadGraph]'s query: an aggregation without grouping key, so exactly one
    record, holding the two collected lists. *)
Definition loadGraph_tx (filterQuery : string)
  (ix : FulltextIndex) (g : Graph) : result (Graph * list (list NodeMap * list RelMap)) :=
  let rows := flat_map (optional_match g) (queryNodes ix filterQuery g) in
  Ok (g, [(collect_distinct NodeMap_eq_dec (map (fun row => node_map (fst row)) rows),
           collect_distinct RelMap_eq_dec (map (fun row => rel_map g (snd row)) rows))]).

(** ** The methods *)

Definition loaded_entities (nodes : list NodeMap) : list LoadedEntity :=
  flat_map
    (fun node : NodeMap =>
       let '(nm, ty, obs) := node in
       match nm with
       | Some s => if truthy nm then [mkLoadedEntity s ty (or_else obs [])] else []
       | None => []
       end)
    nodes.

Definition loaded_relations (rels : list RelMap) : list Relation :=
  flat_map
    (fun rel : RelMap =>
       let '(src, tgt, ty) := rel in
       match src, tgt, ty with
       | Some s, Some t, Some r =>
           if truthy src && truthy tgt && truthy ty then [mkRelation s t r] else []
       | _, _, _ => []
       end)
    rels.

Definition loadGraph (filterQuery : string) : M KnowledgeGraph :=
  try_finally
    (records <- run (loadGraph_tx filterQuery) ;;
     match records with
     | [] => ret (mkKnowledgeGraph [] [])
     | (nodes, rels) :: _ =>
         ret (mkKnowledgeGraph (loaded_entities nodes) (loaded_relations rels))
     end)
    close.

Definition createEntities (entities : list Entity) : M (list Entity) :=
  try_finally
    (run (createEntities_tx (cook createEntities_query)
            (map (fun entity => mkEntity (name entity) (type entity) (observations entity))
                 entities)) ;;
     ret entities)
    close.

Definition createRelations (relations : list Relation) : M (list Relation) :=
  try_finally
    (for_of relations
       (fun relation =>
          run (createRelations_tx (cook createRelations_query)
                 (source relation) (target relation) (relationType relation))) ;;
     ret relations)
    close.

Definition addObservations (observations : list ObservationAddition) : M (list Added) :=
  try_finally
    (records <- run (addObservations_tx
                       (map (fun obs => mkObservationAddition (entityName obs) (contents obs))
                            observations)) ;;
     ret (map (fun record : string * list string => mkAdded (fst record) (snd record)) records))
    close.

Definition deleteEntities (entityNames : list string) : M unit :=
  try_finally (run (deleteEntities_tx entityNames)) close.

Definition deleteObservations (deletions : list ObservationDeletion) : M unit :=
  try_finally
    (run (deleteObservations_tx
            (map (fun deletion =>
                    mkObservationDeletion (d_entityName deletion) (d_observations deletion))
                 deletions)))
    close.

Definition deleteRelations (relations : list Relation) : M unit :=
  try_finally
    (for_of relations
       (fun relation =>
          run (deleteRelations_tx (cook deleteRelations_query)
                 (source relation) (target relation) (relationType relation))))
    close.

Definition readGraph : M KnowledgeGraph := loadGraph "*".

Definition searchNodes (query : string) : M KnowledgeGraph := loadGraph query.

Definition findNodes (names : list string) : M KnowledgeGraph :=
  loadGraph (cook [Text "name:("; Subst (join " " names); Text ")"]).

(** ** Start-up, liveness and statistics *)

(** [await this.driver.verifyConnectivity()]: a round trip that reads and
    writes nothing. *)
Definition verifyConnectivity : M unit := run (fun _ g => Ok (g, tt)).

(** [message.includes(part)] *)
Definition includes (part message : string) : bool :=
  match String.index 0 part message with
  | Some _ => true
  | None => false
  end.

(** [CREATE FULLTEXT INDEX search IF NOT EXISTS ...]: the statement reads and
    writes no node or relationship; [answer] is what the server makes of
    it. *)
Definition createFulltextIndex_tx (answer : result unit)
  (_ : FulltextIndex) (g : Graph) : result (Graph * unit) :=
  match answer with
  | Ok _ => Ok (g, tt)
  | Throw message => Throw message
  end.

Definition createFulltextIndex (answer : result unit) : M unit :=
  try_finally
    (try_catch (run (createFulltextIndex_tx answer))
       (fun message =>
          if truthy (Some message)
             && includes "An index with this name already exists" message
          then ret tt
          else throw message))
    close.

Definition initialize (answer : result unit) : M unit :=
  try_catch (verifyConnectivity ;; createFulltextIndex answer)
    (fun error => throw error).

Definition testConnection : M bool :=
  try_catch (verifyConnectivity ;; ret true) (fun _ => ret false).

(** [close()] ends the driver; it touches no data. *)
Definition close_driver : M unit := ret tt.

(** What [getStats] returns. *)
Record Stats : Type := mkStats {
  stat_entities : nat;
  stat_relations : nat;
  totalObservations : nat
}.

Definition row_rel_ids (row : Node * option Rel) : list nat :=
  match snd row with
  | Some r => [rel_id r]
  | None => []
  end.

(** [MATCH (e:Memory) OPTIONAL MATCH (e)-[r]-()
    RETURN count(distinct e), count(distinct r),
           sum(size(coalesce(e.observations, [])))]:
    the three aggregates run over the rows [(e, r)]; nodes and relationships
    are distinct by identity, a null [r] is not counted. *)
Definition getStats_tx (_ : FulltextIndex) (g : Graph)
  : result (Graph * list (nat * nat * nat)) :=
  let rows := flat_map (optional_match g) (filter (has_label "Memory") (nodes g)) in
  Ok (g,
      [(List.length (nodup Nat.eq_dec (map (fun row => node_id (fst row)) rows)),
        List.length (nodup Nat.eq_dec (flat_map row_rel_ids rows)),
        list_sum (map (fun row => List.length (coalesce (p_observations (fst row)))) rows))]).

Definition getStats : M Stats :=
  try_finally
    (records <- run getStats_tx ;;
     match records with
     | (entities, relations, total) :: _ => ret (mkStats entities relations total)
     | [] => throw "TypeError: Cannot read properties of undefined (reading 'get')"
     end)
    close.

End Neo4jMemory.

(* ================================================================== *)
(** * class AuthManager *)
(* ================================================================== *)

Module Auth.

(** [AuthSession] of types/index.ts; [Date]s are clock readings. *)
Inductive SessionType : Type := oauth | apikey.

Record AuthSession : Type := mkAuthSession {
  id : string;
  type : SessionType;
  userId : option string;
  email : option string;
  name : option string;
  provider : option string;
  scopes : option (list string);
  createdAt : nat;
  expiresAt : option nat
}.

(** What the chain can see of an [http.IncomingMessage]: the headers, their
    names in lower case, and the request target. *)
Record IncomingMessage : Type := mkIncomingMessage {
  headers : list (string * string);
  url : string
}.

Definition header (key : string) (request : IncomingMessage) : option string :=
  option_map snd (find (fun kv => String.eqb (fst kv) key) (headers request)).

(** The members of [AuthProvider] (auth/base.ts) that the constructor and
    [authenticate] use: [name], [canHandle] and [authenticate], which
    settles with a session or throws.  [name] and [authenticate] carry a
    prefix here, the session and the manager having members of these
    names. *)
Record AuthProvider : Type := mkAuthProvider {
  provider_name : string;
  canHandle : IncomingMessage -> bool;
  provider_authenticate : IncomingMessage -> result AuthSession
}.

(** The console: every [console.log], [console.warn] and [console.error]
    of the class, in order; a logged error object is its message. *)
Inductive Level : Type := log | warn | error.
Definition Line : Type := (Level * string)%type.
Definition Console (A : Type) : Type := (list Line * A)%type.

Definition say {A} (lines : list Line) (c : Console A) : Console A :=
  (lines ++ fst c, snd c).

Record AuthManager : Type := mkAuthManager {
  providers : list AuthProvider
}.

Definition decimal (n : nat) : string :=
  DecimalString.NilEmpty.string_of_uint (Nat.to_uint n).

(** [new AuthManager(descopeProjectId, descopeManagementKey, apiKeys)], given
    the two provider constructors, each of which may throw. *)
Definition constructor
  (newOAuthProvider : string -> option string -> result AuthProvider)
  (newApiKeyProvider : list string -> result AuthProvider)
  (descopeProjectId descopeManagementKey : option string)
  (apiKeys : option (list string)) : Console AuthManager :=
  let providers0 : list AuthProvider := [] in
  let '(lines1, providers1) :=
    match descopeProjectId with
    | Some projectId =>
        if truthy descopeProjectId then
          match newOAuthProvider projectId descopeManagementKey with
          | Ok oauthProvider =>
              ([(log, "[Auth] OAuth provider initialized with Descope")],
               providers0 ++ [oauthProvider])
          | Throw e =>
              ([(warn, ("[Auth] Failed to initialize OAuth provider: " ++ e)%string)], providers0)
          end
        else ([], providers0)
    | None => ([], providers0)
    end in
  let '(lines2, providers2) :=
    match apiKeys with
    | Some keys =>
        if Nat.ltb 0 (List.length keys) then
          match newApiKeyProvider keys with
          | Ok apiKeyProvider =>
              ([(log, ("[Auth] API Key provider initialized with "
                        ++ decimal (List.length keys) ++ " keys")%string)],
               providers1 ++ [apiKeyProvider])
          | Throw e =>
              ([(warn, ("[Auth] Failed to initialize API Key provider: " ++ e)%string)], providers1)
          end
        else ([], providers1)
    | None => ([], providers1)
    end in
  let lines3 :=
    if Nat.eqb (List.length providers2) 0 then
      [(warn, "[Auth] No authentication providers initialized. Server will run without authentication.")]
    else [] in
  (lines1 ++ lines2 ++ lines3, mkAuthManager providers2).

(** The session [authenticate] makes up when no provider is configured. *)
Definition anonymous (now : nat) : AuthSession :=
  {| id := "no-auth";
     type := oauth;
     userId := Some "anonymous";
     email := None;
     name := Some "Anonymous User";
     provider := Some "none";
     scopes := Some ["read"; "write"];
     createdAt := now;
     expiresAt := None |}.

(** The [for (const provider of this.providers)] loop of [authenticate] and
    the [throw] after it. *)
Fixpoint try_providers (ps : list AuthProvider) (request : IncomingMessage)
  : Console (result AuthSession) :=
  match ps with
  | [] => ([], Throw "Authentication failed: No valid credentials provided")
  | p :: rest =>
      let checking := (log, ("[Auth] Checking provider: " ++ provider_name p)%string) in
      if canHandle p request then
        let can := (log, ("[Auth] Provider " ++ provider_name p ++ " can handle request")%string) in
        match provider_authenticate p request with
        | Ok session =>
            ([checking; can;
              (log, ("[Auth] Provider " ++ provider_name p ++ " authenticated successfully")%string)],
             Ok session)
        | Throw e =>
            say [checking; can;
                 (error, ("[Auth] " ++ provider_name p ++ " authentication failed: " ++ e)%string)]
                (try_providers rest request)
        end
      else
        say [checking;
             (log, ("[Auth] Provider " ++ provider_name p ++ " cannot handle request")%string)]
            (try_providers rest request)
  end.

(** [authenticate(request)], at clock reading [now].  The object logged with
    the first line is left out. *)
Definition authenticate (this : AuthManager) (now : nat) (request : IncomingMessage)
  : Console (result AuthSession) :=
  say [(log, "[Auth] Attempting authentication...")]
    (if Nat.eqb (List.length (providers this)) 0 then
       ([(log, "[Auth] No providers configured, using anonymous session")],
        Ok (anonymous now))
     else try_providers (providers this) request).

(** ** The other methods of the class *)

(** [isAuthEnabled()] *)
Definition isAuthEnabled (this : AuthManager) : bool :=
  Nat.ltb 0 (List.length (providers this)).

(** [getAvailableMethods()] *)
Definition getAvailableMethods (this : AuthManager) : list string :=
  map provider_name (providers this).

(** [addProvider(provider)]: [this.providers.push(provider)]. *)
Definition addProvider (provider : AuthProvider) (this : AuthManager) : AuthManager :=
  mkAuthManager (providers this ++ [provider]).

(** [removeProvider(name)]:
    [this.providers = this.providers.filter(p => p.name !== name)]. *)
Definition removeProvider (name : string) (this : AuthManager) : AuthManager :=
  mkAuthManager (filter (fun p => negb (String.eqb (provider_name p) name)) (providers this)).

(** A provider together with its [validateSession] member, which settles
    with a session or [null], or throws. *)
Record Validating : Type := mkValidating {
  the_provider : AuthProvider;
  provider_validateSession : string -> result (option AuthSession)
}.

(** [validateSession(sessionId, providerType?)] over the providers of the
    manager. *)
Fixpoint validateSession (ps : list Validating) (sessionId : string)
  (providerType : option string) : Console (option AuthSession) :=
  match ps with
  | [] => ([], None)
  | p :: rest =>
      if negb (truthy providerType)
         || option_string_eqb (Some (provider_name (the_provider p))) providerType
      then
        match provider_validateSession p sessionId with
        | Ok (Some session) => ([], Some session)
        | Ok None => validateSession rest sessionId providerType
        | Throw e =>
            say [(error, ("[Auth] Session validation failed for "
                          ++ provider_name (the_provider p) ++ ": " ++ e)%string)]
                (validateSession rest sessionId providerType)
        end
      else validateSession rest sessionId providerType
  end.

(** ** The two providers *)

(** Identity claims of a valid token, as the introspection backend returns
    them. *)
Record Claims : Type := mkClaims {
  c_userId : string;
  c_email : option string;
  c_name : option string;
  c_provider : option string;
  c_scopes : list string
}.

Definition bearer_token (request : IncomingMessage) : option string :=
  match header "authorization" request with
  | Some v =>
      if String.prefix "Bearer " v then Some (substring 7 (String.length v - 7) v) else None
  | None => None
  end.

(** Modelled from the spec: auth/oauth.ts is not among the sources.  The
    OAuth-bearer provider claims a request carrying [Authorization: Bearer],
    and authenticates it by handing the token to the token-introspection
    backend, which returns the identity claims or an error. *)
Definition OAuthProvider (introspect : string -> result Claims) (now : nat)
  : AuthProvider :=
  {| provider_name := "oauth";
     canHandle := fun request =>
       match bearer_token request with Some _ => true | None => false end;
     provider_authenticate := fun request =>
       match bearer_token request with
       | Some token =>
           match introspect token with
           | Ok c =>
               Ok (mkAuthSession token oauth (Some (c_userId c)) (c_email c) (c_name c)
                     (c_provider c) (Some (c_scopes c)) now None)
           | Throw e => Throw e
           end
       | None => Throw "No bearer token"
       end |}.

(** The value of [?key=...] in a request target. *)
Definition query_param (key : string) (target : string) : option string :=
  match String.index 0 (key ++ "=") target with
  | Some i =>
      let rest := substring (i + String.length key + 1) (String.length target) target in
      Some (match String.index 0 "&" rest with
            | Some j => substring 0 j rest
            | None => rest
            end)
  | None => None
  end.

Definition api_key_of (request : IncomingMessage) : option string :=
  match header "authorization" request with
  | Some v =>
      if String.prefix "ApiKey " v then Some (substring 7 (String.length v - 7) v)
      else match header "x-api-key" request with
           | Some k => Some k
           | None => query_param "api_key" (url request)
           end
  | None =>
      match header "x-api-key" request with
      | Some k => Some k
      | None => query_param "api_key" (url request)
      end
  end.

(** Modelled from the spec: auth/apikey.ts is not among the sources.  The
    API-key provider claims a request carrying one of its markers
    ([Authorization: ApiKey], [x-api-key], [?api_key=]) and authenticates it
    when the key is on the static allowlist. *)
Definition ApiKeyProvider (apiKeys : list string) (now : nat) : AuthProvider :=
  {| provider_name := "apikey";
     canHandle := fun request =>
       match api_key_of request with Some _ => true | None => false end;
     provider_authenticate := fun request =>
       match api_key_of request with
       | Some key =>
           if mem key apiKeys then
             Ok (mkAuthSession "apikey" apikey None None None None None now None)
           else Throw "Invalid API key"
       | None => Throw "No API key"
       end |}.

End Auth.

(* ================================================================== *)
(** * class MCPNeo4jServer *)
(* ================================================================== *)

Module Server.

Import Neo4jMemory.
Local Open Scope session_scope.

(** The [Response] thrown for a request that is not authenticated. *)
Record Response : Type := mkResponse {
  status : nat;
  statusText : string;
  response_headers : list (string * string);
  body : string
}.

Definition quote : string := String (Ascii.ascii_of_nat 34) EmptyString.

(** [JSON.stringify({ error: 'Authentication required' })] *)
Definition unauthorized_body : string :=
  ("{" ++ quote ++ "error" ++ quote ++ ":" ++ quote ++ "Authentication required"
       ++ quote ++ "}")%string.

Definition unauthorized : Response :=
  mkResponse 401 "Unauthorized" [("Content-Type", "application/json")] unauthorized_body.

(** What the private [authenticate] settles to: the session, or the thrown
    [Response]. *)
Inductive Authenticated : Type :=
| Session (session : Auth.AuthSession)
| Rejected (response : Response).

(** [authenticate(request)]: the objects logged with the two lines are left
    out but for the error message. *)
Definition authenticate (authManager : Auth.AuthManager) (now : nat)
  (request : Auth.IncomingMessage) : Auth.Console Authenticated :=
  let (lines, r) := Auth.authenticate authManager now request in
  match r with
  | Ok session =>
      (lines ++ [(Auth.log, "[Server] Authentication successful:")], Session session)
  | Throw e =>
      (lines ++ [(Auth.error, ("[Server] Authentication failed: " ++ e)%string)],
       Rejected unauthorized)
  end.

(** The [execute] functions of the three deleting tools; what they write to
    the request log is left out. *)
Definition delete_entities (entityNames : list string) : M string :=
  try_catch (deleteEntities entityNames ;; ret "Entities deleted successfully")
    (fun error => throw error).

Definition delete_observations (deletions : list ObservationDeletion) : M string :=
  try_catch (deleteObservations deletions ;; ret "Observations deleted successfully")
    (fun error => throw error).

Definition delete_relations (relations : list Relation) : M string :=
  try_catch (deleteRelations relations ;; ret "Relations deleted successfully")
    (fun error => throw error).

(** The [neo4j] part of what the resource [mcp-neo4j://status] loads:
    [getStats()] is awaited first, [testConnection()] while the object is
    put together. *)
Definition status_neo4j : M (bool * Stats) :=
  stats <- getStats ;;
  connected <- testConnection ;;
  ret (connected, stats).

End Server.

(* ================================================================== *)
(** * index.ts: from the environment to the manager *)
(* ================================================================== *)

Module Main.

(** [s.split(',')]: the pieces between the separators; never an empty
    array. *)
Fixpoint split (sep : ascii) (s : string) : list string :=
  match s with
  | EmptyString => [EmptyString]
  | String c s' =>
      if Ascii.eqb c sep then EmptyString :: split sep s'
      else match split sep s' with
           | piece :: pieces => String c piece :: pieces
           | [] => [String c EmptyString]
           end
  end.

(** Strings are held as their UTF-8 bytes; [utf8] spells a character by its
    bytes.  The comma is one byte and part of no other character. *)
Definition utf8 (bytes : list nat) : string :=
  fold_right (fun n s => String (Ascii.ascii_of_nat n) s) EmptyString bytes.

(** The characters [String.prototype.trim] strips, ECMAScript's WhiteSpace
    and LineTerminator: U+0009 to U+000D, U+0020, U+00A0, U+1680, U+2000 to
    U+200A, U+2028, U+2029, U+202F, U+205F, U+3000 and U+FEFF. *)
Definition white_space_characters : list string :=
  map utf8
    [[9]; [10]; [11]; [12]; [13]; [32];
     [194; 160];
     [225; 154; 128];
     [226; 128; 128]; [226; 128; 129]; [226; 128; 130]; [226; 128; 131];
     [226; 128; 132]; [226; 128; 133]; [226; 128; 134]; [226; 128; 135];
     [226; 128; 136]; [226; 128; 137]; [226; 128; 138];
     [226; 128; 168]; [226; 128; 169]; [226; 128; 175];
     [226; 129; 159];
     [227; 128; 128];
     [239; 187; 191]].

(** The bytes are those of one white-space character. *)
Definition white_space (character : string) : bool :=
  existsb (String.eqb character) white_space_characters.

(** Leading white space goes, character by character; a character is one
    to three bytes long. *)
Fixpoint trim_start (s : string) : string :=
  match s with
  | EmptyString => EmptyString
  | String a s1 =>
      if white_space (String a EmptyString) then trim_start s1
      else
        match s1 with
        | EmptyString => s
        | String b s2 =>
            if white_space (String a (String b EmptyString)) then trim_start s2
            else
              match s2 with
              | EmptyString => s
              | String c s3 =>
                  if white_space (String a (String b (String c EmptyString)))
                  then trim_start s3
                  else s
              end
        end
  end.

(** Trailing white space goes: what is left of the tail behind a byte,
    together with that byte, is dropped when it is one white-space
    character. *)
Fixpoint trim_end (s : string) : string :=
  match s with
  | EmptyString => EmptyString
  | String c s' =>
      if white_space (String c (trim_end s')) then EmptyString
      else String c (trim_end s')
  end.

(** [key.trim()] *)
Definition trim (s : string) : string := trim_end (trim_start s).

Definition comma : ascii := ","%char.

(** [env.API_KEYS ? env.API_KEYS.split(',').map(key => key.trim()) : undefined] *)
Definition apiKeys_of (API_KEYS : option string) : option (list string) :=
  match API_KEYS with
  | Some keys => if truthy API_KEYS then Some (map trim (split comma keys)) else None
  | None => None
  end.

(** [env.CORS_ORIGINS.split(',').map(origin => origin.trim())] *)
Definition corsOrigins_of (CORS_ORIGINS : string) : list string :=
  map trim (split comma CORS_ORIGINS).

(** The manager [main] ends up with: [new MCPNeo4jServer(config)] hands
    [config.auth] to [new AuthManager(...)]. *)
Definition authManager_of
  (newOAuthProvider : string -> option string -> result Auth.AuthProvider)
  (newApiKeyProvider : list string -> result Auth.AuthProvider)
  (DESCOPE_PROJECT_ID DESCOPE_MANAGEMENT_KEY API_KEYS : option string)
  : Auth.Console Auth.AuthManager :=
  Auth.constructor newOAuthProvider newApiKeyProvider
    DESCOPE_PROJECT_ID DESCOPE_MANAGEMENT_KEY (apiKeys_of API_KEYS).

End Main.

(* ================================================================== *)
(** * The graph store: vocabulary of the statements *)
(* ================================================================== *)

Module Effects.

Import Neo4jMemory.

(** ** Calls and batches *)

(** The graph a method leaves behind, and what it settles to. *)
Definition graph_after {A} (m : M A) (s : Store) : Graph := graph (fst (m s)).
Definition outcome {A} (m : M A) (s : Store) : result A := snd (m s).

(** A batch of round trips that all succeed: [step] is what the round trip
    for one element does to the graph. *)
Definition steps {A} (step : A -> Graph -> Graph) (xs : list A) (g : Graph) : Graph :=
  fold_left (fun g x => step x g) xs g.

(** Node identities are unique and older than the next one handed out. *)
Definition well_formed (g : Graph) : Prop :=
  NoDup (map node_id (nodes g)) /\
  Forall (fun n => node_id n < next_id g) (nodes g).

Definition is_nil {A} (l : list A) : bool :=
  match l with [] => true | _ => false end.

(** An entity of that name exists: some [Memory] node carries it. *)
Definition entity_exists (g : Graph) (name : string) : bool :=
  negb (is_nil (match_memory name g)).

(** ** Relations *)

(** The relationship type the two relation queries carry. *)
Definition query_rel_type : string := "${relationType}".

(** The transaction [createRelations] runs for one relation, and the one
    [deleteRelations] runs. *)
Definition create_tx (relation : Relation) :=
  createRelations_tx (cook createRelations_query)
    (source relation) (target relation) (relationType relation).

Definition delete_tx (relation : Relation) :=
  deleteRelations_tx (cook deleteRelations_query)
    (source relation) (target relation) (relationType relation).

(** What the round trip for one relation of a [createRelations] batch does
    to the graph. *)
Definition create_relation (relation : Relation) (g : Graph) : Graph :=
  fold_left (merge_rel query_rel_type)
    (pairs (match_memory (source relation) g) (match_memory (target relation) g)) g.

(** What the round trip for one relation of a [deleteRelations] batch does
    to the graph. *)
Definition delete_relation (relation : Relation) (g : Graph) : Graph :=
  fold_left (delete_rel query_rel_type)
    (pairs (match_memory (source relation) g) (match_memory (target relation) g)) g.

Definition endpoints_exist (g : Graph) (relation : Relation) : bool :=
  entity_exists g (source relation) && entity_exists g (target relation).

(** Every row of a [MERGE] clause has its relationship in the graph. *)
Definition covered (ty : string) (rows : list (nat * nat)) (g : Graph) : Prop :=
  Forall (fun row => existsb (rel_matches (fst row) (snd row) ty) (rels g) = true) rows.

(** The relationships [createRelations] would merge for a relation are
    there. *)
Definition relation_present (g : Graph) (relation : Relation) : Prop :=
  covered query_rel_type
    (pairs (match_memory (source relation) g) (match_memory (target relation) g)) g.

(** No two relationships agree in start node, end node and type. *)
Definition unique_triples (g : Graph) : Prop :=
  NoDup (map (fun r => (startNode r, endNode r, rel_type r)) (rels g)).

(** ** Deletions *)

(** The nodes bound by [UNWIND $entities as name MATCH (e:Memory { name: name })]. *)
Definition deleted_ids (names : list string) (g : Graph) : list nat :=
  flat_map (fun name => map node_id (match_memory name g)) names.

(** The rows of [UNWIND $deletions as d MATCH (e:Memory { name: d.entityName })]. *)
Definition deletion_rows (deletions : list ObservationDeletion) (g : Graph)
  : list (nat * list string) :=
  flat_map (fun d => map (fun e => (node_id e, d_observations d))
                         (match_memory (d_entityName d) g))
           deletions.

(** ** Observations *)

(** The pair [obs] of an [addObservations] batch names the node [n]. *)
Definition targets (n : Node) (obs : ObservationAddition) : bool :=
  has_label "Memory" n && option_string_eqb (p_name n) (Some (entityName obs)).

(** A node after an [addObservations] batch: behind its observations, for
    each pair naming it and in batch order, the contents that were not among
    those observations. *)
Definition after_additions (observations : list ObservationAddition) (n : Node) : Node :=
  match filter (targets n) observations with
  | [] => n
  | hits =>
      set_observations
        (coalesce (p_observations n)
         ++ flat_map (fun obs => not_in (coalesce (p_observations n)) (contents obs)) hits)
        n
  end.

(** What [addObservations] reports: one element per pair and entity it
    names. *)
Definition reported (observations : list ObservationAddition) (g : Graph) : list Added :=
  flat_map
    (fun obs =>
       map (fun e => mkAdded (entityName obs)
                       (not_in (coalesce (p_observations e)) (contents obs)))
           (match_memory (entityName obs) g))
    observations.

(** The row a matched node gives for one pair. *)
Definition row_of (obs : ObservationAddition) (e : Node) : list (nat * string * list string) :=
  match p_name e with
  | Some nm => [(node_id e, nm, not_in (coalesce (p_observations e)) (contents obs))]
  | None => []
  end.

Definition row_id (row : nat * string * list string) : nat := fst (fst row).
Definition row_new (row : nat * string * list string) : list string := snd row.

(** [append_new] for one row, seen from one node. *)
Definition append_to (row : nat * string * list string) (n : Node) : Node :=
  if Nat.eqb (node_id n) (row_id row)
  then set_observations (coalesce (p_observations n) ++ row_new row) n
  else n.

(** No entity's observations hold the same string twice. *)
Definition observations_distinct (g : Graph) : Prop :=
  Forall (fun n => NoDup (coalesce (p_observations n))) (nodes g).

(** What keeps a graph well formed with distinct observations. *)
Definition sound (g : Graph) : Prop := well_formed g /\ observations_distinct g.

(** The calls that write observations. *)
Inductive Call : Type :=
| CreateEntities (entities : list Entity)
| AddObservations (observations : list ObservationAddition)
| DeleteObservations (deletions : list ObservationDeletion).

(** The store after one call, whether it returned or threw. *)
Definition call (c : Call) (s : Store) : Store :=
  match c with
  | CreateEntities entities => fst (createEntities entities s)
  | AddObservations observations => fst (addObservations observations s)
  | DeleteObservations deletions => fst (deleteObservations deletions s)
  end.

Definition calls (cs : list Call) (s : Store) : Store :=
  fold_left (fun s c => call c s) cs s.

(** ** Entities *)

(** The label [createEntities]' query carries. *)
Definition query_label : string := "${entity.type}".

(** What [createEntities]' query does to the graph. *)
Definition create_entities (entities : list Entity) (g : Graph) : Graph :=
  fold_left (set_entity query_label) (snd (merge_rows entities g))
            (fst (merge_rows entities g)).

(** The labels a graph carries, or that [createEntities] may add. *)
Definition known_label (g : Graph) (l : string) : Prop :=
  l = "Memory" \/ l = "${entity.type}" \/ exists n, In n (nodes g) /\ In l (labels n).

Definition labels_known (g g' : Graph) : Prop :=
  Forall (fun n' => forall l, In l (labels n') -> known_label g l) (nodes g').

(** The rows [(e, entity)] of [createEntities]' [MERGE] once every name is
    there. *)
Definition rows_in (entities : list Entity) (g : Graph) : list (nat * Entity) :=
  flat_map (fun entity => map (fun n => (node_id n, entity)) (match_memory (name entity) g))
           entities.

(** [SET e += entity, e:`${entity.type}`] on a node. *)
Definition write_entity (entity : Entity) (n : Node) : Node :=
  add_label query_label
    (set_properties (name entity) (type entity) (observations entity) n).

(** The entity of the last row bound to the node with identity [id]. *)
Definition last_entity (rows : list (nat * Entity)) (id : nat) (acc : option Entity)
  : option Entity :=
  fold_left (fun acc row => if Nat.eqb id (fst row) then Some (snd row) else acc) rows acc.

Definition written (entity : option Entity) (n : Node) : Node :=
  match entity with
  | Some entity => write_entity entity n
  | None => n
  end.

(** ** Removing observations and relations *)

(** The deletion [d] of a [deleteObservations] batch names the node [n]. *)
Definition named_by (n : Node) (d : ObservationDeletion) : bool :=
  has_label "Memory" n && option_string_eqb (p_name n) (Some (d_entityName d)).

(** A node after a [deleteObservations] batch: of its observations, those
    that no deletion naming it lists, in their order. *)
Definition after_deletions (deletions : list ObservationDeletion) (n : Node) : Node :=
  match filter (named_by n) deletions with
  | [] => n
  | hits =>
      set_observations
        (not_in (flat_map d_observations hits) (coalesce (p_observations n))) n
  end.

(** [remove_listed] for one row, seen from one node. *)
Definition remove_from (row : nat * list string) (n : Node) : Node :=
  if Nat.eqb (node_id n) (fst row)
  then set_observations (not_in (snd row) (coalesce (p_observations n))) n
  else n.

Definition is_in (id : nat) (ids : list nat) : bool := existsb (Nat.eqb id) ids.

(** The relationship [r] runs from an entity named [source] to one named
    [target] and has the type the relation queries carry. *)
Definition joins (g : Graph) (relation : Relation) (r : Rel) : bool :=
  is_in (startNode r) (map node_id (match_memory (source relation) g))
  && is_in (endNode r) (map node_id (match_memory (target relation) g))
  && String.eqb (rel_type r) query_rel_type.

(** ** Statistics *)

Definition memory_nodes (g : Graph) : list Node :=
  filter (has_label "Memory") (nodes g).

(** The relationships touching a node, in either direction. *)
Definition degree (g : Graph) (n : Node) : nat :=
  List.length (filter (incident (node_id n)) (rels g)).

(** The relationship touches some entity. *)
Definition touches_entity (g : Graph) (r : Rel) : bool :=
  existsb (fun n => incident (node_id n) r) (memory_nodes g).

(** The observations the graph holds, entity by entity. *)
Definition observations_held (g : Graph) : nat :=
  list_sum (map (fun n => List.length (coalesce (p_observations n))) (memory_nodes g)).

(** What [getStats] adds up: the observations of an entity once per
    relationship touching it, once when there is none. *)
Definition observations_counted (g : Graph) : nat :=
  list_sum (map (fun n => Nat.max 1 (degree g n) * List.length (coalesce (p_observations n)))
                (memory_nodes g)).

(** ** Upserting entities *)

(** The last entity of the batch that carries the name. *)
Definition last_named (name : string) (entities : list Entity) (acc : option Entity)
  : option Entity :=
  fold_left (fun acc entity => if String.eqb (Types.name entity) name then Some entity else acc)
            entities acc.

(** A node after a [createEntities] batch: an entity the batch names holds
    the fields of the last entity of that name and the query's label. *)
Definition after_upsert (entities : list Entity) (n : Node) : Node :=
  if has_label "Memory" n then
    match p_name n with
    | Some nm => written (last_named nm entities None) n
    | None => n
    end
  else n.

(** ** What a call stores *)

(** The strings an [addObservations] batch puts behind the observations of
    a node: for each pair naming it, the contents the node does not hold. *)
Definition added_to (observations : list ObservationAddition) (n : Node) : list string :=
  flat_map (fun obs => not_in (coalesce (p_observations n)) (contents obs))
           (filter (targets n) observations).

(** The call, run on the graph, stores no string twice for an entity.  For
    [createEntities]: the last entity of each name has no observation
    twice.  For [addObservations]: the strings added to an entity are
    distinct; contents the entity holds already may repeat at will.
    [deleteObservations] stores nothing. *)
Definition stores_distinct (g : Graph) (c : Call) : Prop :=
  match c with
  | CreateEntities entities =>
      forall nm entity,
        last_named nm entities None = Some entity -> NoDup (observations entity)
  | AddObservations observations =>
      Forall (fun n => NoDup (added_to observations n)) (nodes g)
  | DeleteObservations _ => True
  end.

(** What the query of a call does to the graph. *)
Definition effect (c : Call) (g : Graph) : Graph :=
  match c with
  | CreateEntities entities => create_entities entities g
  | AddObservations observations =>
      fold_left append_new (new_rows observations g) g
  | DeleteObservations deletions =>
      fold_left remove_listed (deletion_rows deletions g) g
  end.

(** The coming round trip fails. *)
Definition fails (s : Store) : bool := hd false (faults s).

(** Every call of the sequence whose round trip succeeds stores no string
    twice on the graph it finds. *)
Fixpoint distinct_along (cs : list Call) (s : Store) : Prop :=
  match cs with
  | [] => True
  | c :: cs' =>
      (fails s = false -> stores_distinct (graph s) c) /\ distinct_along cs' (call c s)
  end.

(** Every relationship starts and ends at a node of the graph. *)
Definition attached (g : Graph) : Prop :=
  Forall (fun r => is_in (startNode r) (map node_id (nodes g)) = true /\
                   is_in (endNode r) (map node_id (nodes g)) = true)
         (rels g).

(** ** Loading *)

(** What [loadGraph] returns for a node it keeps. *)
Definition entity_of (n : Node) (e : LoadedEntity) : Prop :=
  p_name n = Some (l_name e) /\ l_name e <> "" /\
  l_type e = p_type n /\ l_observations e = coalesce (p_observations n).

(** The relationship read as a relation between names, as [loadGraph]
    keeps it. *)
Definition relation_of (g : Graph) (r : Rel) (y : Relation) : Prop :=
  name_of g (startNode r) = Some (source y) /\
  name_of g (endNode r) = Some (target y) /\
  rel_type r = relationType y /\
  source y <> "" /\ target y <> "" /\ relationType y <> "".

End Effects.
Import Effects.

(* ================================================================== *)
(** * The credential chain: vocabulary of the statements *)
(* ================================================================== *)

Module Chain.

Import Auth.

(** A provider the loop passes by: it does not claim the request, or it
    claims it and fails to authenticate it. *)
Definition passes_by (request : IncomingMessage) (p : AuthProvider) : Prop :=
  canHandle p request = false \/
  (canHandle p request = true /\ exists e, provider_authenticate p request = Throw e).

(** The provider list the constructor leaves when the OAuth provider is not
    asked for. *)
Definition without_oauth
  (newOAuthProvider : string -> option string -> result AuthProvider)
  (newApiKeyProvider : list string -> result AuthProvider)
  (descopeManagementKey : option string) (apiKeys : option (list string)) :=
  providers (snd (constructor newOAuthProvider newApiKeyProvider
                    None descopeManagementKey apiKeys)).

(** A request with a bearer token the introspection backend rejects and an
    allowlisted API key in [x-api-key]. *)
Definition rejecting (_ : string) : result Claims := Throw "invalid token".

Definition bad_bearer_good_key : IncomingMessage :=
  mkIncomingMessage [("authorization", "Bearer expired"); ("x-api-key", "k1")] "/stream".

(** Two provider constructors that throw. *)
Definition broken_oauth (_ : string) (_ : option string) : result AuthProvider :=
  Throw "Descope client: invalid project id".

Definition broken_apikey (_ : list string) : result AuthProvider :=
  Throw "no usable key".

(** The error [authenticate] throws. *)
Definition no_valid_credentials : string :=
  "Authentication failed: No valid credentials provided".

(** [validateSession] asks this provider: no type was given, or it is the
    provider's name. *)
Definition asked (providerType : option string) (p : Validating) : bool :=
  negb (truthy providerType)
  || option_string_eqb (Some (provider_name (the_provider p))) providerType.

(** A provider [validateSession] goes past: it is not asked, or it knows no
    such session, or it throws. *)
Definition no_session (sessionId : string) (providerType : option string)
  (p : Validating) : Prop :=
  asked providerType p = false \/
  provider_validateSession p sessionId = Ok None \/
  exists e, provider_validateSession p sessionId = Throw e.

(** Two providers and two requests to try them on. *)
Definition oauth_down : AuthProvider := OAuthProvider rejecting 7.
Definition keys12 : AuthProvider := ApiKeyProvider ["k1"; "k2"] 7.

Definition bad_bearer_only : IncomingMessage :=
  mkIncomingMessage [("authorization", "Bearer expired")] "/stream".

Definition knows_s1 (sessionId : string) : result (option AuthSession) :=
  if String.eqb sessionId "s1"
  then Ok (Some (mkAuthSession "s1" apikey None None None None None 7 None))
  else Ok None.

Definition always_throws (_ : string) : result (option AuthSession) :=
  Throw "introspection unreachable".

End Chain.
Import Chain.

(* ================================================================== *)
(** * Sample stores and batches *)
(* ================================================================== *)

Module Samples.

Import Neo4jMemory.

(** An index in which every indexed node matches every filter. *)
Definition match_all : FulltextIndex := fun _ _ => true.

(** An empty database behind a connection that does not fail. *)
Definition fresh : Store := mkStore Cypher.empty match_all [].

Definition alice : Entity := mkEntity "Alice" "Person" ["likes tea"].
Definition bob : Entity := mkEntity "Bob" "Person" [].
Definition knows : Relation := mkRelation "Alice" "Bob" "knows".
Definition admires : Relation := mkRelation "Bob" "Alice" "admires".
Definition ghosts : Relation := mkRelation "Ghost1" "Ghost2" "knows".

(** Alice and Bob, created through the class. *)
Definition people : Store := fst (createEntities [alice; bob] fresh).


(** Alice and Bob with the relation between them created. *)
Definition acquainted : Store := fst (createRelations [knows] people).

(** One entity with one observation. *)
Definition noted : Store := fst (createEntities [mkEntity "A" "Thing" ["x"]] fresh).

End Samples.
Import Samples.

(* ================================================================== *)
(** * Sessions: how the methods run *)
(* ================================================================== *)

Section SessionFacts.

Lemma try_finally_close {A} (body : M A) (s : Store) :
  try_finally body close s = body s.
Proof. unfold try_finally, close, ret. destruct (body s). reflexivity. Qed.

Lemma healthy_cases (s : Store) :
  healthy s ->
  faults s = [] \/ exists fs, faults s = false :: fs /\ forallb negb fs = true.
Proof.
  unfold healthy. destruct (faults s) as [|[|] fs]; cbn; intros H.
  - now left.
  - discriminate.
  - right. now exists fs.
Qed.

(** A round trip on a healthy store commits what the query does. *)
Lemma run_healthy {A} (tx : FulltextIndex -> Graph -> result (Graph * A))
  (s : Store) (g' : Graph) (a : A) :
  healthy s ->
  tx (index s) (graph s) = Ok (g', a) ->
  run tx s = (mkStore g' (index s) (tl (faults s)), Ok a) /\
  healthy (mkStore g' (index s) (tl (faults s))).
Proof.
  intros Hs Htx. unfold run.
  destruct (healthy_cases s Hs) as [E | [fs [E Hfs]]]; rewrite E, Htx; cbn.
  - split; reflexivity.
  - split; [reflexivity | exact Hfs].
Qed.

(** A failing round trip commits nothing and throws. *)
Lemma run_fault {A} (tx : FulltextIndex -> Graph -> result (Graph * A))
  (s : Store) (rest : list bool) :
  faults s = true :: rest ->
  run tx s = (mkStore (graph s) (index s) rest, Throw "ServiceUnavailable").
Proof. intros E. unfold run. rewrite E. reflexivity. Qed.

Variable A : Type.
Variable step : A -> Graph -> Graph.
Variable tx : A -> FulltextIndex -> Graph -> result (Graph * unit).
Hypothesis tx_step : forall x ix g, tx x ix g = Ok (step x g, tt).

(** One round trip per element, in list order, while the store is healthy. *)
Lemma for_of_healthy (xs : list A) (s : Store) :
  healthy s ->
  exists fs,
    for_of xs (fun x => run (tx x)) s = (mkStore (steps step xs (graph s)) (index s) fs, Ok tt) /\
    forallb negb fs = true.
Proof.
  revert s. induction xs as [|x xs IH]; intros s Hs.
  - exists (faults s). destruct s; split; [reflexivity | exact Hs].
  - cbn [for_of]. unfold bind.
    destruct (run_healthy (tx x) s (step x (graph s)) tt Hs (tx_step _ _ _)) as [E Hs'].
    rewrite E. destruct (IH _ Hs') as [fs [E' Hfs]].
    exists fs. split; [exact E' | exact Hfs].
Qed.


End SessionFacts.


(* ================================================================== *)
(** * Relations: batches, missing endpoints *)
(* ================================================================== *)

Section RelationBatches.

Import Neo4jMemory.

Lemma createRelations_tx_step (relation : Relation) (ix : FulltextIndex) (g : Graph) :
  createRelations_tx (cook createRelations_query)
    (source relation) (target relation) (relationType relation) ix g
  = Ok (create_relation relation g, tt).
Proof. reflexivity. Qed.

Lemma deleteRelations_tx_step (relation : Relation) (ix : FulltextIndex) (g : Graph) :
  deleteRelations_tx (cook deleteRelations_query)
    (source relation) (target relation) (relationType relation) ix g
  = Ok (delete_relation relation g, tt).
Proof. reflexivity. Qed.

Lemma skipn_tl {X} (n : nat) (l : list X) : skipn n (tl l) = skipn (S n) l.
Proof. destruct l; [destruct n|]; reflexivity. Qed.

(** On a healthy store a batch runs to its end and returns its input. *)
Lemma createRelations_healthy (relations : list Relation) (s : Store) :
  healthy s ->
  graph_after (createRelations relations) s = steps create_relation relations (graph s) /\
  outcome (createRelations relations) s = Ok relations.
Proof.
  intros Hs. unfold graph_after, outcome, createRelations.
  rewrite try_finally_close. unfold bind.
  destruct (for_of_healthy _ create_relation create_tx createRelations_tx_step relations s Hs)
    as [fs [E _]].
  unfold create_tx, delete_tx in E. rewrite E. split; reflexivity.
Qed.

Lemma deleteRelations_healthy (relations : list Relation) (s : Store) :
  healthy s ->
  graph_after (deleteRelations relations) s = steps delete_relation relations (graph s) /\
  outcome (deleteRelations relations) s = Ok tt.
Proof.
  intros Hs. unfold graph_after, outcome, deleteRelations.
  rewrite try_finally_close.
  destruct (for_of_healthy _ delete_relation delete_tx deleteRelations_tx_step relations s Hs)
    as [fs [E _]].
  unfold create_tx, delete_tx in E. rewrite E. split; reflexivity.
Qed.




End RelationBatches.

Section MissingEndpoints.

Import Neo4jMemory.

Lemma filter_none {X} (f : X -> bool) (l : list X) :
  Forall (fun x => f x = false) l -> filter f l = [].
Proof.
  induction 1 as [|x l Hx _ IH]; [reflexivity|].
  cbn [filter]. now rewrite Hx.
Qed.

Lemma match_memory_nodes (name : string) (g g' : Graph) :
  nodes g = nodes g' -> match_memory name g = match_memory name g'.
Proof. unfold match_memory. now intros ->. Qed.

Lemma merge_rel_nodes (ty : string) (g : Graph) (row : nat * nat) :
  nodes (merge_rel ty g row) = nodes g.
Proof.
  destruct row as [from to]. unfold merge_rel.
  now destruct (existsb _ _).
Qed.

Lemma fold_merge_rel_nodes (ty : string) (rows : list (nat * nat)) (g : Graph) :
  nodes (fold_left (merge_rel ty) rows g) = nodes g.
Proof.
  revert g. induction rows as [|row rows IH]; intros g; [reflexivity|].
  cbn [fold_left]. now rewrite IH, merge_rel_nodes.
Qed.

Lemma create_relation_nodes (relation : Relation) (g : Graph) :
  nodes (create_relation relation g) = nodes g.
Proof. apply fold_merge_rel_nodes. Qed.

Lemma steps_create_nodes (relations : list Relation) (g : Graph) :
  nodes (steps create_relation relations g) = nodes g.
Proof.
  revert g. induction relations as [|r rs IH]; intros g; [reflexivity|].
  unfold steps in *. cbn [fold_left]. now rewrite IH, create_relation_nodes.
Qed.

Lemma pairs_nil_r (froms : list Node) : pairs froms [] = [].
Proof. unfold pairs. induction froms; [reflexivity | exact IHfroms]. Qed.

(** With an endpoint missing, the two [MATCH] clauses bind no row and the
    [MERGE] writes nothing. *)
Lemma create_relation_missing (relation : Relation) (g : Graph) :
  endpoints_exist g relation = false -> create_relation relation g = g.
Proof.
  unfold endpoints_exist, entity_exists, create_relation. intros H.
  destruct (match_memory (source relation) g); [reflexivity|].
  destruct (match_memory (target relation) g); [|discriminate].
  now rewrite pairs_nil_r.
Qed.

Lemma endpoints_exist_nodes (relation : Relation) (g g' : Graph) :
  nodes g = nodes g' -> endpoints_exist g relation = endpoints_exist g' relation.
Proof.
  intros E. unfold endpoints_exist, entity_exists.
  now rewrite !(match_memory_nodes _ g g' E).
Qed.

Lemma steps_create_filter (relations : list Relation) (g g0 : Graph) :
  nodes g = nodes g0 ->
  steps create_relation relations g =
  steps create_relation (filter (endpoints_exist g0) relations) g.
Proof.
  revert g. induction relations as [|r rs IH]; intros g E; [reflexivity|].
  cbn [filter]. rewrite <- (endpoints_exist_nodes r g g0 E).
  destruct (endpoints_exist g r) eqn:Hr.
  - unfold steps in *. cbn [fold_left]. apply IH.
    now rewrite create_relation_nodes.
  - unfold steps in *. cbn [fold_left].
    rewrite (create_relation_missing r g Hr). now apply IH.
Qed.

(** C7.  On a store whose round trips succeed, [createRelations] returns
    its input whatever endpoints are missing, and never touches the nodes.
    A relation whose source or target names no entity contributes nothing:
    the graph is the one left by the batch without such relations, and it is
    the graph as it was when every relation of the batch is of that kind. *)
Theorem createRelations_missing_endpoint (relations : list Relation) (s : Store) :
  healthy s ->
  outcome (createRelations relations) s = Ok relations /\
  nodes (graph_after (createRelations relations) s) = nodes (graph s) /\
  graph_after (createRelations relations) s =
    graph_after (createRelations (filter (endpoints_exist (graph s)) relations)) s /\
  (Forall (fun relation => endpoints_exist (graph s) relation = false) relations ->
   graph_after (createRelations relations) s = graph s).
Proof.
  intros Hs.
  destruct (createRelations_healthy relations s Hs) as [Eg Eo].
  destruct (createRelations_healthy (filter (endpoints_exist (graph s)) relations) s Hs)
    as [Eg' _].
  rewrite Eg, Eg', Eo. repeat split.
  - apply steps_create_nodes.
  - now apply steps_create_filter.
  - intros Hall. rewrite (steps_create_filter relations (graph s) (graph s) eq_refl).
    now rewrite (filter_none _ _ Hall).
Qed.

(** Neither Ghost1 nor Ghost2 exists among Alice and Bob. *)
Lemma createRelations_missing_endpoint_witness :
  outcome (createRelations [ghosts]) people = Ok [ghosts] /\
  graph_after (createRelations [ghosts]) people = graph people.
Proof.
  destruct (createRelations_missing_endpoint [ghosts] people) as [Ho [_ [_ Hall]]].
  - reflexivity.
  - split; [exact Ho|]. apply Hall. constructor; [reflexivity | constructor].
Defined.

End MissingEndpoints.

(* ================================================================== *)
(** * Deletions *)
(* ================================================================== *)

Section Deletions.

Import Neo4jMemory.

Lemma filter_all {X} (l : list X) : filter (fun _ => true) l = l.
Proof. induction l as [|x l IH]; [reflexivity|]. cbn. now rewrite IH. Qed.

Lemma filter_twice {X} (p q : X -> bool) (l : list X) :
  filter q (filter p l) = filter (fun x => p x && q x) l.
Proof.
  induction l as [|x l IH]; [reflexivity|].
  cbn [filter]. destruct (p x); cbn [filter andb]; [destruct (q x)|]; now rewrite IH.
Qed.

(** [DETACH DELETE] over all rows: the bound nodes go, and every
    relationship touching one of them; nothing else changes. *)
Lemma fold_detach_delete (ids : list nat) (g : Graph) :
  fold_left detach_delete ids g =
  mkGraph (filter (fun n => negb (existsb (Nat.eqb (node_id n)) ids)) (nodes g))
          (filter (fun r => negb (existsb (fun id => incident id r) ids)) (rels g))
          (next_id g).
Proof.
  revert g. induction ids as [|id ids IH]; intros g.
  - cbn. rewrite !filter_all. now destruct g.
  - cbn [fold_left]. rewrite IH. unfold detach_delete. cbn [nodes rels next_id].
    rewrite !filter_twice. f_equal; apply filter_ext; intros x; cbn [existsb];
      now rewrite negb_orb.
Qed.

Lemma deleteEntities_healthy (entityNames : list string) (s : Store) :
  healthy s ->
  graph_after (deleteEntities entityNames) s =
    fold_left detach_delete (deleted_ids entityNames (graph s)) (graph s) /\
  outcome (deleteEntities entityNames) s = Ok tt.
Proof.
  intros Hs. unfold graph_after, outcome, deleteEntities.
  rewrite try_finally_close.
  destruct (run_healthy (deleteEntities_tx entityNames) s _ tt Hs eq_refl) as [E _].
  rewrite E. split; reflexivity.
Qed.

Lemma deleted_ids_existing (names : list string) (g : Graph) :
  deleted_ids names g = deleted_ids (filter (entity_exists g) names) g.
Proof.
  unfold deleted_ids, entity_exists.
  induction names as [|nm names IH]; [reflexivity|].
  cbn [flat_map filter].
  destruct (match_memory nm g) eqn:E; cbn [is_nil negb map app].
  - exact IH.
  - cbn [flat_map]. now rewrite E, IH.
Qed.

Lemma rebuild_deletions (deletions : list ObservationDeletion) :
  map (fun deletion => mkObservationDeletion (d_entityName deletion) (d_observations deletion))
      deletions = deletions.
Proof.
  induction deletions as [|[nm obs] ds IH]; [reflexivity|].
  cbn. now rewrite IH.
Qed.

Lemma deleteObservations_healthy (deletions : list ObservationDeletion) (s : Store) :
  healthy s ->
  graph_after (deleteObservations deletions) s =
    fold_left remove_listed (deletion_rows deletions (graph s)) (graph s) /\
  outcome (deleteObservations deletions) s = Ok tt.
Proof.
  intros Hs. unfold graph_after, outcome, deleteObservations.
  rewrite try_finally_close, rebuild_deletions.
  destruct (run_healthy (deleteObservations_tx deletions) s _ tt Hs eq_refl) as [E _].
  rewrite E. split; reflexivity.
Qed.

Lemma deletion_rows_existing (deletions : list ObservationDeletion) (g : Graph) :
  deletion_rows deletions g =
  deletion_rows (filter (fun d => entity_exists g (d_entityName d)) deletions) g.
Proof.
  unfold deletion_rows, entity_exists.
  induction deletions as [|d ds IH]; [reflexivity|].
  cbn [flat_map filter].
  destruct (match_memory (d_entityName d) g) eqn:E; cbn [is_nil negb map app].
  - exact IH.
  - cbn [flat_map]. now rewrite E, IH.
Qed.

Lemma existsb_eqb_In (id : nat) (ids : list nat) :
  In id ids -> forall x, Nat.eqb x id = true -> existsb (Nat.eqb x) ids = true.
Proof.
  intros Hin x Hx. apply existsb_exists. exists id. now split.
Qed.

(** C8.  On a store whose round trips succeed, [deleteEntities] and
    [deleteObservations] return without error whether or not the names they
    are given exist.  Names of entities that do not exist contribute
    nothing: the graph is the one the call leaves when they are dropped from
    its argument, and it is untouched when no given name exists.  An entity
    that [deleteEntities] names is gone afterwards, and with it every
    relationship that started or ended at it. *)
Theorem deletions_ignore_missing_names
  (entityNames : list string) (deletions : list ObservationDeletion) (s : Store) :
  healthy s ->
  (outcome (deleteEntities entityNames) s = Ok tt /\
   graph_after (deleteEntities entityNames) s =
     graph_after (deleteEntities (filter (entity_exists (graph s)) entityNames)) s /\
   (Forall (fun name => entity_exists (graph s) name = false) entityNames ->
    graph_after (deleteEntities entityNames) s = graph s)) /\
  (outcome (deleteObservations deletions) s = Ok tt /\
   graph_after (deleteObservations deletions) s =
     graph_after
       (deleteObservations
          (filter (fun d => entity_exists (graph s) (d_entityName d)) deletions)) s /\
   (Forall (fun d => entity_exists (graph s) (d_entityName d) = false) deletions ->
    graph_after (deleteObservations deletions) s = graph s)) /\
  (forall name e,
     In name entityNames -> In e (match_memory name (graph s)) ->
     let g' := graph_after (deleteEntities entityNames) s in
     (forall n, In n (nodes g') -> node_id n <> node_id e) /\
     (forall r, In r (rels g') -> startNode r <> node_id e /\ endNode r <> node_id e)).
Proof.
  intros Hs.
  destruct (deleteEntities_healthy entityNames s Hs) as [Eg Eo].
  destruct (deleteEntities_healthy (filter (entity_exists (graph s)) entityNames) s Hs)
    as [Eg' _].
  destruct (deleteObservations_healthy deletions s Hs) as [Dg Do].
  destruct (deleteObservations_healthy
              (filter (fun d => entity_exists (graph s) (d_entityName d)) deletions) s Hs)
    as [Dg' _].
  split; [|split].
  - split; [exact Eo|]. split.
    + now rewrite Eg, Eg', <- deleted_ids_existing.
    + intros Hall. rewrite Eg, deleted_ids_existing, (filter_none _ _ Hall). reflexivity.
  - split; [exact Do|]. split.
    + now rewrite Dg, Dg', <- deletion_rows_existing.
    + intros Hall. rewrite Dg, deletion_rows_existing.
      rewrite (filter_none (fun d => entity_exists (graph s) (d_entityName d)) _ Hall).
      reflexivity.
  - intros name e Hname He g'. subst g'. rewrite Eg, fold_detach_delete.
    cbn [nodes rels].
    assert (Hid : In (node_id e) (deleted_ids entityNames (graph s))).
    { unfold deleted_ids. apply in_flat_map. exists name. split; [exact Hname|].
      now apply in_map. }
    split.
    + intros n Hn Heq. apply filter_In in Hn. destruct Hn as [_ Hn].
      apply negb_true_iff in Hn.
      rewrite (existsb_eqb_In _ _ Hid (node_id n)) in Hn; [discriminate|].
      now apply Nat.eqb_eq.
    + intros r Hr. apply filter_In in Hr. destruct Hr as [_ Hr].
      apply negb_true_iff in Hr.
      assert (Hinc : incident (node_id e) r = false).
      { destruct (incident (node_id e) r) eqn:Hi; [|reflexivity].
        rewrite <- Hr. symmetry. apply existsb_exists.
        exists (node_id e). now split. }
      unfold incident in Hinc. apply orb_false_iff in Hinc.
      destruct Hinc as [H1 H2].
      split; now apply Nat.eqb_neq.
Qed.

(** Deleting a ghost changes nothing; deleting Alice takes the relation to
    Bob with her. *)
Lemma deletions_ignore_missing_names_witness :
  (outcome (deleteEntities ["ghost"]) acquainted = Ok tt /\
   graph_after (deleteEntities ["ghost"]) acquainted = graph acquainted) /\
  (outcome (deleteObservations [mkObservationDeletion "ghost" ["x"]]) acquainted = Ok tt /\
   graph_after (deleteObservations [mkObservationDeletion "ghost" ["x"]]) acquainted
   = graph acquainted) /\
  rels (graph_after (deleteEntities ["Alice"; "ghost"]) acquainted) = [].
Proof.
  destruct (deletions_ignore_missing_names
              ["ghost"] [mkObservationDeletion "ghost" ["x"]] acquainted)
    as [[Eo [_ Eg]] [[Do [_ Dg]] _]].
  - reflexivity.
  - split; [split; [exact Eo | apply Eg; constructor; [reflexivity | constructor]]|].
    split; [split; [exact Do | apply Dg; constructor; [reflexivity | constructor]]|].
    reflexivity.
Defined.

End Deletions.

(* ================================================================== *)
(** * Observations *)
(* ================================================================== *)

Section Additions.

Import Neo4jMemory.

Lemma rebuild_additions (observations : list ObservationAddition) :
  map (fun obs => mkObservationAddition (entityName obs) (contents obs)) observations
  = observations.
Proof.
  induction observations as [|[nm cs] l IH]; [reflexivity|].
  cbn. now rewrite IH.
Qed.

Lemma option_string_eqb_eq (a : option string) (b : string) :
  option_string_eqb a (Some b) = true <-> a = Some b.
Proof.
  destruct a as [x|]; cbn.
  - rewrite String.eqb_eq. split; [now intros -> | now intros [= ->]].
  - split; discriminate.
Qed.

Lemma match_memory_In (name : string) (g : Graph) (e : Node) :
  In e (match_memory name g) <->
  In e (nodes g) /\ has_label "Memory" e = true /\ p_name e = Some name.
Proof.
  unfold match_memory. rewrite filter_In, andb_true_iff, option_string_eqb_eq.
  tauto.
Qed.

Lemma append_new_nodes (g : Graph) (row : nat * string * list string) :
  append_new g row = mkGraph (map (append_to row) (nodes g)) (rels g) (next_id g).
Proof. destruct row as [[e nm] new]. reflexivity. Qed.

Lemma fold_append_new (rows : list (nat * string * list string)) (g : Graph) :
  fold_left append_new rows g =
  mkGraph (map (fun n => fold_left (fun n row => append_to row n) rows n) (nodes g))
          (rels g) (next_id g).
Proof.
  revert g. induction rows as [|row rows IH]; intros g.
  - cbn. rewrite map_id. now destruct g.
  - cbn [fold_left]. rewrite IH, append_new_nodes. cbn [nodes rels next_id].
    now rewrite map_map.
Qed.

Lemma append_to_id (row : nat * string * list string) (n : Node) :
  node_id (append_to row n) = node_id n.
Proof. unfold append_to. now destruct (Nat.eqb _ _). Qed.

(** All rows written to one node: its observations, then what the rows
    bound to it carry, in row order. *)
Lemma fold_append_to (rows : list (nat * string * list string)) (n : Node) :
  fold_left (fun n row => append_to row n) rows n =
  match filter (fun row => Nat.eqb (node_id n) (row_id row)) rows with
  | [] => n
  | mine => set_observations (coalesce (p_observations n) ++ flat_map row_new mine) n
  end.
Proof.
  revert n. induction rows as [|row rows IH]; intros n; [reflexivity|].
  cbn [fold_left filter]. rewrite IH, append_to_id.
  unfold append_to. destruct (Nat.eqb (node_id n) (row_id row)); [|reflexivity].
  cbn [flat_map]. destruct (filter _ rows) as [|r mine].
  - cbn [flat_map]. now rewrite app_nil_r.
  - cbn [set_observations p_observations coalesce node_id labels p_name p_type].
    unfold set_observations. cbn. now rewrite <- app_assoc.
Qed.

Lemma filter_flat_map_rows {X Y} (p : Y -> bool) (f : X -> list Y) (l : list X) :
  filter p (flat_map f l) = flat_map (fun x => filter p (f x)) l.
Proof.
  induction l as [|x l IH]; [reflexivity|].
  cbn [flat_map]. now rewrite filter_app, IH.
Qed.

Lemma flat_map_nil {X Y} (f : X -> list Y) (l : list X) :
  (forall x, In x l -> f x = []) -> flat_map f l = [].
Proof.
  induction l as [|x l IH]; intros H; [reflexivity|].
  cbn [flat_map]. rewrite (H x (or_introl eq_refl)), IH; [reflexivity|].
  intros y Hy. apply H. now right.
Qed.

Lemma row_of_mine (obs : ObservationAddition) (n e : Node) :
  filter (fun row => Nat.eqb (node_id n) (row_id row)) (row_of obs e) =
  if Nat.eqb (node_id n) (node_id e) then row_of obs e else [].
Proof.
  unfold row_of. destruct (p_name e); cbn.
  - now destruct (Nat.eqb _ _).
  - now destruct (Nat.eqb _ _).
Qed.

(** Among nodes with unique identities, the rows bound to [n] by one
    [MATCH] come from [n] itself. *)
Lemma rows_of_node (obs : ObservationAddition) (p : Node -> bool) (l : list Node) (n : Node) :
  NoDup (map node_id l) ->
  In n l ->
  flat_map (fun e => filter (fun row => Nat.eqb (node_id n) (row_id row)) (row_of obs e))
           (filter p l)
  = if p n then row_of obs n else [].
Proof.
  induction l as [|a l IH]; intros Hnd Hin; [contradiction|].
  cbn [map] in Hnd. apply NoDup_cons_iff in Hnd. destruct Hnd as [Ha Hnd].
  destruct Hin as [-> | Hin].
  - assert (Hrest : flat_map
              (fun e => filter (fun row => Nat.eqb (node_id n) (row_id row)) (row_of obs e))
              (filter p l) = []).
    { apply flat_map_nil. intros e He. apply filter_In in He. destruct He as [He _].
      rewrite row_of_mine.
      destruct (Nat.eqb (node_id n) (node_id e)) eqn:E; [|reflexivity].
      apply Nat.eqb_eq in E. exfalso. apply Ha. rewrite E. now apply in_map. }
    cbn [filter]. destruct (p n).
    + cbn [flat_map]. rewrite Hrest, app_nil_r, row_of_mine, Nat.eqb_refl. reflexivity.
    + exact Hrest.
  - assert (Hne : Nat.eqb (node_id n) (node_id a) = false).
    { apply Nat.eqb_neq. intros E. apply Ha. rewrite <- E. now apply in_map. }
    cbn [filter]. destruct (p a).
    + cbn [flat_map]. rewrite row_of_mine, Hne. cbn [app]. now apply IH.
    + now apply IH.
Qed.

Lemma new_rows_mine (observations : list ObservationAddition) (g : Graph) (n : Node) :
  NoDup (map node_id (nodes g)) ->
  In n (nodes g) ->
  filter (fun row => Nat.eqb (node_id n) (row_id row)) (new_rows observations g) =
  flat_map (fun obs => row_of obs n) (filter (targets n) observations).
Proof.
  intros Hnd Hin. unfold new_rows.
  induction observations as [|obs l IH]; [reflexivity|].
  cbn [flat_map filter]. rewrite filter_app, IH.
  change (fun e : Node =>
            match p_name e with
            | Some nm => [(node_id e, nm, not_in (coalesce (p_observations e)) (contents obs))]
            | None => []
            end) with (row_of obs).
  rewrite filter_flat_map_rows. unfold match_memory.
  rewrite (rows_of_node obs _ (nodes g) n Hnd Hin).
  fold (targets n obs). destruct (targets n obs); reflexivity.
Qed.

Lemma row_of_target (obs : ObservationAddition) (n : Node) :
  targets n obs = true ->
  row_of obs n =
  [(node_id n, entityName obs, not_in (coalesce (p_observations n)) (contents obs))].
Proof.
  unfold targets, row_of. rewrite andb_true_iff, option_string_eqb_eq.
  now intros [_ ->].
Qed.

Lemma rows_of_hits (hits : list ObservationAddition) (n : Node) :
  Forall (fun obs => targets n obs = true) hits ->
  flat_map (fun obs => row_of obs n) hits =
  map (fun obs => (node_id n, entityName obs,
                   not_in (coalesce (p_observations n)) (contents obs))) hits.
Proof.
  induction 1 as [|obs l Ho _ IH]; [reflexivity|].
  cbn [flat_map map]. now rewrite (row_of_target obs n Ho), IH.
Qed.

Lemma hits_target (observations : list ObservationAddition) (n : Node) :
  Forall (fun obs => targets n obs = true) (filter (targets n) observations).
Proof. apply Forall_forall. intros obs H. now apply filter_In in H. Qed.

(** The nodes after [addObservations]' query. *)
Lemma addObservations_nodes (observations : list ObservationAddition) (g : Graph) :
  NoDup (map node_id (nodes g)) ->
  fold_left append_new (new_rows observations g) g =
  mkGraph (map (after_additions observations) (nodes g)) (rels g) (next_id g).
Proof.
  intros Hnd. rewrite fold_append_new. f_equal.
  apply map_ext_in. intros n Hin.
  rewrite fold_append_to, (new_rows_mine observations g n Hnd Hin).
  unfold after_additions.
  rewrite (rows_of_hits _ n (hits_target observations n)).
  destruct (filter (targets n) observations) as [|obs hits]; [reflexivity|].
  cbn [map]. f_equal. f_equal. cbn [flat_map row_new snd]. f_equal.
  rewrite flat_map_concat_map, map_map, <- flat_map_concat_map. reflexivity.
Qed.

Lemma reported_rows (observations : list ObservationAddition) (g : Graph) :
  map (fun record : string * list string => mkAdded (fst record) (snd record))
      (map (fun row : nat * string * list string => let '(_, nm, new) := row in (nm, new))
           (new_rows observations g))
  = reported observations g.
Proof.
  unfold new_rows, reported.
  induction observations as [|obs l IH]; [reflexivity|].
  cbn [flat_map]. rewrite !map_app, IH. f_equal.
  assert (H : forall e, In e (match_memory (entityName obs) g) ->
                        p_name e = Some (entityName obs)).
  { intros e He. now apply match_memory_In in He. }
  induction (match_memory (entityName obs) g) as [|e es IHe]; [reflexivity|].
  cbn [flat_map map]. rewrite (H e (or_introl eq_refl)). cbn [app map fst snd].
  f_equal. apply IHe. intros e' He'. apply H. now right.
Qed.

Lemma addObservations_healthy (observations : list ObservationAddition) (s : Store) :
  healthy s ->
  graph_after (addObservations observations) s =
    fold_left append_new (new_rows observations (graph s)) (graph s) /\
  outcome (addObservations observations) s = Ok (reported observations (graph s)).
Proof.
  intros Hs. unfold graph_after, outcome, addObservations.
  rewrite try_finally_close, rebuild_additions. unfold bind.
  destruct (run_healthy (addObservations_tx observations) s _ _ Hs eq_refl) as [E _].
  rewrite E. cbn [fst snd ret graph]. split; [reflexivity|].
  now rewrite reported_rows.
Qed.

(** C6.  On a store whose round trips succeed, [addObservations] puts
    behind the observations of every entity a pair names exactly those
    contents of the pair that were not among the entity's observations, in
    their order, and changes nothing else; it returns, per pair and entity
    named, the name and the contents added.  A pair naming no entity adds
    no element to the result and raises nothing: when no pair names an
    entity the result is empty and the graph is as it was. *)
Theorem addObservations_appends_difference
  (observations : list ObservationAddition) (s : Store) :
  healthy s ->
  NoDup (map node_id (nodes (graph s))) ->
  outcome (addObservations observations) s = Ok (reported observations (graph s)) /\
  graph_after (addObservations observations) s =
    mkGraph (map (after_additions observations) (nodes (graph s)))
            (rels (graph s)) (next_id (graph s)) /\
  (Forall (fun obs => entity_exists (graph s) (entityName obs) = false) observations ->
   outcome (addObservations observations) s = Ok [] /\
   graph_after (addObservations observations) s = graph s).
Proof.
  intros Hs Hnd.
  destruct (addObservations_healthy observations s Hs) as [Eg Eo].
  split; [exact Eo|]. split.
  - now rewrite Eg, addObservations_nodes.
  - intros Hall.
    assert (Hnone : forall obs, In obs observations ->
                                match_memory (entityName obs) (graph s) = []).
    { intros obs Hin. rewrite Forall_forall in Hall. specialize (Hall obs Hin).
      unfold entity_exists in Hall.
      now destruct (match_memory (entityName obs) (graph s)). }
    split.
    + rewrite Eo. unfold reported. f_equal. apply flat_map_nil.
      intros obs Hin. now rewrite (Hnone obs Hin).
    + rewrite Eg. unfold new_rows. rewrite flat_map_nil; [reflexivity|].
      intros obs Hin. now rewrite (Hnone obs Hin).
Qed.

(** Contents "x", "x", "y" for an entity holding "x": "y" is appended and
    reported. *)
Lemma addObservations_appends_difference_witness :
  outcome (addObservations [mkObservationAddition "A" ["x"; "x"; "y"]]) noted
  = Ok [mkAdded "A" ["y"]] /\
  map p_observations
      (nodes (graph_after (addObservations [mkObservationAddition "A" ["x"; "x"; "y"]]) noted))
  = [Some ["x"; "y"]].
Proof.
  destruct (addObservations_appends_difference
              [mkObservationAddition "A" ["x"; "x"; "y"]] noted)
    as [Ho [Hg _]].
  - reflexivity.
  - cbn. constructor; [intros [] | constructor].
  - rewrite Ho, Hg. split; reflexivity.
Defined.

End Additions.

Section DistinctObservations.

Import Neo4jMemory.

Lemma update_node_sound (id : nat) (f : Node -> Node) (g : Graph) :
  (forall n, node_id (f n) = node_id n) ->
  (forall n, In n (nodes g) -> NoDup (coalesce (p_observations n)) ->
             NoDup (coalesce (p_observations (f n)))) ->
  sound g -> sound (update_node id f g).
Proof.
  intros Hid Hobs [[Hnd Hlt] Hd]. unfold sound, well_formed, observations_distinct in *.
  unfold update_node. cbn [nodes next_id].
  assert (Hids : map node_id (map (fun n => if Nat.eqb (node_id n) id then f n else n) (nodes g))
                 = map node_id (nodes g)).
  { rewrite map_map. apply map_ext. intros n.
    destruct (Nat.eqb (node_id n) id); [apply Hid | reflexivity]. }
  rewrite Forall_forall in Hlt, Hd.
  repeat split.
  - now rewrite Hids.
  - apply Forall_forall. intros n' Hn'. apply in_map_iff in Hn'.
    destruct Hn' as [n [<- Hn]].
    destruct (Nat.eqb (node_id n) id); [rewrite Hid|]; now apply Hlt.
  - apply Forall_forall. intros n' Hn'. apply in_map_iff in Hn'.
    destruct Hn' as [n [<- Hn]].
    destruct (Nat.eqb (node_id n) id); [apply Hobs|]; auto.
Qed.

Lemma add_label_id (l : string) (n : Node) : node_id (add_label l n) = node_id n.
Proof. unfold add_label. now destruct (has_label l n). Qed.

Lemma add_label_observations (l : string) (n : Node) :
  p_observations (add_label l n) = p_observations n.
Proof. unfold add_label. now destruct (has_label l n). Qed.

Lemma merge_memory_sound (name : string) (g : Graph) :
  sound g -> sound (fst (merge_memory name g)).
Proof.
  intros Hg. unfold merge_memory.
  destruct (match_memory name g); [|exact Hg].
  destruct Hg as [[Hnd Hlt] Hd]. unfold sound, well_formed, observations_distinct in *.
  cbn [fst nodes next_id]. rewrite Forall_forall in Hlt.
  repeat split.
  - rewrite map_app. cbn [map node_id].
    apply NoDup_app; [exact Hnd | repeat constructor; intros [] | ].
    intros x Hx [<- | []]. apply in_map_iff in Hx. destruct Hx as [n [E Hn]].
    specialize (Hlt n Hn). lia.
  - apply Forall_app. split.
    + apply Forall_forall. intros n Hn. specialize (Hlt n Hn). lia.
    + repeat constructor.
  - apply Forall_app. split; [exact Hd|]. repeat constructor.
Qed.

Lemma merge_rows_sound (entities : list Entity) (g : Graph) :
  sound g ->
  sound (fst (merge_rows entities g)) /\
  Forall (fun row => In (snd row) entities) (snd (merge_rows entities g)).
Proof.
  revert g. induction entities as [|entity rest IH]; intros g Hg.
  - split; [exact Hg | constructor].
  - cbn [merge_rows].
    pose proof (merge_memory_sound (name entity) g Hg) as H1.
    destruct (merge_memory (name entity) g) as [g1 ids]. cbn [fst] in H1.
    destruct (IH g1 H1) as [H2 Hrows].
    destruct (merge_rows rest g1) as [g2 rows]. cbn [fst snd] in *.
    split; [exact H2|]. apply Forall_app. split.
    + apply Forall_forall. intros row Hrow. apply in_map_iff in Hrow.
      destruct Hrow as [e [<- _]]. now left.
    + eapply Forall_impl; [|exact Hrows]. intros row Hrow. now right.
Qed.

Lemma mem_In (x : string) (l : list string) : mem x l = true <-> In x l.
Proof.
  unfold mem. rewrite existsb_exists. split.
  - intros [y [Hy E]]. apply String.eqb_eq in E. now subst.
  - intros H. exists x. split; [exact H | apply String.eqb_refl].
Qed.

Lemma fold_remove_listed_sound (rows : list (nat * list string)) (g : Graph) :
  sound g -> sound (fold_left remove_listed rows g).
Proof.
  revert g. induction rows as [|[e listed] rows IH]; intros g Hg; [exact Hg|].
  cbn [fold_left]. apply IH. unfold remove_listed. apply update_node_sound; [| |exact Hg].
  - reflexivity.
  - intros n _ Hn. cbn. unfold not_in. now apply NoDup_filter.
Qed.

(** A round trip leaves the graph as it was or as its query left it. *)
Lemma run_graph {A} (tx : FulltextIndex -> Graph -> result (Graph * A)) (s : Store) :
  graph (fst (run tx s)) = graph s \/
  exists g' a, tx (index s) (graph s) = Ok (g', a) /\ graph (fst (run tx s)) = g'.
Proof.
  unfold run. destruct (faults s) as [|[|] fs]; cbn; auto;
    destruct (tx (index s) (graph s)) as [[g' a]|e] eqn:E; cbn; eauto.
Qed.

Lemma createEntities_tx_step (entities : list Entity) (ix : FulltextIndex) (g : Graph) :
  createEntities_tx (cook createEntities_query) entities ix g
  = Ok (create_entities entities g, tt).
Proof.
  unfold createEntities_tx, create_entities.
  change (quoted_identifier (cook createEntities_query)) with (Some query_label).
  now destruct (merge_rows entities g).
Qed.

Lemma rebuild_entities (entities : list Entity) :
  map (fun entity => mkEntity (name entity) (type entity) (observations entity)) entities
  = entities.
Proof.
  induction entities as [|[nm ty obs] l IH]; [reflexivity|].
  cbn. now rewrite IH.
Qed.

(** C2, as the spec has it, fails: contents that repeat a string the entity
    does not hold yet are appended as they are. *)
Lemma repeated_contents_are_stored :
  map p_observations
      (nodes (graph (calls [CreateEntities [mkEntity "A" "Thing" []];
                            AddObservations [mkObservationAddition "A" ["y"; "y"]]]
                           fresh)))
  = [Some ["y"; "y"]] /\
  ~ observations_distinct
      (graph (calls [CreateEntities [mkEntity "A" "Thing" []];
                     AddObservations [mkObservationAddition "A" ["y"; "y"]]]
                    fresh)).
Proof.
  split; [reflexivity|].
  intros H. unfold observations_distinct in H.
  apply Forall_inv in H. cbn in H.
  apply NoDup_cons_iff in H. destruct H as [H _]. apply H. now left.
Qed.

(** The two other ways a string gets stored twice: [createEntities] stores
    the observations it is given, and the pairs of one [addObservations]
    batch are all compared with the observations the query found. *)
Lemma repeated_observations_are_stored :
  map p_observations
      (nodes (graph_after (createEntities [mkEntity "A" "Thing" ["a"; "a"]]) fresh))
  = [Some ["a"; "a"]].
Proof. reflexivity. Qed.

Lemma repeated_names_append_twice :
  map p_observations
      (nodes (graph_after (addObservations [mkObservationAddition "A" ["y"];
                                            mkObservationAddition "A" ["y"]]) noted))
  = [Some ["x"; "y"; "y"]].
Proof. reflexivity. Qed.

End DistinctObservations.

(* ================================================================== *)
(** * The credential chain: properties *)
(* ================================================================== *)

Section CredentialChain.

Import Auth.

Lemma say_snd {A} (lines : list Line) (c : Console A) : snd (say lines c) = snd c.
Proof. reflexivity. Qed.

(** Providers that are passed by leave the outcome to the rest of the list. *)
Lemma try_providers_passed_by (pre rest : list AuthProvider) request :
  Forall (passes_by request) pre ->
  snd (try_providers (pre ++ rest) request) = snd (try_providers rest request).
Proof.
  induction 1 as [|q pre Hq _ IH]; [reflexivity|].
  cbn [app try_providers].
  destruct Hq as [Hno | [Hyes [e He]]].
  - rewrite Hno, say_snd. exact IH.
  - rewrite Hyes, He, say_snd. exact IH.
Qed.

(** The loop stops at a provider that authenticates the request: what the
    console shows and what is returned do not depend on the providers
    registered after it. *)
Lemma try_providers_stops (pre post : list AuthProvider) p request session :
  Forall (passes_by request) pre ->
  canHandle p request = true ->
  provider_authenticate p request = Ok session ->
  try_providers (pre ++ p :: post) request = try_providers (pre ++ [p]) request.
Proof.
  intros Hpre Hcan Hok.
  induction Hpre as [|q pre Hq _ IH].
  - cbn [app try_providers]. rewrite Hcan, Hok. reflexivity.
  - cbn [app try_providers].
    destruct (canHandle q request); [destruct (provider_authenticate q request)|];
      try reflexivity; unfold say; rewrite IH; reflexivity.
Qed.

Lemma providers_nonempty (pre post : list AuthProvider) p :
  Nat.eqb (List.length (pre ++ p :: post)) 0 = false.
Proof. rewrite length_app. cbn. apply Nat.eqb_neq. lia. Qed.

(** C4.  With no provider configured, [authenticate] returns, for every
    request, the anonymous session: type "oauth", userId "anonymous", scopes
    ["read", "write"]; it does not throw. *)
Theorem authenticate_without_providers (now : nat) (request : IncomingMessage) :
  exists session,
    snd (authenticate (mkAuthManager []) now request) = Ok session /\
    session = anonymous now /\
    type session = oauth /\
    userId session = Some "anonymous" /\
    scopes session = Some ["read"; "write"].
Proof.
  exists (anonymous now). repeat split.
Qed.

(** C3.  [authenticate] walks the providers in registration order.  Every
    provider before the first one that authenticates the request is passed
    by, whether it declined the request or claimed it and failed; the
    session of that first success is returned, and nothing registered after
    it is consulted: console and result are those of the chain cut off
    behind it. *)
Theorem authenticate_first_success
  (pre post : list AuthProvider) (p : AuthProvider)
  (now : nat) (request : IncomingMessage) (session : AuthSession) :
  Forall (passes_by request) pre ->
  canHandle p request = true ->
  provider_authenticate p request = Ok session ->
  snd (authenticate (mkAuthManager (pre ++ p :: post)) now request) = Ok session /\
  authenticate (mkAuthManager (pre ++ p :: post)) now request =
  authenticate (mkAuthManager (pre ++ [p])) now request.
Proof.
  intros Hpre Hcan Hok. unfold authenticate. cbn [providers].
  rewrite !providers_nonempty. split.
  - rewrite say_snd, (try_providers_passed_by pre (p :: post) request Hpre).
    cbn [try_providers]. rewrite Hcan, Hok. reflexivity.
  - rewrite (try_providers_stops pre post p request session Hpre Hcan Hok).
    reflexivity.
Qed.

(** With both providers configured, the OAuth provider first, that request
    is authenticated by the API-key provider. *)
Lemma authenticate_first_success_witness :
  snd (authenticate
         (mkAuthManager [OAuthProvider rejecting 7; ApiKeyProvider ["k1"; "k2"] 7])
         7 bad_bearer_good_key)
  = Ok (mkAuthSession "apikey" apikey None None None None None 7 None).
Proof.
  refine (proj1 (authenticate_first_success
                   [OAuthProvider rejecting 7] [] (ApiKeyProvider ["k1"; "k2"] 7)
                   7 bad_bearer_good_key _ _ _ _)).
  - constructor; [|constructor].
    right. split; [reflexivity|]. exists "invalid token". reflexivity.
  - reflexivity.
  - reflexivity.
Defined.

(** C10.  The constructor never throws: it returns a manager whatever the
    provider constructors do.  When the OAuth constructor throws, a warning
    is written and the providers are those of a manager configured without
    OAuth; when the API-key constructor throws, a warning is written and the
    providers are those of a manager configured without API keys.  When
    every provider that was configured throws, the list is empty, and every
    request is then authenticated as the anonymous session. *)
Theorem constructor_skips_failed_providers
  (newOAuthProvider : string -> option string -> result AuthProvider)
  (newApiKeyProvider : list string -> result AuthProvider)
  (descopeProjectId descopeManagementKey : option string)
  (apiKeys : option (list string)) :
  let made := constructor newOAuthProvider newApiKeyProvider
                descopeProjectId descopeManagementKey apiKeys in
  (forall projectId e,
     descopeProjectId = Some projectId -> projectId <> "" ->
     newOAuthProvider projectId descopeManagementKey = Throw e ->
     In (warn, ("[Auth] Failed to initialize OAuth provider: " ++ e)%string) (fst made) /\
     providers (snd made) =
     without_oauth newOAuthProvider newApiKeyProvider descopeManagementKey apiKeys) /\
  (forall keys e,
     apiKeys = Some keys -> keys <> [] ->
     newApiKeyProvider keys = Throw e ->
     In (warn, ("[Auth] Failed to initialize API Key provider: " ++ e)%string) (fst made) /\
     providers (snd made) =
     providers (snd (constructor newOAuthProvider newApiKeyProvider
                       descopeProjectId descopeManagementKey None))) /\
  ((forall projectId,
      descopeProjectId = Some projectId -> projectId <> "" ->
      exists e, newOAuthProvider projectId descopeManagementKey = Throw e) ->
   (forall keys,
      apiKeys = Some keys -> keys <> [] ->
      exists e, newApiKeyProvider keys = Throw e) ->
   providers (snd made) = [] /\
   forall now request,
     snd (authenticate (snd made) now request) = Ok (anonymous now)).
Proof.
  assert (Htruthy : forall projectId, projectId <> "" -> truthy (Some projectId) = true).
  { intros projectId Hid. cbn. now apply negb_true_iff, String.eqb_neq. }
  assert (Hlen : forall keys : list string, keys <> [] -> Nat.ltb 0 (List.length keys) = true).
  { intros [|k keys] Hkeys; [contradiction | reflexivity]. }
  cbv zeta. split; [|split].
  - intros projectId e -> Hid H1. unfold without_oauth, constructor.
    rewrite (Htruthy _ Hid), H1.
    destruct apiKeys as [ks|]; [destruct (Nat.ltb 0 (List.length ks));
      [destruct (newApiKeyProvider ks)|]|]; cbn; auto.
  - intros keys e -> Hkeys H2. unfold constructor.
    rewrite (Hlen _ Hkeys), H2.
    destruct descopeProjectId as [pid|];
      [destruct (truthy (Some pid)); [destruct (newOAuthProvider pid _)|]|];
      cbn; split; auto; apply in_or_app; right; left; reflexivity.
  - intros H1 H2.
    assert (E : providers (snd (constructor newOAuthProvider newApiKeyProvider
                                  descopeProjectId descopeManagementKey apiKeys)) = []).
    { unfold constructor.
      destruct descopeProjectId as [pid|].
      - destruct (truthy (Some pid)) eqn:Et.
        + assert (Hid : pid <> "").
          { cbn in Et. now apply String.eqb_neq, negb_true_iff. }
          destruct (H1 pid eq_refl Hid) as [e1 ->].
          destruct apiKeys as [ks|]; [|reflexivity].
          destruct ks as [|k ks]; [reflexivity|].
          destruct (H2 (k :: ks) eq_refl ltac:(discriminate)) as [e2 ->]. reflexivity.
        + destruct apiKeys as [ks|]; [|reflexivity].
          destruct ks as [|k ks]; [reflexivity|].
          destruct (H2 (k :: ks) eq_refl ltac:(discriminate)) as [e2 ->]. reflexivity.
      - destruct apiKeys as [ks|]; [|reflexivity].
        destruct ks as [|k ks]; [reflexivity|].
        destruct (H2 (k :: ks) eq_refl ltac:(discriminate)) as [e2 ->]. reflexivity. }
    split; [exact E|]. intros now request. unfold authenticate. now rewrite E.
Qed.

Lemma constructor_skips_failed_providers_witness :
  providers (snd (constructor broken_oauth broken_apikey
                    (Some "P2abc") (Some "K") (Some ["k1"]))) = [] /\
  snd (authenticate
         (snd (constructor broken_oauth broken_apikey
                 (Some "P2abc") (Some "K") (Some ["k1"])))
         3 bad_bearer_good_key) = Ok (anonymous 3).
Proof.
  destruct (constructor_skips_failed_providers broken_oauth broken_apikey
              (Some "P2abc") (Some "K") (Some ["k1"]))
    as [_ [_ Hall]].
  destruct Hall as [Hempty Hanon].
  - intros projectId _ _. now exists "Descope client: invalid project id".
  - intros keys _ _. now exists "no usable key".
  - split; [exact Hempty | exact (Hanon 3 bad_bearer_good_key)].
Defined.

End CredentialChain.


(* ================================================================== *)
(** * The type and label positions of the queries *)
(* ================================================================== *)

Section QueryIdentifiers.

Import Neo4jMemory.

Lemma merge_rel_rels (ty : string) (g : Graph) (row : nat * nat) :
  Forall (fun r => In r (rels g) \/ rel_type r = ty) (rels (merge_rel ty g row)).
Proof.
  destruct row as [from to]. unfold merge_rel.
  destruct (existsb _ _); cbn [rels]; apply Forall_forall; intros r Hr.
  - now left.
  - apply in_app_or in Hr. destruct Hr as [Hr | [<- | []]]; [now left | now right].
Qed.

Lemma fold_merge_rel_rels (ty : string) (rows : list (nat * nat)) (g : Graph) :
  Forall (fun r => In r (rels g) \/ rel_type r = ty) (rels (fold_left (merge_rel ty) rows g)).
Proof.
  revert g. induction rows as [|row rows IH]; intros g.
  - apply Forall_forall. intros r Hr. now left.
  - cbn [fold_left]. eapply Forall_impl; [|apply IH].
    intros r [Hr | Hr]; [|now right].
    pose proof (merge_rel_rels ty g row) as H. rewrite Forall_forall in H. now apply H.
Qed.

(** C1 at a failing input.  The query of [createRelations] carries its
    relationship type as the quoted identifier [${relationType}]: the
    template literal escapes the dollar sign, so nothing is substituted, and
    every relationship the method creates has that type, whatever
    [relationType] the relation holds.  After Alice-knows-Bob is created
    twice there is one relationship between them, of type [${relationType}];
    [readGraph] returns it under that type, and whatever the full-text index
    matches, the relation as it was passed in does not occur in the
    result. *)
Theorem createRelations_type_is_literal :
  quoted_identifier (cook createRelations_query) = Some "${relationType}" /\
  (forall relation ix g,
     exists g',
       createRelations_tx (cook createRelations_query)
         (source relation) (target relation) (relationType relation) ix g = Ok (g', tt) /\
       Forall (fun r => In r (rels g) \/ rel_type r = "${relationType}") (rels g')) /\
  rels (graph_after (createRelations [knows]) acquainted) = [mkRel 2 0 1 "${relationType}"] /\
  outcome readGraph (fst (createRelations [knows] acquainted)) =
    Ok (mkKnowledgeGraph
          [mkLoadedEntity "Alice" (Some "Person") ["likes tea"];
           mkLoadedEntity "Bob" (Some "Person") []]
          [mkRelation "Alice" "Bob" "${relationType}"]) /\
  (forall ix : FulltextIndex,
     exists kg,
       outcome readGraph
         (mkStore (graph_after (createRelations [knows]) acquainted) ix []) = Ok kg /\
       count_occ Relation_eq_dec (relations kg) knows = 0).
Proof.
  split; [reflexivity|]. split; [|split; [|split]].
  - intros relation ix g. exists (create_relation relation g).
    split; [apply createRelations_tx_step | apply fold_merge_rel_rels].
  - reflexivity.
  - vm_compute. reflexivity.
  - intros ix. unfold outcome, readGraph, loadGraph. rewrite try_finally_close.
    unfold bind, run. cbn [faults index graph tl].
    unfold loadGraph_tx, queryNodes.
    assert (E : graph_after (createRelations [knows]) acquainted =
                mkGraph
                  [mkNode 0 ["Memory"; "${entity.type}"] (Some "Alice") (Some "Person")
                     (Some ["likes tea"]);
                   mkNode 1 ["Memory"; "${entity.type}"] (Some "Bob") (Some "Person")
                     (Some [])]
                  [mkRel 2 0 1 "${relationType}"] 3) by reflexivity.
    rewrite E.
    cbn [nodes filter has_label labels mem existsb String.eqb Ascii.eqb Bool.eqb andb orb].
    destruct (ix "*" _), (ix "*" _); eexists;
      (split; [reflexivity | vm_compute; reflexivity]).
Qed.

Lemma labels_known_refl (g : Graph) : labels_known g g.
Proof.
  apply Forall_forall. intros n Hn l Hl. right. right. now exists n.
Qed.

Lemma merge_memory_labels (name : string) (g g' : Graph) :
  labels_known g g' -> labels_known g (fst (merge_memory name g')).
Proof.
  intros H. unfold merge_memory. destruct (match_memory name g'); [|exact H].
  cbn [fst]. unfold labels_known. cbn [nodes]. apply Forall_app. split; [exact H|].
  constructor; [|constructor]. intros l [<- | []]. now left.
Qed.

Lemma merge_rows_labels (entities : list Entity) (g g' : Graph) :
  labels_known g g' -> labels_known g (fst (merge_rows entities g')).
Proof.
  revert g'. induction entities as [|entity rest IH]; intros g' H; [exact H|].
  cbn [merge_rows].
  pose proof (merge_memory_labels (name entity) g g' H) as H1.
  destruct (merge_memory (name entity) g') as [g1 ids]. cbn [fst] in H1.
  specialize (IH g1 H1). now destruct (merge_rows rest g1).
Qed.

Lemma set_entity_labels (g g' : Graph) (row : nat * Entity) :
  labels_known g g' -> labels_known g (set_entity "${entity.type}" g' row).
Proof.
  intros H. destruct row as [e entity]. unfold set_entity, update_node, labels_known.
  cbn [nodes]. unfold labels_known in H. rewrite Forall_forall in H.
  apply Forall_forall. intros n' Hn'. apply in_map_iff in Hn'.
  destruct Hn' as [n [<- Hn]]. intros l Hl.
  destruct (Nat.eqb (node_id n) e); [|now apply (H n)].
  unfold add_label in Hl. destruct (has_label _ _); cbn [labels set_properties] in Hl.
  - now apply (H n).
  - apply in_app_or in Hl. destruct Hl as [Hl | [<- | []]]; [now apply (H n)|].
    right. now left.
Qed.

Lemma fold_set_entity_labels (rows : list (nat * Entity)) (g g' : Graph) :
  labels_known g g' -> labels_known g (fold_left (set_entity "${entity.type}") rows g').
Proof.
  revert g'. induction rows as [|row rows IH]; intros g' H; [exact H|].
  cbn [fold_left]. apply IH. now apply set_entity_labels.
Qed.

(** C5 at a failing input.  The query of [createEntities] carries the
    secondary label as the quoted identifier [${entity.type}]: the template
    literal escapes the dollar sign, so nothing is substituted.  The only
    labels the method ever puts on a node are [Memory] and [${entity.type}];
    Alice and Bob, created with type "Person", carry these two and no label
    "Person". *)
Theorem createEntities_label_is_literal :
  quoted_identifier (cook createEntities_query) = Some "${entity.type}" /\
  (forall entities ix g,
     exists g',
       createEntities_tx (cook createEntities_query) entities ix g = Ok (g', tt) /\
       labels_known g g') /\
  outcome (createEntities [alice; bob]) fresh = Ok [alice; bob] /\
  nodes (graph people) =
    [mkNode 0 ["Memory"; "${entity.type}"] (Some "Alice") (Some "Person") (Some ["likes tea"]);
     mkNode 1 ["Memory"; "${entity.type}"] (Some "Bob") (Some "Person") (Some [])] /\
  existsb (has_label "Person") (nodes (graph people)) = false.
Proof.
  split; [reflexivity|]. split.
  - intros entities ix g. exists (create_entities entities g).
    split; [apply createEntities_tx_step|]. unfold create_entities.
    apply fold_set_entity_labels, merge_rows_labels, labels_known_refl.
  - repeat split; vm_compute; reflexivity.
Qed.

End QueryIdentifiers.

(* ================================================================== *)
(** * Entities are upserted *)
(* ================================================================== *)

Section Upsert.

Import Neo4jMemory.

Lemma createEntities_healthy (entities : list Entity) (s : Store) :
  healthy s ->
  createEntities entities s =
    (mkStore (create_entities entities (graph s)) (index s) (tl (faults s)), Ok entities) /\
  healthy (mkStore (create_entities entities (graph s)) (index s) (tl (faults s))).
Proof.
  intros Hs. unfold createEntities. rewrite try_finally_close, rebuild_entities.
  unfold bind.
  destruct (run_healthy (createEntities_tx (cook createEntities_query) entities) s
              _ tt Hs (createEntities_tx_step _ _ _)) as [E Hs'].
  rewrite E. split; [reflexivity | exact Hs'].
Qed.

Lemma match_memory_app (name : string) (ns ms : list Node) (r : list Rel) (k k' : nat) :
  match_memory name (mkGraph (ns ++ ms) r k) =
  match_memory name (mkGraph ns r k') ++ match_memory name (mkGraph ms r k').
Proof. unfold match_memory. cbn [nodes]. apply filter_app. Qed.

(** A name that is there stays bound to the same nodes while further
    names are merged. *)
Lemma merge_memory_keeps (name other : string) (g : Graph) :
  match_memory name g <> [] ->
  match_memory name (fst (merge_memory other g)) = match_memory name g.
Proof.
  intros Hex. unfold merge_memory.
  destruct (match_memory other g) eqn:Eo; [|reflexivity].
  cbn [fst]. unfold match_memory at 1. cbn [nodes]. rewrite filter_app.
  cbn [filter has_label labels mem existsb p_name].
  destruct (option_string_eqb (Some other) (Some name)) eqn:E.
  - apply option_string_eqb_eq in E. injection E as ->. contradiction.
  - cbn. apply app_nil_r.
Qed.

Lemma merge_rows_keeps (name : string) (entities : list Entity) (g : Graph) :
  match_memory name g <> [] ->
  match_memory name (fst (merge_rows entities g)) = match_memory name g.
Proof.
  revert g. induction entities as [|entity rest IH]; intros g Hex; [reflexivity|].
  cbn [merge_rows].
  pose proof (merge_memory_keeps name (Types.name entity) g Hex) as H1.
  destruct (merge_memory (Types.name entity) g) as [g1 ids]. cbn [fst] in H1.
  assert (Hex1 : match_memory name g1 <> []) by now rewrite H1.
  specialize (IH g1 Hex1). destruct (merge_rows rest g1) as [g2 rows].
  cbn [fst] in *. now rewrite IH.
Qed.

(** What [MERGE] binds for a name is what the name matches afterwards. *)
Lemma merge_memory_binds (name : string) (g : Graph) :
  snd (merge_memory name g) = map node_id (match_memory name (fst (merge_memory name g))) /\
  match_memory name (fst (merge_memory name g)) <> [].
Proof.
  unfold merge_memory. destruct (match_memory name g) eqn:E.
  - cbn [fst snd]. unfold match_memory in *. cbn [nodes]. rewrite filter_app, E.
    cbn. rewrite String.eqb_refl. cbn. split; [reflexivity | discriminate].
  - cbn [fst snd]. rewrite E. split; [reflexivity | discriminate].
Qed.

Lemma merge_rows_binds (entities : list Entity) (g : Graph) :
  snd (merge_rows entities g) = rows_in entities (fst (merge_rows entities g)) /\
  Forall (fun entity => match_memory (name entity) (fst (merge_rows entities g)) <> [])
         entities.
Proof.
  revert g. induction entities as [|entity rest IH]; intros g.
  - split; [reflexivity | constructor].
  - cbn [merge_rows].
    destruct (merge_memory_binds (name entity) g) as [Hids Hex].
    destruct (merge_memory (name entity) g) as [g1 ids]. cbn [fst snd] in Hids, Hex.
    pose proof (merge_rows_keeps (name entity) rest g1 Hex) as Hkeep.
    destruct (IH g1) as [Hrows Hall].
    destruct (merge_rows rest g1) as [g2 rows]. cbn [fst snd] in *.
    split.
    + unfold rows_in. cbn [flat_map]. fold (rows_in rest g2).
      rewrite <- Hrows, Hkeep, Hids, map_map. reflexivity.
    + constructor; [now rewrite Hkeep | exact Hall].
Qed.

(** With every name there, [MERGE] creates nothing. *)
Lemma merge_rows_present (entities : list Entity) (g : Graph) :
  Forall (fun entity => match_memory (name entity) g <> []) entities ->
  merge_rows entities g = (g, rows_in entities g).
Proof.
  induction 1 as [|entity rest Hex _ IH]; [reflexivity|].
  cbn [merge_rows]. unfold merge_memory.
  destruct (match_memory (name entity) g) as [|m ms] eqn:E; [contradiction|].
  rewrite IH. unfold rows_in. cbn [flat_map]. rewrite E, map_map. reflexivity.
Qed.

Lemma write_entity_id (entity : Entity) (n : Node) :
  node_id (write_entity entity n) = node_id n.
Proof. unfold write_entity. now rewrite add_label_id. Qed.

(** The last write wins, and writing twice is writing once. *)
Lemma write_entity_absorbs (entity : Entity) (acc : option Entity) (n : Node) :
  write_entity entity (written acc n) = write_entity entity n.
Proof.
  destruct acc as [first|]; [|reflexivity].
  unfold written, write_entity, add_label, has_label, set_properties.
  cbn [labels node_id p_name p_type p_observations].
  destruct (mem query_label (labels n)) eqn:E; cbn [labels]; rewrite ?E; [reflexivity|].
  assert (H : mem query_label (labels n ++ [query_label]) = true).
  { unfold mem. rewrite existsb_app. cbn. now rewrite orb_true_r. }
  cbn [labels node_id p_name p_type p_observations]. now rewrite H.
Qed.

Lemma written_id (acc : option Entity) (n : Node) : node_id (written acc n) = node_id n.
Proof. destruct acc; [apply write_entity_id | reflexivity]. Qed.

Lemma written_twice (acc : option Entity) (n : Node) :
  written acc (written acc n) = written acc n.
Proof. destruct acc as [e|]; [apply (write_entity_absorbs e (Some e)) | reflexivity]. Qed.

(** All rows of the [SET] clause, seen from one node. *)
Lemma fold_set_entity_nodes (rows : list (nat * Entity)) (g : Graph) :
  fold_left (set_entity query_label) rows g =
  mkGraph (map (fun n => written (last_entity rows (node_id n) None) n) (nodes g))
          (rels g) (next_id g).
Proof.
  assert (H : forall rows g (acc : nat -> option Entity),
             fold_left (set_entity query_label) rows
               (mkGraph (map (fun n => written (acc (node_id n)) n) (nodes g))
                        (rels g) (next_id g)) =
             mkGraph (map (fun n => written (last_entity rows (node_id n) (acc (node_id n))) n)
                          (nodes g))
                     (rels g) (next_id g)).
  { clear. induction rows as [|[e entity] rows IH]; intros g acc; [reflexivity|].
    cbn [fold_left]. unfold set_entity at 2, update_node. cbn [nodes rels next_id].
    rewrite map_map.
    rewrite (map_ext _ (fun n => written
                           ((fun id => if Nat.eqb id e then Some entity else acc id)
                              (node_id n)) n)).
    - rewrite (IH g (fun id => if Nat.eqb id e then Some entity else acc id)).
      reflexivity.
    - intros n. rewrite written_id.
      destruct (Nat.eqb (node_id n) e); [|reflexivity].
      apply write_entity_absorbs. }
  specialize (H rows g (fun _ => None)). cbn [written] in H.
  rewrite map_id in H. destruct g. exact H.
Qed.

Lemma rows_in_names (entities : list Entity) (g : Graph) (n : Node) :
  NoDup (map node_id (nodes g)) ->
  In n (nodes g) ->
  forall acc entity,
    (forall e, acc = Some e -> p_name n = Some (name e)) ->
    last_entity (rows_in entities g) (node_id n) acc = Some entity ->
    p_name n = Some (name entity).
Proof.
  intros Hnd Hin. unfold rows_in, last_entity.
  induction entities as [|e rest IH]; intros acc entity Hacc Hlast.
  - cbn in Hlast. now apply Hacc.
  - cbn [flat_map] in Hlast. rewrite fold_left_app in Hlast.
    refine (IH _ entity _ Hlast). clear IH Hlast.
    assert (Hms : forall m, In m (match_memory (name e) g) -> p_name m = Some (name e) /\ In m (nodes g)).
    { intros m Hm. apply match_memory_In in Hm. tauto. }
    revert acc Hacc.
    induction (match_memory (name e) g) as [|m ms IHm]; intros acc Hacc e' He'.
    + cbn in He'. now apply Hacc.
    + cbn [map fold_left fst snd] in He'.
      refine (IHm _ _ _ e' He').
      * intros m' Hm'. apply Hms. now right.
      * intros e0 He0.
        destruct (Nat.eqb (node_id n) (node_id m)) eqn:E; [|now apply Hacc].
        injection He0 as <-. apply Nat.eqb_eq in E.
        destruct (Hms m (or_introl eq_refl)) as [Hname Hm].
        assert (n = m) as ->; [|exact Hname].
        clear - Hnd Hin Hm E. induction (nodes g) as [|a l IHl]; [contradiction|].
        cbn [map] in Hnd. apply NoDup_cons_iff in Hnd. destruct Hnd as [Ha Hnd].
        destruct Hin as [-> | Hin], Hm as [-> | Hm]; auto.
        -- exfalso. apply Ha. rewrite E. now apply in_map.
        -- exfalso. apply Ha. rewrite <- E. now apply in_map.
Qed.

(** A written node keeps its [Memory] label and, written under its own
    name, its name. *)
Lemma written_matches (name : string) (entity : option Entity) (n : Node) :
  (forall e, entity = Some e -> p_name n = Some (Types.name e)) ->
  (has_label "Memory" (written entity n) && option_string_eqb (p_name (written entity n)) (Some name))%bool
  = (has_label "Memory" n && option_string_eqb (p_name n) (Some name))%bool.
Proof.
  intros H. destruct entity as [e|]; [|reflexivity].
  rewrite (H e eq_refl). unfold written, write_entity, add_label, has_label, set_properties.
  destruct (mem query_label (labels n)) eqn:E;
    cbn [labels p_name node_id p_type p_observations]; rewrite ?E;
    cbn [labels p_name]; [reflexivity|].
  f_equal. unfold mem. rewrite existsb_app. cbn. now rewrite orb_false_r.
Qed.

Lemma filter_map_commute {X} (f : X -> X) (p : X -> bool) (l : list X) :
  (forall x, In x l -> p (f x) = p x) ->
  filter p (map f l) = map f (filter p l).
Proof.
  induction l as [|x l IH]; intros H; [reflexivity|].
  cbn [map filter]. rewrite (H x (or_introl eq_refl)).
  rewrite IH; [now destruct (p x)|]. intros y Hy. apply H. now right.
Qed.

(** The [SET] clause leaves every name bound to the same identities. *)
Lemma rows_in_after_set (entities : list Entity) (g : Graph) :
  NoDup (map node_id (nodes g)) ->
  forall es,
    rows_in es (fold_left (set_entity query_label) (rows_in entities g) g) = rows_in es g.
Proof.
  intros Hnd es. rewrite fold_set_entity_nodes. unfold rows_in.
  apply flat_map_ext. intros entity. unfold match_memory. cbn [nodes].
  rewrite filter_map_commute.
  - rewrite map_map. apply map_ext. intros n. now rewrite written_id.
  - intros n Hn. apply written_matches. intros e He.
    apply (rows_in_names entities g n Hnd Hn None e); [discriminate | exact He].
Qed.

Lemma match_memory_after_set (entities : list Entity) (g : Graph) (name : string) :
  NoDup (map node_id (nodes g)) ->
  match_memory name g <> [] ->
  match_memory name (fold_left (set_entity query_label) (rows_in entities g) g) <> [].
Proof.
  intros Hnd Hex. rewrite fold_set_entity_nodes. unfold match_memory in *. cbn [nodes].
  rewrite filter_map_commute.
  - destruct (filter _ (nodes g)); [contradiction | discriminate].
  - intros n Hn. apply written_matches. intros e He.
    apply (rows_in_names entities g n Hnd Hn None e); [discriminate | exact He].
Qed.

Lemma merge_memory_well_formed (name : string) (g : Graph) :
  well_formed g -> well_formed (fst (merge_memory name g)).
Proof.
  intros [Hnd Hlt]. unfold merge_memory.
  destruct (match_memory name g); [|now split].
  unfold well_formed. cbn [fst nodes next_id]. rewrite Forall_forall in Hlt. split.
  - rewrite map_app. cbn [map node_id].
    apply NoDup_app; [exact Hnd | repeat constructor; intros [] | ].
    intros x Hx [<- | []]. apply in_map_iff in Hx. destruct Hx as [n [E Hn]].
    specialize (Hlt n Hn). lia.
  - apply Forall_app. split.
    + apply Forall_forall. intros n Hn. specialize (Hlt n Hn). lia.
    + repeat constructor.
Qed.

Lemma merge_rows_well_formed (entities : list Entity) (g : Graph) :
  well_formed g -> well_formed (fst (merge_rows entities g)).
Proof.
  revert g. induction entities as [|entity rest IH]; intros g Hg; [exact Hg|].
  cbn [merge_rows].
  pose proof (merge_memory_well_formed (name entity) g Hg) as H1.
  destruct (merge_memory (name entity) g) as [g1 ids]. cbn [fst] in H1.
  specialize (IH g1 H1). now destruct (merge_rows rest g1).
Qed.

(** Running the query on its own result changes nothing. *)
Lemma create_entities_twice (entities : list Entity) (g : Graph) :
  well_formed g ->
  create_entities entities (create_entities entities g) = create_entities entities g.
Proof.
  intros Hg.
  destruct (merge_rows_binds entities g) as [Hrows Hall].
  pose proof (merge_rows_well_formed entities g Hg) as [Hnd _].
  assert (E : create_entities entities g =
              fold_left (set_entity query_label)
                (rows_in entities (fst (merge_rows entities g)))
                (fst (merge_rows entities g))).
  { unfold create_entities. now rewrite Hrows. }
  rewrite E. clear E Hrows. revert Hall Hnd.
  generalize (fst (merge_rows entities g)).
  intros g1 Hall Hnd. unfold create_entities.
  rewrite merge_rows_present.
  - cbn [fst snd]. rewrite rows_in_after_set by exact Hnd.
    rewrite !fold_set_entity_nodes. cbn [nodes rels next_id]. f_equal.
    rewrite map_map. apply map_ext. intros n.
    rewrite written_id. apply written_twice.
  - eapply Forall_impl; [|exact Hall]. intros entity Hex.
    now apply match_memory_after_set.
Qed.

(** X1.  [createEntities] returns the list it was given, and calling it a
    second time with the same list leaves the graph the first call left
    (nodes are merged by name, fields are overwritten).  For every list of
    entities, on a store whose round trips succeed. *)
Theorem createEntities_idempotent (entities : list Entity) (s : Store) :
  healthy s ->
  well_formed (graph s) ->
  outcome (createEntities entities) s = Ok entities /\
  outcome (createEntities entities) (fst (createEntities entities s)) = Ok entities /\
  graph_after (createEntities entities) (fst (createEntities entities s)) =
  graph_after (createEntities entities) s.
Proof.
  intros Hs Hg. unfold outcome, graph_after.
  destruct (createEntities_healthy entities s Hs) as [E Hs'].
  rewrite E. cbn [fst snd].
  destruct (createEntities_healthy entities _ Hs') as [E' _].
  rewrite E'. cbn [fst snd graph]. repeat split.
  now apply create_entities_twice.
Qed.

Lemma createEntities_idempotent_witness :
  outcome (createEntities [alice; bob]) fresh = Ok [alice; bob] /\
  outcome (createEntities [alice; bob]) people = Ok [alice; bob] /\
  graph_after (createEntities [alice; bob]) people = graph people.
Proof.
  apply (createEntities_idempotent [alice; bob] fresh).
  - reflexivity.
  - split; constructor.
Defined.

End Upsert.

(* ================================================================== *)
(** * Relations are merged *)
(* ================================================================== *)

Section MergedRelations.

Import Neo4jMemory.

Lemma merge_rel_grows (ty : string) (g : Graph) (row : nat * nat) (p : Rel -> bool) :
  existsb p (rels g) = true -> existsb p (rels (merge_rel ty g row)) = true.
Proof.
  intros H. destruct row as [from to]. unfold merge_rel.
  destruct (existsb (rel_matches from to ty) (rels g)); [exact H|].
  cbn [rels]. rewrite existsb_app, H. reflexivity.
Qed.

Lemma fold_merge_rel_grows (ty : string) (rows : list (nat * nat)) (g : Graph) (p : Rel -> bool) :
  existsb p (rels g) = true -> existsb p (rels (fold_left (merge_rel ty) rows g)) = true.
Proof.
  revert g. induction rows as [|row rows IH]; intros g H; [exact H|].
  cbn [fold_left]. now apply IH, merge_rel_grows.
Qed.

Lemma merge_rel_there (ty : string) (g : Graph) (from to : nat) :
  existsb (rel_matches from to ty) (rels (merge_rel ty g (from, to))) = true.
Proof.
  unfold merge_rel. destruct (existsb _ (rels g)) eqn:E; [exact E|].
  cbn [rels]. rewrite existsb_app. cbn [existsb]. unfold rel_matches at 2.
  cbn [startNode endNode rel_type]. rewrite !Nat.eqb_refl, String.eqb_refl.
  cbn. now rewrite orb_true_r.
Qed.

Lemma fold_merge_rel_covers (ty : string) (rows : list (nat * nat)) (g : Graph) :
  covered ty rows (fold_left (merge_rel ty) rows g).
Proof.
  revert g. induction rows as [|[from to] rows IH]; intros g; [constructor|].
  cbn [fold_left]. constructor; [|apply IH].
  apply fold_merge_rel_grows. cbn [fst snd]. apply merge_rel_there.
Qed.

Lemma fold_merge_rel_covered (ty : string) (rows : list (nat * nat)) (g : Graph) :
  covered ty rows g -> fold_left (merge_rel ty) rows g = g.
Proof.
  induction 1 as [|[from to] rows Hrow _ IH]; [reflexivity|].
  cbn [fold_left]. unfold merge_rel at 2. cbn [fst snd] in Hrow. now rewrite Hrow.
Qed.

Lemma relation_present_grows (relation other : Relation) (g : Graph) :
  relation_present g relation -> relation_present (create_relation other g) relation.
Proof.
  unfold relation_present, covered.
  rewrite !(match_memory_nodes _ (create_relation other g) g (create_relation_nodes other g)).
  intros H. eapply Forall_impl; [|exact H].
  intros row Hrow. now apply fold_merge_rel_grows.
Qed.

Lemma create_relation_present (relation : Relation) (g : Graph) :
  relation_present (create_relation relation g) relation.
Proof.
  unfold relation_present.
  rewrite !(match_memory_nodes _ (create_relation relation g) g
              (create_relation_nodes relation g)).
  apply fold_merge_rel_covers.
Qed.

Lemma steps_present_grows (relation : Relation) (relations : list Relation) (g : Graph) :
  relation_present g relation ->
  relation_present (steps create_relation relations g) relation.
Proof.
  revert g. induction relations as [|r rs IH]; intros g H; [exact H|].
  unfold steps in *. cbn [fold_left]. now apply IH, relation_present_grows.
Qed.

Lemma steps_present (relations : list Relation) (g : Graph) :
  Forall (relation_present (steps create_relation relations g)) relations.
Proof.
  revert g. induction relations as [|r rs IH]; intros g; [constructor|].
  constructor.
  - unfold steps. cbn [fold_left].
    apply (steps_present_grows r rs), create_relation_present.
  - apply (IH (create_relation r g)).
Qed.

Lemma steps_all_present (relations : list Relation) (g : Graph) :
  Forall (relation_present g) relations -> steps create_relation relations g = g.
Proof.
  induction 1 as [|r rs Hr _ IH]; [reflexivity|].
  unfold steps in *. cbn [fold_left]. unfold create_relation at 2.
  now rewrite (fold_merge_rel_covered _ _ _ Hr).
Qed.

Lemma merge_rel_unique (ty : string) (g : Graph) (row : nat * nat) :
  unique_triples g -> unique_triples (merge_rel ty g row).
Proof.
  intros H. destruct row as [from to]. unfold merge_rel.
  destruct (existsb (rel_matches from to ty) (rels g)) eqn:E; [exact H|].
  unfold unique_triples in *. cbn [rels]. rewrite map_app. cbn [map startNode endNode rel_type].
  apply NoDup_app; [exact H | repeat constructor; intros [] | ].
  intros t Ht [<- | []]. apply in_map_iff in Ht. destruct Ht as [r [Er Hr]].
  assert (Hex : existsb (rel_matches from to ty) (rels g) = true); [|congruence].
  apply existsb_exists. exists r. split; [exact Hr|].
  injection Er as E1 E2 E3. unfold rel_matches.
  now rewrite E1, E2, E3, !Nat.eqb_refl, String.eqb_refl.
Qed.

Lemma steps_unique (relations : list Relation) (g : Graph) :
  unique_triples g -> unique_triples (steps create_relation relations g).
Proof.
  revert g. induction relations as [|r rs IH]; intros g H; [exact H|].
  unfold steps in *. cbn [fold_left]. apply IH. unfold create_relation.
  generalize (pairs (match_memory (source r) g) (match_memory (target r) g)).
  intros rows. revert g H. induction rows as [|row rows IHr]; intros g H; [exact H|].
  cbn [fold_left]. now apply IHr, merge_rel_unique.
Qed.

Lemma createRelations_stays_healthy (relations : list Relation) (s : Store) :
  healthy s -> healthy (fst (createRelations relations s)).
Proof.
  intros Hs. unfold createRelations. rewrite try_finally_close. unfold bind.
  destruct (for_of_healthy _ create_relation create_tx createRelations_tx_step relations s Hs)
    as [fs [E Hfs]].
  unfold create_tx in E. rewrite E. exact Hfs.
Qed.

(** X2.  [createRelations] merges: on a store whose round trips succeed,
    calling it a second time with the same batch leaves the graph the first
    call left, and a graph in which no two relationships agree in start
    node, end node and type stays such a graph. *)
Theorem createRelations_idempotent (relations : list Relation) (s : Store) :
  healthy s ->
  graph_after (createRelations relations) (fst (createRelations relations s)) =
  graph_after (createRelations relations) s /\
  (unique_triples (graph s) ->
   unique_triples (graph_after (createRelations relations) s)).
Proof.
  intros Hs.
  destruct (createRelations_healthy relations _ (createRelations_stays_healthy relations s Hs))
    as [E' _].
  rewrite E'. fold (graph_after (createRelations relations) s).
  destruct (createRelations_healthy relations s Hs) as [E _]. rewrite E.
  split.
  - apply steps_all_present, steps_present.
  - apply steps_unique.
Qed.

Lemma createRelations_idempotent_witness :
  graph_after (createRelations [knows; admires])
    (fst (createRelations [knows; admires] people)) =
  graph_after (createRelations [knows; admires]) people.
Proof.
  apply (createRelations_idempotent [knows; admires] people). reflexivity.
Defined.

Lemma NoDup_flat_map {X Y} (f : X -> list Y) (l : list X) :
  NoDup l ->
  (forall x, NoDup (f x)) ->
  (forall x x' y, In y (f x) -> In y (f x') -> x = x') ->
  NoDup (flat_map f l).
Proof.
  intros Hl Hf Hinj. induction Hl as [|x l Hx _ IH]; [constructor|].
  cbn [flat_map]. apply NoDup_app; [apply Hf | exact IH | ].
  intros y Hy Hy'. apply in_flat_map in Hy'. destruct Hy' as [x' [Hx' Hy']].
  assert (x = x') by (eapply Hinj; eassumption). now subst.
Qed.

(** What [loadGraph] keeps of one collected relation map. *)
Lemma loaded_relation_inv (rel : RelMap) (y : Relation) :
  In y (loaded_relations [rel]) ->
  rel = (Some (source y), Some (target y), Some (relationType y)).
Proof.
  destruct rel as [[[s|] [t|]] [r|]]; cbn; try contradiction.
  destruct (negb (String.eqb s "") && negb (String.eqb t "") && negb (String.eqb r ""))%bool;
    cbn; [|contradiction].
  now intros [<- | []].
Qed.

Lemma loaded_relation_single (rel : RelMap) : NoDup (loaded_relations [rel]).
Proof.
  destruct rel as [[[s|] [t|]] [r|]]; cbn; try constructor.
  destruct (negb (String.eqb s "") && negb (String.eqb t "") && negb (String.eqb r ""))%bool;
    cbn; repeat constructor; intros [].
Qed.

Lemma loaded_relations_flat (rels : list RelMap) :
  loaded_relations rels = flat_map (fun rel => loaded_relations [rel]) rels.
Proof.
  unfold loaded_relations. apply flat_map_ext. intros rel.
  cbn [flat_map]. now rewrite app_nil_r.
Qed.

Lemma loaded_relations_distinct (rels : list RelMap) :
  NoDup rels -> NoDup (loaded_relations rels).
Proof.
  intros H. rewrite loaded_relations_flat.
  apply NoDup_flat_map; [exact H | apply loaded_relation_single | ].
  intros x x' y Hx Hx'.
  now rewrite (loaded_relation_inv x y Hx), (loaded_relation_inv x' y Hx').
Qed.

(** X3.  Whatever the filter and the store, a graph returned by [loadGraph]
    (so by [readGraph], [searchNodes] and [findNodes]) lists no relation
    twice. *)
Theorem loadGraph_relations_distinct (filterQuery : string) (s : Store) :
  match outcome (loadGraph filterQuery) s with
  | Ok kg => NoDup (relations kg)
  | Throw _ => True
  end.
Proof.
  unfold outcome, loadGraph. rewrite try_finally_close. unfold bind, run.
  destruct (faults s) as [|[|] fs]; cbn; try exact I;
    apply loaded_relations_distinct, NoDup_nodup.
Qed.

End MergedRelations.

(* ================================================================== *)
(** * Node identities stay unique *)
(* ================================================================== *)

Section WellFormed.

Import Neo4jMemory.

(** What holds of the graph before a round trip and is kept by its query
    holds after it, whether or not the round trip fails. *)
Lemma run_keeps {A} (P : Graph -> Prop)
  (tx : FulltextIndex -> Graph -> result (Graph * A)) (s : Store) :
  (forall ix g g' a, P g -> tx ix g = Ok (g', a) -> P g') ->
  P (graph s) -> P (graph (fst (run tx s))).
Proof.
  intros Htx Hs. destruct (run_graph tx s) as [E | [g' [a [E1 E2]]]]; rewrite ?E, ?E2.
  - exact Hs.
  - exact (Htx _ _ _ _ Hs E1).
Qed.

Lemma for_of_keeps {X} (P : Graph -> Prop)
  (tx : X -> FulltextIndex -> Graph -> result (Graph * unit)) (xs : list X) (s : Store) :
  (forall x ix g g' a, P g -> tx x ix g = Ok (g', a) -> P g') ->
  P (graph s) -> P (graph (fst (for_of xs (fun x => run (tx x)) s))).
Proof.
  intros Htx. revert s. induction xs as [|x xs IH]; intros s Hs; [exact Hs|].
  cbn [for_of]. unfold bind.
  pose proof (run_keeps P (tx x) s (Htx x) Hs) as H1.
  destruct (run (tx x) s) as [s1 [[]|e]]; cbn [fst] in *; [now apply IH | exact H1].
Qed.

Lemma merge_rel_well_formed (ty : string) (g : Graph) (row : nat * nat) :
  well_formed g -> well_formed (merge_rel ty g row).
Proof.
  intros [Hnd Hlt]. destruct row as [from to]. unfold merge_rel.
  destruct (existsb _ _); [now split|].
  split; cbn [nodes next_id]; [exact Hnd|].
  eapply Forall_impl; [|exact Hlt]. cbn. intros n Hn. lia.
Qed.

Lemma fold_well_formed {X} (f : Graph -> X -> Graph) (rows : list X) (g : Graph) :
  (forall g row, well_formed g -> well_formed (f g row)) ->
  well_formed g -> well_formed (fold_left f rows g).
Proof.
  intros Hf. revert g. induction rows as [|row rows IH]; intros g Hg; [exact Hg|].
  cbn [fold_left]. now apply IH, Hf.
Qed.

Lemma delete_rel_well_formed (ty : string) (g : Graph) (row : nat * nat) :
  well_formed g -> well_formed (delete_rel ty g row).
Proof. intros Hg. now destruct row. Qed.

Lemma NoDup_map_filter {X Y} (f : X -> Y) (p : X -> bool) (l : list X) :
  NoDup (map f l) -> NoDup (map f (filter p l)).
Proof.
  induction l as [|x l IH]; intros H; [constructor|].
  cbn [map] in H. apply NoDup_cons_iff in H. destruct H as [Hx H].
  cbn [filter]. destruct (p x); [|now apply IH].
  cbn [map]. constructor; [|now apply IH].
  intros Hin. apply Hx. apply in_map_iff in Hin. destruct Hin as [y [E Hy]].
  apply filter_In in Hy. rewrite <- E. apply in_map. tauto.
Qed.

Lemma detach_delete_well_formed (g : Graph) (id : nat) :
  well_formed g -> well_formed (detach_delete g id).
Proof.
  intros [Hnd Hlt]. split; cbn [detach_delete nodes next_id].
  - now apply NoDup_map_filter.
  - rewrite Forall_forall in *. intros n Hn. apply filter_In in Hn. now apply Hlt.
Qed.

Lemma update_node_well_formed (id : nat) (f : Node -> Node) (g : Graph) :
  (forall n, node_id (f n) = node_id n) ->
  well_formed g -> well_formed (update_node id f g).
Proof.
  intros Hid [Hnd Hlt]. unfold well_formed, update_node. cbn [nodes next_id].
  assert (Hids : map node_id (map (fun n => if Nat.eqb (node_id n) id then f n else n) (nodes g))
                 = map node_id (nodes g)).
  { rewrite map_map. apply map_ext. intros n.
    destruct (Nat.eqb (node_id n) id); [apply Hid | reflexivity]. }
  rewrite Forall_forall in Hlt. split.
  - now rewrite Hids.
  - apply Forall_forall. intros n' Hn'. apply in_map_iff in Hn'.
    destruct Hn' as [n [<- Hn]].
    destruct (Nat.eqb (node_id n) id); [rewrite Hid|]; now apply Hlt.
Qed.

Lemma create_entities_well_formed (entities : list Entity) (g : Graph) :
  well_formed g -> well_formed (create_entities entities g).
Proof.
  intros Hg. unfold create_entities. apply fold_well_formed.
  - intros g' [e entity] Hg'. unfold set_entity. apply update_node_well_formed; [|exact Hg'].
    intros n. now rewrite add_label_id.
  - now apply merge_rows_well_formed.
Qed.

(** X4.  Every write method of the class keeps node identities unique and below
    the next identity, whichever of its round trips fail: the graphs the
    class builds from an empty database are all well formed. *)
Theorem writes_keep_well_formed (s : Store) :
  well_formed (graph s) ->
  (forall entities, well_formed (graph_after (createEntities entities) s)) /\
  (forall relations, well_formed (graph_after (createRelations relations) s)) /\
  (forall observations, well_formed (graph_after (addObservations observations) s)) /\
  (forall entityNames, well_formed (graph_after (deleteEntities entityNames) s)) /\
  (forall deletions, well_formed (graph_after (deleteObservations deletions) s)) /\
  (forall relations, well_formed (graph_after (deleteRelations relations) s)).
Proof.
  intros Hs. unfold graph_after. repeat apply conj.
  - intros entities. unfold createEntities. rewrite try_finally_close. unfold bind.
    pose proof (run_keeps well_formed
                  (createEntities_tx (cook createEntities_query)
                     (map (fun entity => mkEntity (name entity) (type entity)
                                             (observations entity)) entities)) s) as H.
    destruct (run _ s) as [s1 [a|e]]; cbn [fst ret] in *; apply H; try exact Hs;
      intros ix g g' a' Hg Htx; rewrite createEntities_tx_step in Htx;
      injection Htx as <- _; now apply create_entities_well_formed.
  - intros relations. unfold createRelations. rewrite try_finally_close. unfold bind.
    pose proof (for_of_keeps well_formed create_tx relations s) as H.
    unfold create_tx in H.
    destruct (for_of relations _ s) as [s1 [a|e]]; cbn [fst ret] in *; apply H; try exact Hs;
      intros x ix g g' a' Hg Htx; rewrite createRelations_tx_step in Htx;
      injection Htx as <- _; apply fold_well_formed; auto using merge_rel_well_formed.
  - intros observations. unfold addObservations. rewrite try_finally_close. unfold bind.
    pose proof (run_keeps well_formed
                  (addObservations_tx
                     (map (fun obs => mkObservationAddition (entityName obs) (contents obs))
                          observations)) s) as H.
    destruct (run _ s) as [s1 [a|e]]; cbn [fst ret] in *; apply H; try exact Hs;
      intros ix g g' a' Hg Htx; injection Htx as <- _; apply fold_well_formed; auto;
      intros g0 [[e0 nm] new] Hg0; now apply update_node_well_formed.
  - intros entityNames. unfold deleteEntities. rewrite try_finally_close.
    apply run_keeps; [|exact Hs].
    intros ix g g' a Hg Htx. injection Htx as <- _.
    apply fold_well_formed; auto using detach_delete_well_formed.
  - intros deletions. unfold deleteObservations. rewrite try_finally_close.
    apply run_keeps; [|exact Hs].
    intros ix g g' a Hg Htx. injection Htx as <- _.
    apply fold_well_formed; auto.
    intros g0 [e0 listed] Hg0. now apply update_node_well_formed.
  - intros relations. unfold deleteRelations. rewrite try_finally_close.
    pose proof (for_of_keeps well_formed delete_tx relations s) as H.
    unfold delete_tx in H. apply H; [|exact Hs].
    intros x ix g g' a' Hg Htx. rewrite deleteRelations_tx_step in Htx.
    injection Htx as <- _. apply fold_well_formed; auto using delete_rel_well_formed.
Qed.

Lemma writes_keep_well_formed_witness :
  well_formed (graph people) /\
  well_formed (graph_after (deleteEntities ["Alice"]) acquainted).
Proof.
  split.
  - apply (writes_keep_well_formed fresh). split; constructor.
  - apply (writes_keep_well_formed acquainted).
    split; [repeat constructor; cbn; intuition congruence | repeat constructor].
Defined.

End WellFormed.

(* ================================================================== *)
(** * The credential chain: every outcome *)
(* ================================================================== *)

Section ChainOutcomes.

Import Auth.

Lemma isAuthEnabled_length (this : AuthManager) :
  isAuthEnabled this = negb (Nat.eqb (List.length (providers this)) 0).
Proof. unfold isAuthEnabled. now destruct (providers this). Qed.

(** A session the loop returns is the one the first provider that accepted
    the request made. *)
Lemma try_providers_session (ps : list AuthProvider) request session :
  snd (try_providers ps request) = Ok session ->
  exists pre p post,
    ps = pre ++ p :: post /\
    Forall (passes_by request) pre /\
    canHandle p request = true /\
    provider_authenticate p request = Ok session.
Proof.
  induction ps as [|q ps IH]; cbn [try_providers]; [discriminate|].
  destruct (canHandle q request) eqn:Hcan.
  - destruct (provider_authenticate q request) as [s'|e] eqn:Hauth.
    + cbn. intros [= ->]. exists [], q, ps. repeat split; auto.
    + rewrite say_snd. intros H. destruct (IH H) as (pre & p & post & -> & Hpre & Hp & Hs).
      exists (q :: pre), p, post. repeat split; auto.
      constructor; [|exact Hpre]. right. split; [exact Hcan | now exists e].
  - rewrite say_snd. intros H. destruct (IH H) as (pre & p & post & -> & Hpre & Hp & Hs).
    exists (q :: pre), p, post. repeat split; auto.
    constructor; [|exact Hpre]. now left.
Qed.

(** The loop throws one error only, and only when every provider was passed
    by. *)
Lemma try_providers_throws (ps : list AuthProvider) request e :
  snd (try_providers ps request) = Throw e ->
  e = no_valid_credentials /\ Forall (passes_by request) ps.
Proof.
  induction ps as [|q ps IH]; cbn [try_providers].
  - cbn. intros [= <-]. split; [reflexivity | constructor].
  - destruct (canHandle q request) eqn:Hcan.
    + destruct (provider_authenticate q request) as [s'|e'] eqn:Hauth; [discriminate|].
      rewrite say_snd. intros H. destruct (IH H) as [-> Hall]. split; [reflexivity|].
      constructor; [|exact Hall]. right. split; [exact Hcan | now exists e'].
    + rewrite say_snd. intros H. destruct (IH H) as [-> Hall]. split; [reflexivity|].
      constructor; [|exact Hall]. now left.
Qed.

Lemma try_providers_all_passed (ps : list AuthProvider) request :
  Forall (passes_by request) ps ->
  snd (try_providers ps request) = Throw no_valid_credentials.
Proof.
  intros H. rewrite <- (app_nil_r ps). now rewrite try_providers_passed_by.
Qed.

(** X5.  With providers configured, [authenticate] throws exactly when
    every provider declined the request or failed on it, and the error is
    always the same: no message of a provider reaches the caller.  The
    server turns it into the one 401 response. *)
Theorem authenticate_rejects_alike (this : AuthManager) (now : nat)
  (request : IncomingMessage) :
  (forall e,
     snd (authenticate this now request) = Throw e ->
     e = no_valid_credentials /\
     isAuthEnabled this = true /\
     Forall (passes_by request) (providers this)) /\
  (isAuthEnabled this = true ->
   Forall (passes_by request) (providers this) ->
   snd (authenticate this now request) = Throw no_valid_credentials /\
   snd (Server.authenticate this now request) = Server.Rejected Server.unauthorized).
Proof.
  rewrite isAuthEnabled_length. unfold Server.authenticate, authenticate.
  destruct (Nat.eqb (List.length (providers this)) 0) eqn:E; cbn [negb]; split.
  - cbn. discriminate.
  - discriminate.
  - rewrite say_snd. intros e H. destruct (try_providers_throws _ _ _ H). auto.
  - intros _ Hall. pose proof (try_providers_all_passed _ _ Hall) as H.
    destruct (try_providers (providers this) request) as [lines r].
    cbn [snd say fst] in *. subst r. split; reflexivity.
Qed.

Lemma authenticate_rejects_alike_witness :
  snd (authenticate (mkAuthManager [oauth_down; keys12]) 7 bad_bearer_only)
  = Throw no_valid_credentials /\
  snd (Server.authenticate (mkAuthManager [oauth_down; keys12]) 7 bad_bearer_only)
  = Server.Rejected Server.unauthorized.
Proof.
  apply (authenticate_rejects_alike (mkAuthManager [oauth_down; keys12]) 7 bad_bearer_only).
  - reflexivity.
  - constructor; [|constructor; [|constructor]].
    + right. split; [reflexivity | now exists "invalid token"].
    + left. reflexivity.
Defined.

Lemma enabled_session_parts (this : AuthManager) (now : nat)
  (request : IncomingMessage) (session : AuthSession) :
  isAuthEnabled this = true ->
  snd (authenticate this now request) = Ok session ->
  exists pre p post,
    providers this = pre ++ p :: post /\
    Forall (passes_by request) pre /\
    canHandle p request = true /\
    provider_authenticate p request = Ok session.
Proof.
  rewrite isAuthEnabled_length. unfold authenticate.
  destruct (Nat.eqb (List.length (providers this)) 0); [discriminate|].
  intros _. rewrite say_snd. apply try_providers_session.
Qed.

(** X6.  With providers configured, a session [authenticate] returns is
    never made up by the manager: it is the session of the first provider, in
    registration order, that claimed the request and authenticated it, every
    provider before it having been passed by. *)
Theorem authenticate_session_origin (this : AuthManager) (now : nat)
  (request : IncomingMessage) (session : AuthSession) :
  isAuthEnabled this = true ->
  snd (authenticate this now request) = Ok session ->
  exists pre p post,
    providers this = pre ++ p :: post /\
    Forall (passes_by request) pre /\
    canHandle p request = true /\
    provider_authenticate p request = Ok session.
Proof. apply enabled_session_parts. Qed.

Lemma authenticate_session_origin_witness :
  exists pre p post,
    [oauth_down; keys12] = pre ++ p :: post /\
    Forall (passes_by bad_bearer_good_key) pre /\
    canHandle p bad_bearer_good_key = true /\
    provider_authenticate p bad_bearer_good_key
    = Ok (mkAuthSession "apikey" apikey None None None None None 7 None).
Proof.
  apply (authenticate_session_origin (mkAuthManager [oauth_down; keys12]) 7
           bad_bearer_good_key).
  - reflexivity.
  - reflexivity.
Defined.

End ChainOutcomes.

(* ================================================================== *)
(** * Changing the providers, validating sessions *)
(* ================================================================== *)

Section ProviderList.

Import Auth.

Lemma filter_cancels_last {X} (f : X -> bool) (l : list X) (x : X) :
  f x = false -> filter f (l ++ [x]) = filter f l.
Proof.
  intros H. rewrite filter_app. cbn. rewrite H. apply app_nil_r.
Qed.

(** X7.  [removeProvider] drops every provider of that name and keeps the
    others in order.  Removing a name after adding a provider of that name
    gives what removing the name alone gives; that is the manager as it was
    exactly when no registered provider carried the name.  When every
    provider carries the name, the manager is left without providers, and
    from then on each request, whatever it carries, is given the anonymous
    session. *)
Theorem removeProvider_can_open_access (name : string) (this : AuthManager) :
  getAvailableMethods (removeProvider name this) =
    filter (fun n => negb (String.eqb n name)) (getAvailableMethods this) /\
  ~ In name (getAvailableMethods (removeProvider name this)) /\
  (forall p, provider_name p = name ->
             removeProvider name (addProvider p this) = removeProvider name this) /\
  (forall p, provider_name p = name ->
             (removeProvider name (addProvider p this) = this <->
              ~ In name (getAvailableMethods this))) /\
  (Forall (fun p => provider_name p = name) (providers this) ->
   isAuthEnabled (removeProvider name this) = false /\
   forall now request,
     snd (authenticate (removeProvider name this) now request) = Ok (anonymous now)).
Proof.
  unfold getAvailableMethods, removeProvider, addProvider. cbn [providers].
  repeat apply conj.
  - induction (providers this) as [|p ps IH]; [reflexivity|].
    cbn [filter map]. destruct (negb (String.eqb (provider_name p) name)); cbn [map];
      now rewrite IH.
  - intros H. apply in_map_iff in H. destruct H as [p [E Hp]].
    apply filter_In in Hp. destruct Hp as [_ Hp].
    rewrite E, String.eqb_refl in Hp. discriminate.
  - intros p E. f_equal. apply filter_cancels_last.
    now rewrite E, String.eqb_refl.
  - intros p E. rewrite filter_cancels_last by now rewrite E, String.eqb_refl.
    split.
    + intros H Hin. apply (f_equal providers) in H. cbn [providers] in H.
      apply in_map_iff in Hin. destruct Hin as [q [Eq Hq]].
      rewrite <- H in Hq. apply filter_In in Hq. destruct Hq as [_ Hq].
      rewrite Eq, String.eqb_refl in Hq. discriminate.
    + intros Hnot. destruct this as [ps]. cbn [providers] in *. f_equal.
      induction ps as [|q ps IH]; [reflexivity|].
      cbn [filter]. destruct (String.eqb (provider_name q) name) eqn:Eq; cbn [negb].
      * exfalso. apply Hnot. left. now apply String.eqb_eq.
      * f_equal. apply IH. intros Hin. apply Hnot. now right.
  - intros Hall.
    assert (E : filter (fun p => negb (String.eqb (provider_name p) name)) (providers this)
                = []).
    { apply filter_none. eapply Forall_impl; [|exact Hall].
      cbn. intros p ->. now rewrite String.eqb_refl. }
    rewrite E. split; [reflexivity|]. intros now request. reflexivity.
Qed.

Lemma removeProvider_can_open_access_witness :
  isAuthEnabled (removeProvider "apikey" (mkAuthManager [keys12])) = false /\
  snd (authenticate (removeProvider "apikey" (mkAuthManager [keys12])) 3 bad_bearer_only)
  = Ok (anonymous 3).
Proof.
  destruct (removeProvider_can_open_access "apikey" (mkAuthManager [keys12]))
    as [_ [_ [_ [_ Hall]]]].
  destruct Hall as [Hoff Hanon].
  - constructor; [reflexivity | constructor].
  - split; [exact Hoff | exact (Hanon 3 bad_bearer_only)].
Defined.



Lemma validateSession_past (pre rest : list Validating) sessionId providerType :
  Forall (no_session sessionId providerType) pre ->
  snd (validateSession (pre ++ rest) sessionId providerType)
  = snd (validateSession rest sessionId providerType).
Proof.
  induction 1 as [|q pre Hq _ IH]; [reflexivity|].
  cbn [app validateSession]. fold (asked providerType q).
  destruct Hq as [Hq | [Hq | [e Hq]]].
  - now rewrite Hq.
  - rewrite Hq. now destruct (asked providerType q).
  - rewrite Hq. destruct (asked providerType q); [rewrite say_snd|]; exact IH.
Qed.

(** X9.  [validateSession] never throws.  It returns a session exactly when
    some provider that is asked (no type given, or the provider's name)
    knows the session, and then the session of the first such provider in
    registration order: providers that are not asked, know no such session
    or throw are gone past.  Naming a type no provider carries gives
    [null]. *)
Theorem validateSession_first_known (ps : list Validating) (sessionId : string)
  (providerType : option string) :
  (forall session,
     snd (validateSession ps sessionId providerType) = Some session <->
     exists pre p post,
       ps = pre ++ p :: post /\
       Forall (no_session sessionId providerType) pre /\
       asked providerType p = true /\
       provider_validateSession p sessionId = Ok (Some session)) /\
  (snd (validateSession ps sessionId providerType) = None <->
   Forall (no_session sessionId providerType) ps) /\
  (Forall (fun p => asked providerType p = false) ps ->
   validateSession ps sessionId providerType = ([], None)).
Proof.
  repeat apply conj.
  - intros session. split.
    + induction ps as [|q ps IH]; cbn [validateSession]; [discriminate|].
      fold (asked providerType q).
      destruct (asked providerType q) eqn:Ha.
      * destruct (provider_validateSession q sessionId) as [[s'|]|e] eqn:Hv.
        -- cbn. intros [= ->]. exists [], q, ps. repeat split; auto.
        -- intros H. destruct (IH H) as (pre & p & post & -> & Hpre & Hp & Hs).
           exists (q :: pre), p, post. repeat split; auto.
           constructor; [|exact Hpre]. right. now left.
        -- rewrite say_snd. intros H.
           destruct (IH H) as (pre & p & post & -> & Hpre & Hp & Hs).
           exists (q :: pre), p, post. repeat split; auto.
           constructor; [|exact Hpre]. right. right. now exists e.
      * intros H. destruct (IH H) as (pre & p & post & -> & Hpre & Hp & Hs).
        exists (q :: pre), p, post. repeat split; auto.
        constructor; [|exact Hpre]. now left.
    + intros (pre & p & post & -> & Hpre & Hp & Hs).
      rewrite (validateSession_past pre (p :: post) _ _ Hpre).
      cbn [validateSession]. fold (asked providerType p). now rewrite Hp, Hs.
  - induction ps as [|q ps IH]; cbn [validateSession]; [constructor|].
    fold (asked providerType q).
    destruct (asked providerType q) eqn:Ha.
    + destruct (provider_validateSession q sessionId) as [[s'|]|e] eqn:Hv.
      * discriminate.
      * intros H. constructor; [right; now left | now apply IH].
      * rewrite say_snd. intros H.
        constructor; [right; right; now exists e | now apply IH].
    + intros H. constructor; [now left | now apply IH].
  - intros H. rewrite <- (app_nil_r ps). now rewrite validateSession_past.
  - induction 1 as [|q ps Hq _ IH]; [reflexivity|].
    cbn [validateSession]. fold (asked providerType q). now rewrite Hq.
Qed.

Lemma validateSession_first_known_witness :
  snd (validateSession
         [mkValidating oauth_down always_throws; mkValidating keys12 knows_s1]
         "s1" None)
  = Some (mkAuthSession "s1" apikey None None None None None 7 None) /\
  validateSession
    [mkValidating oauth_down always_throws; mkValidating keys12 knows_s1]
    "s1" (Some "descope")
  = ([], None).
Proof.
  destruct (validateSession_first_known
              [mkValidating oauth_down always_throws; mkValidating keys12 knows_s1]
              "s1" None) as [Hsome _].
  destruct (validateSession_first_known
              [mkValidating oauth_down always_throws; mkValidating keys12 knows_s1]
              "s1" (Some "descope")) as [_ [_ Hnone]].
  split.
  - apply Hsome.
    exists [mkValidating oauth_down always_throws], (mkValidating keys12 knows_s1), [].
    repeat split.
    constructor; [|constructor]. right. right. now exists "introspection unreachable".
  - apply Hnone. repeat constructor.
Defined.

End ProviderList.

(* ================================================================== *)
(** * Observations are removed *)
(* ================================================================== *)

Section Removals.

Import Neo4jMemory.

(** Among nodes with unique identities, the rows a clause binds to [n] come
    from [n] itself. *)
Lemma rows_bound_to {R} (rid : R -> nat) (rows_of : Node -> list R)
  (p : Node -> bool) (l : list Node) (n : Node) :
  (forall e r, In r (rows_of e) -> rid r = node_id e) ->
  NoDup (map node_id l) ->
  In n l ->
  filter (fun r => Nat.eqb (node_id n) (rid r)) (flat_map rows_of (filter p l))
  = if p n then rows_of n else [].
Proof.
  intros Hrid.
  assert (Hmine : forall e, node_id e = node_id n ->
            filter (fun r => Nat.eqb (node_id n) (rid r)) (rows_of e) = rows_of e).
  { intros e E. rewrite <- (filter_all (rows_of e)) at 2. apply filter_ext_in.
    intros r Hr. rewrite (Hrid e r Hr), E. apply Nat.eqb_refl. }
  assert (Hother : forall e, node_id e <> node_id n ->
            filter (fun r => Nat.eqb (node_id n) (rid r)) (rows_of e) = []).
  { intros e E. apply filter_none, Forall_forall. intros r Hr.
    rewrite (Hrid e r Hr). apply Nat.eqb_neq. congruence. }
  induction l as [|a l IH]; intros Hnd Hin; [contradiction|].
  cbn [map] in Hnd. apply NoDup_cons_iff in Hnd. destruct Hnd as [Ha Hnd].
  assert (Hrest : In n l \/ ~ In (node_id n) (map node_id l)).
  { destruct Hin as [-> | Hin]; [now right | now left]. }
  destruct Hin as [-> | Hin].
  - assert (E : filter (fun r => Nat.eqb (node_id n) (rid r))
                  (flat_map rows_of (filter p l)) = []).
    { rewrite filter_flat_map_rows. apply flat_map_nil. intros e He.
      apply filter_In in He. destruct He as [He _]. apply Hother.
      intros E. apply Ha. rewrite <- E. now apply in_map. }
    cbn [filter]. destruct (p n); [|exact E].
    cbn [flat_map]. rewrite filter_app, E, app_nil_r. now apply Hmine.
  - assert (Hne : node_id a <> node_id n).
    { intros E. apply Ha. rewrite E. now apply in_map. }
    cbn [filter]. destruct (p a); [|now apply IH].
    cbn [flat_map]. rewrite filter_app, (Hother a Hne). cbn [app]. now apply IH.
Qed.

Lemma remove_listed_nodes (g : Graph) (row : nat * list string) :
  remove_listed g row = mkGraph (map (remove_from row) (nodes g)) (rels g) (next_id g).
Proof. now destruct row. Qed.

Lemma fold_remove_listed (rows : list (nat * list string)) (g : Graph) :
  fold_left remove_listed rows g =
  mkGraph (map (fun n => fold_left (fun n row => remove_from row n) rows n) (nodes g))
          (rels g) (next_id g).
Proof.
  revert g. induction rows as [|row rows IH]; intros g.
  - cbn. rewrite map_id. now destruct g.
  - cbn [fold_left]. rewrite IH, remove_listed_nodes. cbn [nodes rels next_id].
    now rewrite map_map.
Qed.

Lemma mem_app (x : string) (l k : list string) : mem x (l ++ k) = mem x l || mem x k.
Proof. unfold mem. apply existsb_app. Qed.

Lemma not_in_twice (l k obs : list string) :
  not_in k (not_in l obs) = not_in (l ++ k) obs.
Proof.
  unfold not_in. rewrite filter_twice. apply filter_ext. intros o.
  now rewrite mem_app, negb_orb.
Qed.

Lemma not_in_nil (obs : list string) : not_in [] obs = obs.
Proof. unfold not_in. apply filter_all. Qed.

(** All rows of the [SET] clause written to one node. *)
Lemma fold_remove_from (rows : list (nat * list string)) (n : Node) :
  fold_left (fun n row => remove_from row n) rows n =
  match filter (fun row => Nat.eqb (node_id n) (fst row)) rows with
  | [] => n
  | mine => set_observations (not_in (flat_map snd mine) (coalesce (p_observations n))) n
  end.
Proof.
  revert n. induction rows as [|row rows IH]; intros n; [reflexivity|].
  cbn [fold_left filter]. rewrite IH.
  assert (Eid : node_id (remove_from row n) = node_id n).
  { unfold remove_from. now destruct (Nat.eqb (node_id n) (fst row)). }
  rewrite Eid. unfold remove_from.
  destruct (Nat.eqb (node_id n) (fst row)) eqn:E; [|reflexivity].
  destruct (filter _ rows) as [|r mine].
  - cbn [flat_map]. now rewrite app_nil_r.
  - unfold set_observations.
    cbn [node_id labels p_name p_type p_observations coalesce].
    f_equal. f_equal. cbn [flat_map]. rewrite not_in_twice.
    cbn [flat_map]. reflexivity.
Qed.

Lemma deletion_rows_mine (deletions : list ObservationDeletion) (g : Graph) (n : Node) :
  NoDup (map node_id (nodes g)) ->
  In n (nodes g) ->
  filter (fun row => Nat.eqb (node_id n) (fst row)) (deletion_rows deletions g) =
  map (fun d => (node_id n, d_observations d)) (filter (named_by n) deletions).
Proof.
  intros Hnd Hin. unfold deletion_rows.
  induction deletions as [|d ds IH]; [reflexivity|].
  cbn [flat_map filter]. rewrite filter_app, IH.
  assert (E : map (fun e => (node_id e, d_observations d)) (match_memory (d_entityName d) g)
              = flat_map (fun e => [(node_id e, d_observations d)])
                  (match_memory (d_entityName d) g)).
  { induction (match_memory (d_entityName d) g) as [|e es IHe]; [reflexivity|].
    cbn. now rewrite IHe. }
  rewrite E. unfold match_memory.
  rewrite (rows_bound_to fst (fun e => [(node_id e, d_observations d)]) _ (nodes g) n);
    [ | intros e r [<- | []]; reflexivity | exact Hnd | exact Hin ].
  fold (named_by n d). now destruct (named_by n d).
Qed.

(** The nodes after [deleteObservations]' query. *)
Lemma deleteObservations_nodes (deletions : list ObservationDeletion) (g : Graph) :
  NoDup (map node_id (nodes g)) ->
  fold_left remove_listed (deletion_rows deletions g) g =
  mkGraph (map (after_deletions deletions) (nodes g)) (rels g) (next_id g).
Proof.
  intros Hnd. rewrite fold_remove_listed. f_equal.
  apply map_ext_in. intros n Hin.
  rewrite fold_remove_from, (deletion_rows_mine deletions g n Hnd Hin).
  unfold after_deletions.
  destruct (filter (named_by n) deletions) as [|d hits]; [reflexivity|].
  cbn [map]. f_equal. f_equal.
  rewrite !flat_map_concat_map. cbn [map snd concat]. now rewrite map_map.
Qed.

Lemma after_deletions_matches (deletions : list ObservationDeletion) (name : string)
  (n : Node) :
  (has_label "Memory" (after_deletions deletions n)
   && option_string_eqb (p_name (after_deletions deletions n)) (Some name))%bool
  = (has_label "Memory" n && option_string_eqb (p_name n) (Some name))%bool.
Proof. unfold after_deletions. now destruct (filter _ _). Qed.

Lemma after_deletions_id (deletions : list ObservationDeletion) (n : Node) :
  node_id (after_deletions deletions n) = node_id n.
Proof. unfold after_deletions. now destruct (filter _ _). Qed.

Lemma not_in_idem (l obs : list string) : not_in l (not_in l obs) = not_in l obs.
Proof.
  unfold not_in. rewrite filter_twice. apply filter_ext. intros o.
  now destruct (mem o l).
Qed.

Lemma after_deletions_twice (deletions : list ObservationDeletion) (n : Node) :
  after_deletions deletions (after_deletions deletions n) = after_deletions deletions n.
Proof.
  unfold after_deletions at 2.
  destruct (filter (named_by n) deletions) as [|d hits] eqn:E.
  - unfold after_deletions. now rewrite E.
  - unfold after_deletions.
    assert (E' : filter (named_by
                   (set_observations
                      (not_in (flat_map d_observations (d :: hits))
                         (coalesce (p_observations n))) n)) deletions = d :: hits).
    { rewrite <- E. apply filter_ext. intros x. reflexivity. }
    rewrite E'. unfold set_observations.
    cbn [node_id labels p_name p_type p_observations coalesce].
    now rewrite not_in_idem, E.
Qed.

Lemma deleteObservations_stays_healthy (deletions : list ObservationDeletion) (s : Store) :
  healthy s -> healthy (fst (deleteObservations deletions s)).
Proof.
  intros Hs. unfold deleteObservations. rewrite try_finally_close.
  destruct (run_healthy (deleteObservations_tx
                           (map (fun deletion => mkObservationDeletion (d_entityName deletion)
                                                   (d_observations deletion)) deletions))
              s _ tt Hs eq_refl) as [E H].
  now rewrite E.
Qed.

(** X10.  On a store whose round trips succeed, [deleteObservations] leaves
    every entity that some deletion names with those of its observations
    that no deletion naming it lists, in their order (an entity that had no
    observations property gets the empty list), and changes nothing else.
    So no listed string is left on a named entity, and running the same
    batch again changes nothing. *)
Theorem deleteObservations_removes_listed
  (deletions : list ObservationDeletion) (s : Store) :
  healthy s ->
  NoDup (map node_id (nodes (graph s))) ->
  graph_after (deleteObservations deletions) s =
    mkGraph (map (after_deletions deletions) (nodes (graph s)))
            (rels (graph s)) (next_id (graph s)) /\
  (forall d e o,
     In d deletions ->
     In e (match_memory (d_entityName d) (graph_after (deleteObservations deletions) s)) ->
     In o (d_observations d) ->
     ~ In o (coalesce (p_observations e))) /\
  graph_after (deleteObservations deletions) (fst (deleteObservations deletions s)) =
  graph_after (deleteObservations deletions) s.
Proof.
  intros Hs Hnd.
  destruct (deleteObservations_healthy deletions s Hs) as [Eg _].
  assert (E : graph_after (deleteObservations deletions) s =
              mkGraph (map (after_deletions deletions) (nodes (graph s)))
                      (rels (graph s)) (next_id (graph s))).
  { now rewrite Eg, deleteObservations_nodes. }
  repeat apply conj.
  - exact E.
  - intros d e o Hd He Ho. rewrite E in He. apply match_memory_In in He.
    cbn [nodes] in He. destruct He as [He [Hlabel Hname]].
    apply in_map_iff in He. destruct He as [n [<- Hn]].
    assert (Hhit : named_by n d = true).
    { pose proof (after_deletions_matches deletions (d_entityName d) n) as Hm.
      rewrite Hlabel, Hname in Hm. cbn in Hm. rewrite String.eqb_refl in Hm.
      unfold named_by. now rewrite <- Hm. }
    unfold after_deletions.
    destruct (filter (named_by n) deletions) as [|d0 hits] eqn:Ef.
    + exfalso. assert (Hin : In d (filter (named_by n) deletions))
        by (apply filter_In; now split).
      now rewrite Ef in Hin.
    + cbn [set_observations p_observations coalesce]. unfold not_in.
      intros Hin. apply filter_In in Hin. destruct Hin as [_ Hneg].
      apply negb_true_iff in Hneg.
      assert (Hmem : mem o (flat_map d_observations (d0 :: hits)) = true); [|congruence].
      apply mem_In, in_flat_map. exists d. split; [|exact Ho].
      rewrite <- Ef. apply filter_In. now split.
  - destruct (deleteObservations_healthy deletions _
                (deleteObservations_stays_healthy deletions s Hs)) as [Eg' _].
    rewrite Eg'. fold (graph_after (deleteObservations deletions) s). rewrite E.
    rewrite deleteObservations_nodes; cbn [nodes rels next_id].
    + f_equal. rewrite map_map. apply map_ext. intros n. apply after_deletions_twice.
    + rewrite map_map. erewrite map_ext; [exact Hnd|]. apply after_deletions_id.
Qed.

Lemma deleteObservations_removes_listed_witness :
  map p_observations
      (nodes (graph_after
                (deleteObservations [mkObservationDeletion "Alice" ["likes tea"; "no such"];
                                     mkObservationDeletion "ghost" ["x"]]) people))
  = [Some []; Some []].
Proof.
  destruct (deleteObservations_removes_listed
              [mkObservationDeletion "Alice" ["likes tea"; "no such"];
               mkObservationDeletion "ghost" ["x"]] people) as [E _].
  - reflexivity.
  - repeat constructor; cbn; intuition congruence.
  - rewrite E. reflexivity.
Defined.

End Removals.

(* ================================================================== *)
(** * Relationships are deleted *)
(* ================================================================== *)

Section RemovedRelations.

Import Neo4jMemory.

Lemma fold_delete_rel (ty : string) (rows : list (nat * nat)) (g : Graph) :
  fold_left (delete_rel ty) rows g =
  mkGraph (nodes g)
          (filter (fun r => negb (existsb (fun row => rel_matches (fst row) (snd row) ty r) rows))
                  (rels g))
          (next_id g).
Proof.
  revert g. induction rows as [|[from to] rows IH]; intros g.
  - cbn. rewrite filter_all. now destruct g.
  - cbn [fold_left]. rewrite IH. unfold delete_rel. cbn [nodes rels next_id].
    f_equal. rewrite filter_twice. apply filter_ext. intros r.
    cbn [existsb fst snd]. now rewrite negb_orb.
Qed.

Lemma existsb_pairs (ty : string) (froms tos : list Node) (r : Rel) :
  existsb (fun row => rel_matches (fst row) (snd row) ty r) (pairs froms tos) =
  is_in (startNode r) (map node_id froms) && is_in (endNode r) (map node_id tos)
  && String.eqb (rel_type r) ty.
Proof.
  unfold pairs, is_in, rel_matches.
  induction froms as [|f froms IH].
  - reflexivity.
  - cbn [flat_map map existsb]. rewrite existsb_app, IH.
    assert (E :  existsb (fun row : nat * nat =>
                  Nat.eqb (startNode r) (fst row) && Nat.eqb (endNode r) (snd row)
                  && String.eqb (rel_type r) ty)
                  (map (fun t => (node_id f, node_id t)) tos) =
                Nat.eqb (startNode r) (node_id f)
                && existsb (Nat.eqb (endNode r)) (map node_id tos)
                && String.eqb (rel_type r) ty).
    { clear IH. induction tos as [|t tos IHt].
      - cbn. now rewrite andb_false_r.
      - cbn [map existsb fst snd]. rewrite IHt.
        destruct (Nat.eqb (startNode r) (node_id f)), (Nat.eqb (endNode r) (node_id t)),
          (String.eqb (rel_type r) ty), (existsb (Nat.eqb (endNode r)) (map node_id tos));
          reflexivity. }
    rewrite E.
    destruct (Nat.eqb (startNode r) (node_id f)),
      (existsb (Nat.eqb (startNode r)) (map node_id froms)),
      (existsb (Nat.eqb (endNode r)) (map node_id tos)),
      (String.eqb (rel_type r) ty); reflexivity.
Qed.

(** One round trip of [deleteRelations]. *)
Lemma delete_relation_joining (relation : Relation) (g : Graph) :
  delete_relation relation g =
  mkGraph (nodes g) (filter (fun r => negb (joins g relation r)) (rels g)) (next_id g).
Proof.
  unfold delete_relation. rewrite fold_delete_rel. f_equal.
  apply filter_ext. intros r. unfold joins. now rewrite existsb_pairs.
Qed.

Lemma steps_delete_relation (relations : list Relation) (g : Graph) :
  steps delete_relation relations g =
  mkGraph (nodes g)
          (filter (fun r => negb (existsb (fun relation => joins g relation r) relations))
                  (rels g))
          (next_id g).
Proof.
  unfold steps. revert g. induction relations as [|relation relations IH]; intros g.
  - cbn. rewrite filter_all. now destruct g.
  - cbn [fold_left]. rewrite IH, delete_relation_joining. cbn [nodes rels next_id].
    f_equal. rewrite filter_twice. apply filter_ext. intros r.
    cbn [existsb]. now rewrite negb_orb.
Qed.

(** X11.  On a store whose round trips succeed, [deleteRelations] removes
    exactly the relationships that run from an entity named by some
    relation's source to an entity named by its target and whose type is
    the text the query carries; nodes stay as they are.  The relation's own
    [relationType] plays no part, and a relationship of any other type
    survives every call. *)
Theorem deleteRelations_removes_joining (relations : list Relation) (s : Store) :
  healthy s ->
  graph_after (deleteRelations relations) s =
    mkGraph (nodes (graph s))
            (filter (fun r => negb (existsb (fun relation => joins (graph s) relation r)
                                      relations))
                    (rels (graph s)))
            (next_id (graph s)) /\
  (forall r, In r (rels (graph s)) -> rel_type r <> query_rel_type ->
             In r (rels (graph_after (deleteRelations relations) s))).
Proof.
  intros Hs. destruct (deleteRelations_healthy relations s Hs) as [E _].
  rewrite E, steps_delete_relation. split; [reflexivity|].
  intros r Hr Hty. cbn [rels]. apply filter_In. split; [exact Hr|].
  apply negb_true_iff. apply not_true_is_false. intros H.
  apply existsb_exists in H. destruct H as [relation [_ H]].
  unfold joins in H. apply andb_true_iff in H. destruct H as [_ H].
  apply String.eqb_eq in H. contradiction.
Qed.

Lemma deleteRelations_removes_joining_witness :
  rels (graph_after (deleteRelations [mkRelation "Alice" "Bob" "anything"]) acquainted) = [].
Proof.
  destruct (deleteRelations_removes_joining [mkRelation "Alice" "Bob" "anything"] acquainted)
    as [E _].
  - reflexivity.
  - rewrite E. reflexivity.
Defined.

End RemovedRelations.

(* ================================================================== *)
(** * What a loaded graph holds *)
(* ================================================================== *)

Section LoadedGraphs.

Import Neo4jMemory.

Lemma optional_match_In (g : Graph) (n : Node) (row : Node * option Rel) :
  In row (optional_match g n) <->
  fst row = n /\
  match snd row with
  | Some r => In r (rels g) /\ incident (node_id n) r = true
  | None => filter (incident (node_id n)) (rels g) = []
  end.
Proof.
  unfold optional_match.
  destruct (filter (incident (node_id n)) (rels g)) as [|r0 rs] eqn:E.
  - split.
    + intros [<- | []]. now split.
    + intros [<- H]. destruct row as [m [r|]]; cbn in *.
      * destruct H as [Hr Hi].
        assert (Hin : In r (filter (incident (node_id m)) (rels g)))
          by (apply filter_In; now split).
        now rewrite E in Hin.
      * now left.
  - rewrite <- E. split.
    + intros H. apply in_map_iff in H. destruct H as [r [<- Hr]].
      apply filter_In in Hr. now split.
    + intros [<- H]. destruct row as [m [r|]]; cbn in *.
      * apply in_map_iff. exists r. split; [reflexivity|]. now apply filter_In.
      * now rewrite E in H.
Qed.

(** Every matched node has a row. *)
Lemma optional_match_row (g : Graph) (n : Node) :
  exists o, In (n, o) (optional_match g n).
Proof.
  unfold optional_match.
  destruct (filter (incident (node_id n)) (rels g)) as [|r0 rs].
  - exists None. now left.
  - exists (Some r0). now left.
Qed.

Lemma loaded_entities_In (maps : list NodeMap) (e : LoadedEntity) :
  In e (loaded_entities maps) <->
  exists obs, In (Some (l_name e), l_type e, obs) maps /\
              l_name e <> "" /\ l_observations e = coalesce obs.
Proof.
  unfold loaded_entities. rewrite in_flat_map. split.
  - intros [[[[nm|] ty] obs] [Hin H]]; [|contradiction].
    cbn in H. destruct (String.eqb nm "") eqn:E; cbn in H; [contradiction|].
    destruct H as [<- | []]. cbn. exists obs. repeat apply conj.
    + exact Hin.
    + now apply String.eqb_neq.
    + now destruct obs.
  - intros [obs [Hin [Hne Hobs]]]. exists (Some (l_name e), l_type e, obs).
    split; [exact Hin|]. cbn. apply String.eqb_neq in Hne. rewrite Hne. cbn.
    left. destruct e as [nm ty os]. cbn in *. subst os. now destruct obs.
Qed.

Lemma loaded_relations_In (maps : list RelMap) (y : Relation) :
  In y (loaded_relations maps) <->
  In (Some (source y), Some (target y), Some (relationType y)) maps /\
  source y <> "" /\ target y <> "" /\ relationType y <> "".
Proof.
  split.
  - intros H. rewrite loaded_relations_flat in H. apply in_flat_map in H.
    destruct H as [rel [Hin H]]. pose proof (loaded_relation_inv rel y H) as E.
    subst rel. split; [exact Hin|]. cbn in H.
    destruct (String.eqb (source y) "") eqn:E1; [contradiction|].
    destruct (String.eqb (target y) "") eqn:E2; [contradiction|].
    destruct (String.eqb (relationType y) "") eqn:E3; [contradiction|].
    repeat apply conj; now apply String.eqb_neq.
  - intros [Hin [H1 [H2 H3]]]. unfold loaded_relations. apply in_flat_map.
    exists (Some (source y), Some (target y), Some (relationType y)).
    split; [exact Hin|]. cbn.
    apply String.eqb_neq in H1, H2, H3. rewrite H1, H2, H3. cbn.
    left. now destruct y.
Qed.

Lemma loadGraph_healthy (filterQuery : string) (s : Store) :
  healthy s ->
  loadGraph filterQuery s =
  (mkStore (graph s) (index s) (tl (faults s)),
   Ok (mkKnowledgeGraph
         (loaded_entities
            (collect_distinct NodeMap_eq_dec
               (map (fun row => node_map (fst row))
                    (flat_map (optional_match (graph s))
                       (queryNodes (index s) filterQuery (graph s))))))
         (loaded_relations
            (collect_distinct RelMap_eq_dec
               (map (fun row => rel_map (graph s) (snd row))
                    (flat_map (optional_match (graph s))
                       (queryNodes (index s) filterQuery (graph s)))))))).
Proof.
  intros Hs. unfold loadGraph. rewrite try_finally_close. unfold bind.
  destruct (run_healthy (loadGraph_tx filterQuery) s _ _ Hs eq_refl) as [E _].
  rewrite E. reflexivity.
Qed.

(** X12.  On a store whose round trip succeeds, [loadGraph] (so [readGraph],
    [searchNodes] and [findNodes]) leaves the graph as it is and returns:
    as entities, exactly the nodes the index matched that carry a non-empty
    name, each with its type as stored and its observations or the empty
    list; as relations, exactly the relationships touching a matched node,
    in either direction, whose two ends are named and whose type is not
    empty.  The other end of a returned relation need not be among the
    returned entities. *)
Theorem loadGraph_returns_matched (filterQuery : string) (s : Store) :
  healthy s ->
  exists kg,
    outcome (loadGraph filterQuery) s = Ok kg /\
    graph_after (loadGraph filterQuery) s = graph s /\
    (forall e, In e (entities kg) <->
       exists n, In n (queryNodes (index s) filterQuery (graph s)) /\ entity_of n e) /\
    (forall y, In y (relations kg) <->
       exists n r, In n (queryNodes (index s) filterQuery (graph s)) /\
                   In r (rels (graph s)) /\ incident (node_id n) r = true /\
                   relation_of (graph s) r y).
Proof.
  intros Hs. unfold outcome, graph_after. rewrite (loadGraph_healthy filterQuery s Hs).
  eexists. split; [reflexivity|]. split; [reflexivity|]. cbn [entities relations]. split.
  - intros e. rewrite loaded_entities_In. unfold collect_distinct, entity_of. split.
    + intros [obs [Hin [Hne Hobs]]]. apply nodup_In, in_map_iff in Hin.
      destruct Hin as [row [Erow Hrow]]. apply in_flat_map in Hrow.
      destruct Hrow as [n [Hn Hrow]]. apply optional_match_In in Hrow.
      destruct Hrow as [<- _]. exists (fst row). unfold node_map in Erow.
      injection Erow as E1 E2 E3. subst obs. now repeat apply conj.
    + intros [n [Hn [Hname [Hne [Hty Hobs]]]]]. exists (p_observations n).
      repeat apply conj; try assumption.
      apply nodup_In, in_map_iff. destruct (optional_match_row (graph s) n) as [o Ho].
      exists (n, o). split.
      * unfold node_map. cbn [fst]. now rewrite Hname, Hty.
      * apply in_flat_map. now exists n.
  - intros y. rewrite loaded_relations_In. unfold collect_distinct, relation_of. split.
    + intros [Hin [H1 [H2 H3]]]. apply nodup_In, in_map_iff in Hin.
      destruct Hin as [row [Erow Hrow]]. apply in_flat_map in Hrow.
      destruct Hrow as [n [Hn Hrow]]. apply optional_match_In in Hrow.
      destruct Hrow as [_ Hrow]. destruct (snd row) as [r|]; [|discriminate].
      cbn in Erow. injection Erow as E1 E2 E3. destruct Hrow as [Hr Hi].
      exists n, r. now repeat apply conj.
    + intros [n [r [Hn [Hr [Hi [E1 [E2 [E3 [H1 [H2 H3]]]]]]]]]].
      repeat apply conj; try assumption.
      apply nodup_In, in_map_iff. exists (n, Some r). split.
      * cbn. now rewrite E1, E2, E3.
      * apply in_flat_map. exists n. split; [exact Hn|].
        apply optional_match_In. cbn. now repeat apply conj.
Qed.

Lemma loadGraph_returns_matched_witness :
  exists kg,
    outcome (loadGraph "*") acquainted = Ok kg /\
    graph_after (loadGraph "*") acquainted = graph acquainted /\
    (forall e, In e (entities kg) <->
       exists n, In n (queryNodes (index acquainted) "*" (graph acquainted)) /\
                 entity_of n e) /\
    (forall y, In y (relations kg) <->
       exists n r, In n (queryNodes (index acquainted) "*" (graph acquainted)) /\
                   In r (rels (graph acquainted)) /\ incident (node_id n) r = true /\
                   relation_of (graph acquainted) r y).
Proof. apply (loadGraph_returns_matched "*" acquainted). reflexivity. Defined.

End LoadedGraphs.

(* ================================================================== *)
(** * Looking entities up by name *)
(* ================================================================== *)

Section Lookups.

Import Neo4jMemory.

Lemma append_assoc (a b c : string) : ((a ++ b) ++ c = a ++ (b ++ c))%string.
Proof. induction a as [|x a IH]; cbn; [reflexivity | now rewrite IH]. Qed.

Lemma join_cons (sep x y : string) (l : list string) :
  join sep (x :: y :: l) = (x ++ sep ++ join sep (y :: l))%string.
Proof. reflexivity. Qed.

Lemma join_splits (before after : list string) (a b : string) :
  join " " (before ++ [(a ++ " " ++ b)%string] ++ after) =
  join " " (before ++ [a; b] ++ after).
Proof.
  induction before as [|x before IH].
  - cbn [app]. destruct after as [|y after].
    + reflexivity.
    + rewrite !join_cons. now rewrite !append_assoc.
  - destruct before as [|x' before].
    + cbn [app] in *. rewrite !join_cons. now rewrite IH.
    + cbn [app] in *. rewrite (join_cons " " x x'), IH. reflexivity.
Qed.

(** X13.  [findNodes] puts the names into its search string as they are,
    separated by blanks: a name that contains a blank is looked up exactly
    as the two names on either side of the blank would be. *)
Theorem findNodes_splits_names (before after : list string) (a b : string) :
  findNodes (before ++ [(a ++ " " ++ b)%string] ++ after) =
  findNodes (before ++ [a; b] ++ after).
Proof. unfold findNodes. now rewrite join_splits. Qed.

End Lookups.

(* ================================================================== *)
(** * Statistics *)
(* ================================================================== *)

Section Statistics.

Import Neo4jMemory.

Lemma same_length (l k : list nat) :
  NoDup l -> NoDup k -> (forall x, In x l <-> In x k) -> List.length l = List.length k.
Proof.
  intros Hl Hk H. apply Nat.le_antisymm; apply NoDup_incl_length; try assumption;
    intros x Hx; now apply H.
Qed.

Lemma list_sum_cons (x : nat) (l : list nat) : list_sum (x :: l) = x + list_sum l.
Proof. reflexivity. Qed.

Lemma optional_match_length (g : Graph) (n : Node) :
  List.length (optional_match g n) = Nat.max 1 (degree g n).
Proof.
  unfold optional_match, degree.
  destruct (filter (incident (node_id n)) (rels g)) as [|r rs]; [reflexivity|].
  rewrite length_map. cbn [List.length]. lia.
Qed.

Lemma optional_match_sum (g : Graph) (n : Node) (f : Node -> nat) :
  list_sum (map (fun row => f (fst row)) (optional_match g n)) =
  List.length (optional_match g n) * f n.
Proof.
  assert (H : forall rows : list (Node * option Rel),
            (forall row, In row rows -> fst row = n) ->
            list_sum (map (fun row => f (fst row)) rows) = List.length rows * f n).
  { induction rows as [|row rows IH]; intros Hrows; [reflexivity|].
    cbn [map List.length]. rewrite list_sum_cons, IH, (Hrows row); [lia | now left | ].
    intros r Hr. apply Hrows. now right. }
  apply H. intros row Hrow. now apply optional_match_In in Hrow.
Qed.

Lemma rows_sum (g : Graph) (l : list Node) (f : Node -> nat) :
  list_sum (map (fun row => f (fst row)) (flat_map (optional_match g) l)) =
  list_sum (map (fun n => Nat.max 1 (degree g n) * f n) l).
Proof.
  induction l as [|n l IH]; [reflexivity|].
  cbn [flat_map map].
  now rewrite list_sum_cons, map_app, list_sum_app, IH, optional_match_sum,
    optional_match_length.
Qed.

Lemma list_sum_lt {X} (f h : X -> nat) (l : list X) (x : X) :
  (forall y, f y <= h y) -> In x l -> f x < h x ->
  list_sum (map f l) < list_sum (map h l).
Proof.
  intros Hle Hin Hlt.
  assert (Hall : forall k, list_sum (map f k) <= list_sum (map h k)).
  { induction k as [|y k IH]; [constructor|].
    cbn [map]. rewrite !list_sum_cons. specialize (Hle y). lia. }
  induction l as [|y l IH]; [contradiction|].
  cbn [map]. rewrite !list_sum_cons. destruct Hin as [-> | Hin].
  - specialize (Hall l). lia.
  - specialize (IH Hin). specialize (Hle y). lia.
Qed.

Lemma getStats_healthy (s : Store) :
  healthy s ->
  getStats s =
  (mkStore (graph s) (index s) (tl (faults s)),
   match getStats_tx (index s) (graph s) with
   | Ok (_, (entities, relations, total) :: _) => Ok (mkStats entities relations total)
   | _ => Throw "unreachable"
   end).
Proof.
  intros Hs. unfold getStats. rewrite try_finally_close. unfold bind.
  destruct (run_healthy getStats_tx s _ _ Hs eq_refl) as [E _].
  rewrite E. reflexivity.
Qed.

(** X14.  On a store whose round trip succeeds and whose node and
    relationship identities are unique, [getStats] leaves the graph as it is
    and reports: the number of [Memory] nodes; the number of relationships
    touching one of them; and, as [totalObservations], the observations of
    every entity counted once for each relationship touching it (once when
    none does).  That total is never below the number of observations the
    entities hold, and exceeds it as soon as an entity with an observation
    has two relationships. *)
Theorem getStats_counts (s : Store) :
  healthy s ->
  NoDup (map node_id (nodes (graph s))) ->
  NoDup (map rel_id (rels (graph s))) ->
  outcome getStats s =
    Ok (mkStats (List.length (memory_nodes (graph s)))
                (List.length (filter (touches_entity (graph s)) (rels (graph s))))
                (observations_counted (graph s))) /\
  observations_held (graph s) <= observations_counted (graph s) /\
  (forall n, In n (memory_nodes (graph s)) -> 2 <= degree (graph s) n ->
             coalesce (p_observations n) <> [] ->
             observations_held (graph s) < observations_counted (graph s)) /\
  graph_after getStats s = graph s.
Proof.
  intros Hs Hnodes Hrels. unfold outcome, graph_after.
  rewrite (getStats_healthy s Hs). cbn [fst snd graph getStats_tx].
  repeat apply conj.
  - f_equal. f_equal.
    + fold (memory_nodes (graph s)).
      rewrite <- (length_map node_id (memory_nodes (graph s))).
      apply same_length.
      * apply NoDup_nodup.
      * now apply NoDup_map_filter.
      * intros x. rewrite nodup_In, !in_map_iff. split.
        -- intros [row [<- Hrow]]. apply in_flat_map in Hrow.
           destruct Hrow as [n [Hn Hrow]]. apply optional_match_In in Hrow.
           destruct Hrow as [-> _]. now exists n.
        -- intros [n [<- Hn]]. destruct (optional_match_row (graph s) n) as [o Ho].
           exists (n, o). split; [reflexivity|]. apply in_flat_map. now exists n.
    + fold (memory_nodes (graph s)).
      rewrite <- (length_map rel_id (filter (touches_entity (graph s)) (rels (graph s)))).
      apply same_length.
      * apply NoDup_nodup.
      * now apply NoDup_map_filter.
      * intros x. rewrite nodup_In, in_flat_map, in_map_iff. split.
        -- intros [row [Hrow Hx]]. apply in_flat_map in Hrow.
           destruct Hrow as [n [Hn Hrow]]. apply optional_match_In in Hrow.
           destruct Hrow as [_ Hrow]. unfold row_rel_ids in Hx.
           destruct (snd row) as [r|]; [|contradiction].
           destruct Hx as [<- | []]. destruct Hrow as [Hr Hi].
           exists r. split; [reflexivity|]. apply filter_In. split; [exact Hr|].
           unfold touches_entity. apply existsb_exists. now exists n.
        -- intros [r [<- Hr]]. apply filter_In in Hr. destruct Hr as [Hr Ht].
           unfold touches_entity in Ht. apply existsb_exists in Ht.
           destruct Ht as [n [Hn Hi]]. exists (n, Some r). split.
           ++ apply in_flat_map. exists n. split; [exact Hn|].
              apply optional_match_In. cbn. now split.
           ++ now left.
    + fold (memory_nodes (graph s)). unfold observations_counted.
      apply (rows_sum (graph s) (memory_nodes (graph s))
               (fun n => List.length (coalesce (p_observations n)))).
  - unfold observations_held, observations_counted.
    induction (memory_nodes (graph s)) as [|n l IH]; [constructor|].
    cbn [map]. rewrite !list_sum_cons. nia.
  - intros n Hn Hdeg Hobs. unfold observations_held, observations_counted.
    apply (list_sum_lt _ _ _ n); [intros y; nia | exact Hn | ].
    destruct (coalesce (p_observations n)); [contradiction | cbn [List.length]; nia].
  - reflexivity.
Qed.

Lemma getStats_counts_witness :
  outcome getStats (fst (createRelations [admires] acquainted)) = Ok (mkStats 2 2 2) /\
  observations_held (graph (fst (createRelations [admires] acquainted))) = 1.
Proof.
  destruct (getStats_counts (fst (createRelations [admires] acquainted))) as [E _].
  - reflexivity.
  - repeat constructor; cbn; intuition congruence.
  - repeat constructor; cbn; intuition congruence.
  - rewrite E. split; reflexivity.
Defined.

End Statistics.

(* ================================================================== *)
(** * Start-up and liveness *)
(* ================================================================== *)

Section Startup.

Import Neo4jMemory.

Lemma substring_prefix (p post : string) :
  substring 0 (String.length p) (p ++ post) = p.
Proof.
  induction p as [|c p IH]; cbn.
  - now destruct post.
  - now rewrite IH.
Qed.

Lemma substring_inside (pre p post : string) :
  substring (String.length pre) (String.length p) (pre ++ p ++ post) = p.
Proof.
  induction pre as [|c pre IH]; cbn [String.length append substring].
  - apply substring_prefix.
  - exact IH.
Qed.

Lemma includes_inside (pre p post : string) :
  p <> EmptyString -> includes p (pre ++ p ++ post) = true.
Proof.
  intros Hp. unfold includes.
  destruct (String.index 0 p (pre ++ p ++ post)) eqn:E; [reflexivity|].
  exfalso. apply (index_correct3 0 (String.length pre) p _ E Hp); [lia|].
  apply substring_inside.
Qed.

Lemma truthy_inside (pre p post : string) :
  p <> EmptyString -> truthy (Some (pre ++ p ++ post)%string) = true.
Proof.
  intros Hp. cbn. destruct pre; cbn; [|reflexivity].
  destruct p; [contradiction | reflexivity].
Qed.

(** Two round trips on a store that does not fail. *)
Lemma healthy_twice (s : Store) :
  healthy s ->
  faults s = [] \/ faults s = [false] \/ exists fs, faults s = false :: false :: fs.
Proof.
  intros Hs. unfold healthy in Hs. destruct (faults s) as [|[|] [|[|] fs]]; cbn in Hs; try discriminate.
  - now left.
  - right. now left.
  - right. right. now exists fs.
Qed.

(** X15.  [testConnection] never throws: it answers [false] exactly when the
    connectivity round trip fails, [true] otherwise, and leaves the graph as
    it is. *)
Theorem testConnection_never_throws (s : Store) :
  outcome testConnection s = Ok (negb (hd false (faults s))) /\
  graph_after testConnection s = graph s.
Proof.
  unfold outcome, graph_after, testConnection, try_catch, bind, verifyConnectivity, run, ret.
  destruct (faults s) as [|[|] fs]; split; reflexivity.
Qed.

(** X16.  On a store whose round trips succeed, [initialize] settles
    quietly when creating the index fails with a message that contains
    ['An index with this name already exists'], wherever in the message,
    and fails with the very error of the server when the message does not
    contain it; the graph is the same afterwards in both cases. *)
Theorem initialize_tolerates_existing_index (pre post : string) (s : Store) :
  healthy s ->
  outcome (initialize
             (Throw (pre ++ "An index with this name already exists" ++ post))) s = Ok tt /\
  (forall message,
     includes "An index with this name already exists" message = false ->
     outcome (initialize (Throw message)) s = Throw message) /\
  (forall answer, graph_after (initialize answer) s = graph s).
Proof.
  intros Hs. pose proof (healthy_twice s Hs) as Hf.
  assert (Hp : "An index with this name already exists"%string <> EmptyString)
    by discriminate.
  pose proof (includes_inside pre _ post Hp) as Hinc.
  pose proof (truthy_inside pre _ post Hp) as Htr.
  unfold outcome, graph_after, initialize, createFulltextIndex, try_catch, try_finally,
    bind, verifyConnectivity, run, close, ret, throw, createFulltextIndex_tx.
  repeat apply conj.
  - destruct Hf as [E | [E | [fs E]]]; rewrite E; cbn [tl faults graph index fst snd];
      rewrite Hinc, Htr; reflexivity.
  - intros message Hm.
    destruct Hf as [E | [E | [fs E]]]; rewrite E; cbn [tl faults graph index fst snd];
      rewrite Hm, andb_false_r; reflexivity.
  - intros answer.
    destruct Hf as [E | [E | [fs E]]]; rewrite E; cbn [tl faults graph index fst snd];
      destruct answer as [[]|message]; cbn [tl faults graph index fst snd];
      try reflexivity;
      destruct (truthy (Some message)
                && includes "An index with this name already exists" message);
      reflexivity.
Qed.

Lemma initialize_tolerates_existing_index_witness :
  outcome (initialize
             (Throw ("Neo.ClientError: " ++ "An index with this name already exists"
                     ++ " (search)"))) people = Ok tt.
Proof.
  apply (initialize_tolerates_existing_index "Neo.ClientError: " " (search)" people).
  reflexivity.
Defined.

End Startup.

(* ================================================================== *)
(** * The deleting tools *)
(* ================================================================== *)

Section DeletingTools.

Import Neo4jMemory.

Lemma tool_answers {A} (method : M A) (text : string) (s : Store) (a : A) :
  outcome method s = Ok a ->
  try_catch (bind method (fun _ => ret text)) (fun error => throw error) s
  = (fst (method s), Ok text).
Proof.
  unfold outcome, try_catch, bind, ret. destruct (method s) as [s' [a'|e]]; cbn.
  - reflexivity.
  - discriminate.
Qed.

Lemma tool_rethrows {A} (method : M A) (text : string) (s : Store) (e : string) :
  outcome method s = Throw e ->
  try_catch (bind method (fun _ => ret text)) (fun error => throw error) s
  = (fst (method s), Throw e).
Proof.
  unfold outcome, try_catch, bind, ret, throw. destruct (method s) as [s' [a'|e']]; cbn.
  - discriminate.
  - now intros [= ->].
Qed.

(** X17.  On a store whose round trips succeed, each of the tools
    [delete_entities], [delete_observations] and [delete_relations] answers
    with its success text whatever it is given, also when nothing it names
    exists, and leaves the store as the method of [Neo4jMemory] it calls
    does. *)
Theorem delete_tools_answer_success
  (entityNames : list string) (deletions : list ObservationDeletion)
  (relations : list Relation) (s : Store) :
  healthy s ->
  Server.delete_entities entityNames s
    = (fst (deleteEntities entityNames s), Ok "Entities deleted successfully") /\
  Server.delete_observations deletions s
    = (fst (deleteObservations deletions s), Ok "Observations deleted successfully") /\
  Server.delete_relations relations s
    = (fst (deleteRelations relations s), Ok "Relations deleted successfully").
Proof.
  intros Hs. unfold Server.delete_entities, Server.delete_observations,
    Server.delete_relations.
  repeat apply conj.
  - apply (tool_answers _ _ s tt). now destruct (deleteEntities_healthy entityNames s Hs).
  - apply (tool_answers _ _ s tt). now destruct (deleteObservations_healthy deletions s Hs).
  - apply (tool_answers _ _ s tt). now destruct (deleteRelations_healthy relations s Hs).
Qed.

Lemma delete_tools_answer_success_witness :
  Server.delete_entities ["Ghost1"] people = (people, Ok "Entities deleted successfully").
Proof.
  destruct (delete_tools_answer_success ["Ghost1"] [] [] people) as [E _].
  - reflexivity.
  - rewrite E. reflexivity.
Defined.

(** X18.  When the coming round trip fails, [delete_entities] and
    [delete_observations] throw the error of the driver, also for an empty
    list, and so does [delete_relations] for a list that is not empty; for
    the empty list [delete_relations] makes no round trip and answers with
    its success text.  The graph is as it was in every case. *)
Theorem delete_tools_pass_errors_on
  (entityNames : list string) (deletions : list ObservationDeletion)
  (relation : Relation) (relations : list Relation) (s : Store) (rest : list bool) :
  faults s = true :: rest ->
  Server.delete_entities entityNames s
    = (mkStore (graph s) (index s) rest, Throw "ServiceUnavailable") /\
  Server.delete_observations deletions s
    = (mkStore (graph s) (index s) rest, Throw "ServiceUnavailable") /\
  Server.delete_relations (relation :: relations) s
    = (mkStore (graph s) (index s) rest, Throw "ServiceUnavailable") /\
  Server.delete_relations [] s = (s, Ok "Relations deleted successfully").
Proof.
  intros E.
  unfold Server.delete_entities, Server.delete_observations, Server.delete_relations,
    deleteEntities, deleteObservations, deleteRelations, try_catch, bind, throw.
  rewrite !try_finally_close. cbn [for_of]. unfold bind.
  rewrite !(run_fault _ s rest E). repeat apply conj; reflexivity.
Qed.

Lemma delete_tools_pass_errors_on_witness :
  Server.delete_relations [knows]
    (mkStore (graph acquainted) match_all [true])
  = (mkStore (graph acquainted) match_all [], Throw "ServiceUnavailable").
Proof.
  apply (delete_tools_pass_errors_on [] [] knows []
           (mkStore (graph acquainted) match_all [true]) []).
  reflexivity.
Defined.

End DeletingTools.

(* ================================================================== *)
(** * API keys from the environment *)
(* ================================================================== *)

Section ApiKeys.

Import Main.

Lemma split_nonempty (sep : ascii) (s : string) : split sep s <> [].
Proof.
  induction s as [|c s IH]; cbn [split]; [discriminate|].
  destruct (Ascii.eqb c sep); [discriminate|].
  destruct (split sep s); discriminate.
Qed.

(** Splitting around a separator splits both sides. *)
Lemma split_app (sep : ascii) (a b : string) :
  split sep (a ++ String sep b) = split sep a ++ split sep b.
Proof.
  induction a as [|c a IH]; cbn [append split].
  - now rewrite Ascii.eqb_refl.
  - rewrite IH. destruct (Ascii.eqb c sep); [reflexivity|].
    pose proof (split_nonempty sep a) as Hne.
    destruct (split sep a) as [|piece pieces]; [contradiction | reflexivity].
Qed.

(** X19.  [main] hands every piece of a non-empty [API_KEYS] to the API key
    provider, blank pieces included: the list it passes is never empty, so
    the constructor's test of its length never holds a provider back, and a
    comma at either end of [API_KEYS] yields the empty string as a key.  The provider built from those keys is then among the manager's
    providers and authentication is on. *)
Theorem main_passes_blank_keys
  (newOAuthProvider : string -> option string -> result Auth.AuthProvider)
  (newApiKeyProvider : list string -> result Auth.AuthProvider)
  (DESCOPE_PROJECT_ID DESCOPE_MANAGEMENT_KEY : option string)
  (API_KEYS : string) (provider : Auth.AuthProvider) :
  API_KEYS <> EmptyString ->
  newApiKeyProvider (map trim (split comma API_KEYS)) = Ok provider ->
  apiKeys_of (Some API_KEYS) = Some (map trim (split comma API_KEYS)) /\
  map trim (split comma API_KEYS) <> [] /\
  (forall a, API_KEYS = (a ++ String comma EmptyString)%string \/
             API_KEYS = String comma a ->
             In EmptyString (map trim (split comma API_KEYS))) /\
  In provider
     (Auth.providers
        (snd (authManager_of newOAuthProvider newApiKeyProvider
                DESCOPE_PROJECT_ID DESCOPE_MANAGEMENT_KEY (Some API_KEYS)))) /\
  Auth.isAuthEnabled
    (snd (authManager_of newOAuthProvider newApiKeyProvider
            DESCOPE_PROJECT_ID DESCOPE_MANAGEMENT_KEY (Some API_KEYS))) = true.
Proof.
  intros Hne Hnew.
  assert (Ekeys : apiKeys_of (Some API_KEYS) = Some (map trim (split comma API_KEYS))).
  { unfold apiKeys_of, truthy. apply String.eqb_neq in Hne. now rewrite Hne. }
  assert (Hsome : map trim (split comma API_KEYS) <> []).
  { pose proof (split_nonempty comma API_KEYS) as H.
    destruct (split comma API_KEYS); [contradiction | discriminate]. }
  assert (Hin : In provider
     (Auth.providers
        (snd (authManager_of newOAuthProvider newApiKeyProvider
                DESCOPE_PROJECT_ID DESCOPE_MANAGEMENT_KEY (Some API_KEYS))))).
  { unfold authManager_of. rewrite Ekeys. unfold Auth.constructor.
    destruct (map trim (split comma API_KEYS)) as [|k ks] eqn:Ek; [contradiction|].
    cbn [List.length Nat.ltb Nat.leb]. rewrite Hnew.
    destruct DESCOPE_PROJECT_ID as [projectId|]; cbn [Auth.providers snd].
    - destruct (truthy (Some projectId)); cbn [Auth.providers snd].
      + destruct (newOAuthProvider projectId DESCOPE_MANAGEMENT_KEY);
          cbn [Auth.providers snd]; apply in_or_app; right; now left.
      + now left.
    - now left. }
  repeat apply conj; try assumption.
  - intros a [-> | ->].
    + rewrite split_app, map_app. apply in_or_app. right. now left.
    + cbn [split]. unfold comma at 1 2. rewrite Ascii.eqb_refl. now left.
  - unfold Auth.isAuthEnabled.
    destruct (Auth.providers _); [contradiction | reflexivity].
Qed.

(** [API_KEYS] with a no-break space before the second key and a comma at
    the end. *)
Lemma main_passes_blank_keys_witness :
  apiKeys_of (Some ("k1," ++ utf8 [194; 160] ++ " k2 ,")%string)
  = Some ["k1"; "k2"; EmptyString] /\
  Auth.isAuthEnabled
    (snd (authManager_of (fun _ _ => Throw "no project") (fun _ => Ok keys12)
            None None (Some ("k1," ++ utf8 [194; 160] ++ " k2 ,")%string))) = true.
Proof.
  destruct (main_passes_blank_keys (fun _ _ => Throw "no project") (fun _ => Ok keys12)
              None None ("k1," ++ utf8 [194; 160] ++ " k2 ,")%string keys12)
    as [E [_ [_ [_ H]]]].
  - discriminate.
  - reflexivity.
  - split; [exact E | exact H].
Defined.

End ApiKeys.

(* ================================================================== *)
(** * Adding the same observations again *)
(* ================================================================== *)

Section RepeatedAdditions.

Import Neo4jMemory.

Lemma addObservations_stays_healthy (observations : list ObservationAddition) (s : Store) :
  healthy s -> healthy (fst (addObservations observations s)).
Proof.
  intros Hs. unfold addObservations. rewrite try_finally_close, rebuild_additions.
  unfold bind.
  destruct (run_healthy (addObservations_tx observations) s _ _ Hs eq_refl) as [E H].
  rewrite E. exact H.
Qed.

Lemma after_additions_targets (observations : list ObservationAddition) (n : Node)
  (obs : ObservationAddition) :
  targets (after_additions observations n) obs = targets n obs.
Proof. unfold after_additions. now destruct (filter _ _). Qed.

Lemma after_additions_id (observations : list ObservationAddition) (n : Node) :
  node_id (after_additions observations n) = node_id n.
Proof. unfold after_additions. now destruct (filter _ _). Qed.

(** Once a pair's contents were added to an entity, none of them is new to
    it. *)
Lemma nothing_new (observations : list ObservationAddition) (n : Node)
  (obs : ObservationAddition) :
  In obs observations -> targets n obs = true ->
  not_in (coalesce (p_observations (after_additions observations n))) (contents obs) = [].
Proof.
  intros Hin Ht. unfold after_additions.
  assert (Hhit : In obs (filter (targets n) observations)) by (apply filter_In; now split).
  destruct (filter (targets n) observations) as [|h hits] eqn:E; [contradiction|].
  cbn [set_observations p_observations coalesce]. unfold not_in at 1.
  apply filter_none, Forall_forall. intros o Ho. apply negb_false_iff.
  rewrite mem_app. destruct (mem o (coalesce (p_observations n))) eqn:Eo; [reflexivity|].
  cbn [orb]. apply mem_In, in_flat_map. exists obs. split; [exact Hhit|].
  unfold not_in. apply filter_In. split; [exact Ho | now rewrite Eo].
Qed.

Lemma after_additions_twice (observations : list ObservationAddition) (n : Node) :
  after_additions observations (after_additions observations n)
  = after_additions observations n.
Proof.
  unfold after_additions at 1.
  rewrite (filter_ext _ (targets n) (after_additions_targets observations n)).
  destruct (filter (targets n) observations) as [|h hits] eqn:E.
  - unfold after_additions. now rewrite E.
  - assert (Hnone : flat_map
                      (fun obs => not_in (coalesce (p_observations
                                                      (after_additions observations n)))
                                         (contents obs)) (h :: hits) = []).
    { apply flat_map_nil. intros obs Hobs. rewrite <- E in Hobs.
      apply filter_In in Hobs. now apply nothing_new. }
    rewrite Hnone, app_nil_r. unfold after_additions. rewrite E.
    reflexivity.
Qed.

(** X20.  Adding the same batch of observations a second time, on a store
    whose round trips succeed, changes nothing and reports nothing as added:
    the result has the same length as the first, each element with an empty
    list. *)
Theorem addObservations_again_adds_nothing
  (observations : list ObservationAddition) (s : Store) :
  healthy s ->
  NoDup (map node_id (nodes (graph s))) ->
  graph_after (addObservations observations) (fst (addObservations observations s))
  = graph_after (addObservations observations) s /\
  exists first again,
    outcome (addObservations observations) s = Ok first /\
    outcome (addObservations observations) (fst (addObservations observations s)) = Ok again /\
    map a_entityName again = map a_entityName first /\
    Forall (fun a => addedObservations a = []) again.
Proof.
  intros Hs Hnd.
  pose proof (addObservations_stays_healthy observations s Hs) as Hs'.
  destruct (addObservations_healthy observations s Hs) as [Eg Eo].
  destruct (addObservations_healthy observations _ Hs') as [Eg' Eo'].
  fold (graph_after (addObservations observations) s) in Eg', Eo'.
  assert (E : graph_after (addObservations observations) s =
              mkGraph (map (after_additions observations) (nodes (graph s)))
                      (rels (graph s)) (next_id (graph s))).
  { now rewrite Eg, addObservations_nodes. }
  assert (Hmatch : forall name,
            match_memory name (graph_after (addObservations observations) s) =
            map (after_additions observations) (match_memory name (graph s))).
  { intros name. rewrite E. unfold match_memory. cbn [nodes].
    apply filter_map_commute. intros n _.
    apply (after_additions_targets observations n (mkObservationAddition name [])). }
  split.
  - rewrite Eg', E. rewrite addObservations_nodes; cbn [nodes rels next_id].
    + f_equal. rewrite map_map. apply map_ext. intros n. apply after_additions_twice.
    + rewrite map_map. erewrite map_ext; [exact Hnd|]. apply after_additions_id.
  - exists (reported observations (graph s)),
           (reported observations (graph_after (addObservations observations) s)).
    split; [exact Eo|]. split; [exact Eo'|]. unfold reported. split.
    + rewrite !flat_map_concat_map, !concat_map, !map_map. f_equal.
      apply map_ext. intros obs. rewrite Hmatch, !map_map. reflexivity.
    + apply Forall_forall. intros a Ha. apply in_flat_map in Ha.
      destruct Ha as [obs [Hobs Ha]]. rewrite Hmatch in Ha.
      apply in_map_iff in Ha. destruct Ha as [e [<- He]].
      apply in_map_iff in He. destruct He as [n [<- Hn]].
      cbn [addedObservations]. apply nothing_new; [exact Hobs|].
      apply match_memory_In in Hn. destruct Hn as [_ [Hl Hp]].
      unfold targets. rewrite Hl, Hp. cbn. apply String.eqb_refl.
Qed.

Lemma addObservations_again_adds_nothing_witness :
  graph_after (addObservations [mkObservationAddition "Alice" ["likes tea"; "reads"]])
    (fst (addObservations [mkObservationAddition "Alice" ["likes tea"; "reads"]] people))
  = graph_after (addObservations [mkObservationAddition "Alice" ["likes tea"; "reads"]])
      people.
Proof.
  apply (addObservations_again_adds_nothing
           [mkObservationAddition "Alice" ["likes tea"; "reads"]] people).
  - reflexivity.
  - repeat constructor; cbn; intuition congruence.
Defined.

End RepeatedAdditions.

(* ================================================================== *)
(** * Creating entities that exist *)
(* ================================================================== *)

Section Overwrites.

Import Neo4jMemory.

Lemma same_identity (l : list Node) (a b : Node) :
  NoDup (map node_id l) -> In a l -> In b l -> node_id a = node_id b -> a = b.
Proof.
  induction l as [|x l IH]; intros Hnd Ha Hb E; [contradiction|].
  cbn [map] in Hnd. apply NoDup_cons_iff in Hnd. destruct Hnd as [Hx Hnd].
  destruct Ha as [-> | Ha], Hb as [-> | Hb].
  - reflexivity.
  - exfalso. apply Hx. rewrite E. now apply in_map.
  - exfalso. apply Hx. rewrite <- E. now apply in_map.
  - now apply IH.
Qed.

Lemma last_entity_app (rows rows' : list (nat * Entity)) (id : nat) (acc : option Entity) :
  last_entity (rows ++ rows') id acc = last_entity rows' id (last_entity rows id acc).
Proof. unfold last_entity. apply fold_left_app. Qed.

Lemma last_entity_map (entity : Entity) (ms : list Node) (id : nat) (acc : option Entity) :
  last_entity (map (fun m => (node_id m, entity)) ms) id acc =
  if existsb (fun m => Nat.eqb id (node_id m)) ms then Some entity else acc.
Proof.
  revert acc. induction ms as [|m ms IH]; intros acc; [reflexivity|].
  cbn [map existsb]. unfold last_entity in *. cbn [fold_left fst snd]. rewrite IH.
  destruct (Nat.eqb id (node_id m)), (existsb (fun m0 => Nat.eqb id (node_id m0)) ms);
    reflexivity.
Qed.

(** Among nodes with unique identities, a pattern binds the node's identity
    exactly when it matches the node. *)
Lemma bound_here (name : string) (g : Graph) (n : Node) :
  NoDup (map node_id (nodes g)) -> In n (nodes g) ->
  existsb (fun m => Nat.eqb (node_id n) (node_id m)) (match_memory name g) =
  (has_label "Memory" n && option_string_eqb (p_name n) (Some name))%bool.
Proof.
  intros Hnd Hin.
  destruct (has_label "Memory" n && option_string_eqb (p_name n) (Some name))%bool eqn:E.
  - apply existsb_exists. exists n. split; [|apply Nat.eqb_refl].
    unfold match_memory. apply filter_In. now split.
  - apply not_true_is_false. intros H. apply existsb_exists in H.
    destruct H as [m [Hm Eid]]. apply Nat.eqb_eq in Eid.
    unfold match_memory in Hm. apply filter_In in Hm. destruct Hm as [Hm Hp].
    rewrite (same_identity (nodes g) n m Hnd Hin Hm Eid) in E. congruence.
Qed.

Lemma last_entity_named (entities : list Entity) (g : Graph) (n : Node)
  (acc : option Entity) :
  NoDup (map node_id (nodes g)) -> In n (nodes g) ->
  last_entity (rows_in entities g) (node_id n) acc =
  if has_label "Memory" n then
    match p_name n with
    | Some nm => last_named nm entities acc
    | None => acc
    end
  else acc.
Proof.
  intros Hnd Hin. revert acc. induction entities as [|entity rest IH]; intros acc.
  - cbn. now destruct (has_label "Memory" n), (p_name n).
  - unfold rows_in in *. cbn [flat_map]. rewrite last_entity_app, IH, last_entity_map.
    rewrite (bound_here _ g n Hnd Hin).
    destruct (has_label "Memory" n); cbn [andb]; [|reflexivity].
    destruct (p_name n) as [nm|]; cbn [option_string_eqb]; [|reflexivity].
    unfold last_named. cbn [fold_left]. now rewrite (String.eqb_sym (name entity) nm).
Qed.

(** X21.  On a store whose round trip succeeds, [createEntities] with a
    batch all of whose names exist creates no node and touches no
    relationship: every entity the batch names has its type and its
    observations replaced by those of the last entity of the batch that
    carries its name, observations it held before included, and gains the
    label the query carries; all other nodes are as they were. *)
Theorem createEntities_overwrites_existing (entities : list Entity) (s : Store) :
  healthy s ->
  well_formed (graph s) ->
  Forall (fun entity => entity_exists (graph s) (name entity) = true) entities ->
  graph_after (createEntities entities) s =
    mkGraph (map (after_upsert entities) (nodes (graph s)))
            (rels (graph s)) (next_id (graph s)) /\
  (forall n nm entity,
     In n (nodes (graph s)) -> has_label "Memory" n = true -> p_name n = Some nm ->
     last_named nm entities None = Some entity ->
     exists n',
       In n' (nodes (graph_after (createEntities entities) s)) /\
       node_id n' = node_id n /\
       p_type n' = Some (type entity) /\
       p_observations n' = Some (observations entity)).
Proof.
  intros Hs [Hnd Hlt] Hall.
  destruct (createEntities_healthy entities s Hs) as [E _].
  assert (Hpresent : Forall (fun entity => match_memory (name entity) (graph s) <> [])
                            entities).
  { eapply Forall_impl; [|exact Hall]. intros entity H. unfold entity_exists in H.
    now destruct (match_memory (name entity) (graph s)). }
  assert (Eg : graph_after (createEntities entities) s =
               mkGraph (map (after_upsert entities) (nodes (graph s)))
                       (rels (graph s)) (next_id (graph s))).
  { unfold graph_after. rewrite E. cbn [fst graph]. unfold create_entities.
    rewrite (merge_rows_present entities (graph s) Hpresent). cbn [fst snd].
    rewrite fold_set_entity_nodes. f_equal. apply map_ext_in. intros n Hin.
    rewrite (last_entity_named entities (graph s) n None Hnd Hin).
    unfold after_upsert.
    destruct (has_label "Memory" n); [|reflexivity]. now destruct (p_name n). }
  split; [exact Eg|].
  intros n nm entity Hin Hl Hp Hlast. exists (after_upsert entities n).
  rewrite Eg. cbn [nodes]. split; [now apply in_map|].
  unfold after_upsert. rewrite Hl, Hp, Hlast. cbn [written].
  unfold write_entity, add_label, set_properties.
  destruct (has_label query_label _); cbn; repeat apply conj; reflexivity.
Qed.

Lemma createEntities_overwrites_existing_witness :
  map p_observations
      (nodes (graph_after
                (createEntities [mkEntity "Alice" "Cat" []; mkEntity "Alice" "Dog" ["barks"]])
                people))
  = [Some ["barks"]; Some []].
Proof.
  destruct (createEntities_overwrites_existing
              [mkEntity "Alice" "Cat" []; mkEntity "Alice" "Dog" ["barks"]] people)
    as [E _].
  - reflexivity.
  - split; [repeat constructor; cbn; intuition congruence | repeat constructor].
  - repeat constructor.
  - rewrite E. reflexivity.
Defined.

End Overwrites.

(* ================================================================== *)
(** * The status resource *)
(* ================================================================== *)

Section Status.

Import Neo4jMemory.

Lemma getStats_fault (s : Store) (rest : list bool) :
  faults s = true :: rest ->
  getStats s = (mkStore (graph s) (index s) rest, Throw "ServiceUnavailable").
Proof.
  intros E. unfold getStats. rewrite try_finally_close. unfold bind.
  now rewrite (run_fault _ s rest E).
Qed.

(** X22.  The status resource asks for the statistics before it tests the
    connection.  So when the coming round trip fails, loading it fails with
    the driver's error instead of reporting a lost connection; it reports
    [connected: false] only when the database answered the statistics and
    failed the test that followed, and [connected: true] on a store whose
    round trips succeed. *)
Theorem status_reports_after_statistics (s : Store) :
  (forall rest, faults s = true :: rest ->
                outcome Server.status_neo4j s = Throw "ServiceUnavailable") /\
  (forall stats, outcome Server.status_neo4j s = Ok (false, stats) ->
                 exists rest, faults s = false :: true :: rest) /\
  (healthy s -> exists stats, outcome Server.status_neo4j s = Ok (true, stats)).
Proof.
  repeat apply conj.
  - intros rest E. unfold outcome, Server.status_neo4j, bind.
    now rewrite (getStats_fault s rest E).
  - intros stats. unfold outcome, Server.status_neo4j, bind, getStats.
    rewrite try_finally_close. unfold bind, run, getStats_tx, testConnection, try_catch,
      bind, verifyConnectivity, run, ret.
    destruct (faults s) as [|[|] [|[|] rest]]; cbn; try discriminate.
    intros _. now exists rest.
  - intros Hs. unfold outcome, Server.status_neo4j, bind. rewrite (getStats_healthy s Hs).
    cbn [getStats_tx]. unfold testConnection, try_catch, bind, verifyConnectivity, run, ret.
    cbn [faults graph index].
    unfold healthy in Hs. destruct (faults s) as [|[|] [|[|] rest]]; cbn in Hs |- *;
      try discriminate; eexists; reflexivity.
Qed.

End Status.

(* ================================================================== *)
(** * Entities are deleted *)
(* ================================================================== *)

Section RemovedEntities.

Import Neo4jMemory.

Lemma fold_detach_delete_all (ids : list nat) (g : Graph) :
  fold_left detach_delete ids g =
  mkGraph (filter (fun n => negb (is_in (node_id n) ids)) (nodes g))
          (filter (fun r => negb (is_in (startNode r) ids || is_in (endNode r) ids))
                  (rels g))
          (next_id g).
Proof.
  revert g. induction ids as [|id ids IH]; intros g.
  - cbn. rewrite !filter_all. now destruct g.
  - cbn [fold_left]. rewrite IH. unfold detach_delete, incident, is_in.
    cbn [nodes rels next_id existsb]. rewrite !filter_twice. f_equal.
    + apply filter_ext. intros n.
      now destruct (Nat.eqb (node_id n) id), (existsb (Nat.eqb (node_id n)) ids).
    + apply filter_ext. intros r.
      now destruct (Nat.eqb (startNode r) id), (Nat.eqb (endNode r) id),
        (existsb (Nat.eqb (startNode r)) ids), (existsb (Nat.eqb (endNode r)) ids).
Qed.

Lemma is_in_In (id : nat) (ids : list nat) : is_in id ids = true <-> In id ids.
Proof.
  unfold is_in. rewrite existsb_exists. split.
  - intros [x [Hx E]]. apply Nat.eqb_eq in E. now subst.
  - intros H. exists id. split; [exact H | apply Nat.eqb_refl].
Qed.

(** X23.  On a store whose round trip succeeds, [deleteEntities] removes
    exactly the nodes the names are bound to and the relationships that
    start or end at one of them.  Afterwards no entity carries any of the
    names, and when every relationship had both its ends in the graph
    before, every relationship left still has. *)
Theorem deleteEntities_detaches (entityNames : list string) (s : Store) :
  healthy s ->
  graph_after (deleteEntities entityNames) s =
    mkGraph (filter (fun n => negb (is_in (node_id n) (deleted_ids entityNames (graph s))))
                    (nodes (graph s)))
            (filter (fun r => negb (is_in (startNode r) (deleted_ids entityNames (graph s))
                                    || is_in (endNode r) (deleted_ids entityNames (graph s))))
                    (rels (graph s)))
            (next_id (graph s)) /\
  Forall (fun name => entity_exists (graph_after (deleteEntities entityNames) s) name = false)
         entityNames /\
  (attached (graph s) -> attached (graph_after (deleteEntities entityNames) s)).
Proof.
  intros Hs. destruct (deleteEntities_healthy entityNames s Hs) as [E _].
  rewrite E, fold_detach_delete_all. repeat apply conj.
  - reflexivity.
  - apply Forall_forall. intros name Hname. unfold entity_exists, match_memory.
    cbn [nodes]. rewrite filter_twice, filter_none; [reflexivity|].
    apply Forall_forall. intros n Hn.
    destruct (has_label "Memory" n && option_string_eqb (p_name n) (Some name))%bool eqn:Em;
      [|apply andb_false_r].
    rewrite andb_true_r. apply negb_false_iff, is_in_In.
    unfold deleted_ids. apply in_flat_map. exists name. split; [exact Hname|].
    apply in_map. unfold match_memory. apply filter_In. now split.
  - unfold attached. cbn [nodes rels]. rewrite !Forall_forall. intros Hatt r Hr.
    apply filter_In in Hr. destruct Hr as [Hr Hkept].
    apply negb_true_iff, orb_false_iff in Hkept. destruct Hkept as [Hstart Hend].
    destruct (Hatt r Hr) as [H1 H2]. apply is_in_In, in_map_iff in H1, H2.
    destruct H1 as [a [Ea Ha]], H2 as [b [Eb Hb]].
    split; apply is_in_In, in_map_iff.
    + exists a. split; [exact Ea|]. apply filter_In. split; [exact Ha|].
      now rewrite Ea, Hstart.
    + exists b. split; [exact Eb|]. apply filter_In. split; [exact Hb|].
      now rewrite Eb, Hend.
Qed.

Lemma deleteEntities_detaches_witness :
  graph_after (deleteEntities ["Alice"]) acquainted =
  mkGraph (filter (fun n => negb (Nat.eqb (node_id n) 0)) (nodes (graph acquainted)))
          [] (next_id (graph acquainted)).
Proof.
  destruct (deleteEntities_detaches ["Alice"] acquainted) as [E _].
  - reflexivity.
  - rewrite E. reflexivity.
Defined.

End RemovedEntities.

(* ================================================================== *)
(** * When observations stay distinct *)
(* ================================================================== *)

Section StoredTwice.

Import Neo4jMemory.

Lemma bind_ret_fst {A B} (m : M A) (f : A -> B) (s : Store) :
  fst (bind m (fun a => ret (f a)) s) = fst (m s).
Proof. unfold bind, ret. now destruct (m s) as [s' [a|e]]. Qed.

Lemma run_store {A} (tx : FulltextIndex -> Graph -> result (Graph * A))
  (s : Store) (g' : Graph) (a : A) :
  tx (index s) (graph s) = Ok (g', a) ->
  fst (run tx s) =
  mkStore (if fails s then graph s else g') (index s) (tl (faults s)).
Proof.
  intros E. unfold run, fails. destruct (faults s) as [|[|] fs]; rewrite ?E; reflexivity.
Qed.

(** One call: the graph is as it was when the round trip fails, and as the
    query leaves it otherwise. *)
Lemma call_store (c : Call) (s : Store) :
  call c s =
  mkStore (if fails s then graph s else effect c (graph s)) (index s) (tl (faults s)).
Proof.
  destruct c as [entities | observations | deletions]; cbn [call effect].
  - unfold createEntities. rewrite try_finally_close, rebuild_entities.
    rewrite (bind_ret_fst _ (fun _ => entities)).
    apply run_store with (a := tt). apply createEntities_tx_step.
  - unfold addObservations. rewrite try_finally_close, rebuild_additions.
    rewrite (bind_ret_fst _
               (map (fun record : string * list string =>
                       mkAdded (fst record) (snd record)))).
    eapply run_store. reflexivity.
  - unfold deleteObservations. rewrite try_finally_close, rebuild_deletions.
    apply run_store with (a := tt). reflexivity.
Qed.

Lemma after_additions_observations (observations : list ObservationAddition) (n : Node) :
  coalesce (p_observations (after_additions observations n)) =
  coalesce (p_observations n) ++ added_to observations n.
Proof.
  unfold after_additions, added_to.
  destruct (filter (targets n) observations); [now rewrite app_nil_r | reflexivity].
Qed.

Lemma added_to_new (observations : list ObservationAddition) (n : Node) (x : string) :
  In x (coalesce (p_observations n)) -> ~ In x (added_to observations n).
Proof.
  intros Hx Hin. unfold added_to in Hin. apply in_flat_map in Hin.
  destruct Hin as [obs [_ Hin]]. unfold not_in in Hin. apply filter_In in Hin.
  destruct Hin as [_ Hneg]. apply negb_true_iff in Hneg.
  apply mem_In in Hx. congruence.
Qed.

Lemma addObservations_exact (observations : list ObservationAddition) (g : Graph) :
  sound g ->
  observations_distinct (effect (AddObservations observations) g) <->
  stores_distinct g (AddObservations observations).
Proof.
  intros [[Hnd _] Hd]. cbn [effect stores_distinct].
  rewrite (addObservations_nodes observations g Hnd).
  unfold observations_distinct in *. cbn [nodes].
  rewrite Forall_forall in Hd. rewrite !Forall_forall. split.
  - intros H n Hn.
    specialize (H (after_additions observations n) (in_map _ _ _ Hn)).
    rewrite after_additions_observations in H. now apply NoDup_app_remove_l in H.
  - intros H n' Hn'. apply in_map_iff in Hn'. destruct Hn' as [n [<- Hn]].
    rewrite after_additions_observations.
    apply NoDup_app; [now apply Hd | now apply H | ].
    intros x. apply added_to_new.
Qed.

Lemma last_named_from (nm : string) (entities : list Entity) (acc : option Entity)
  (entity : Entity) :
  last_named nm entities acc = Some entity ->
  acc = Some entity \/ (In entity entities /\ name entity = nm).
Proof.
  revert acc. induction entities as [|e rest IH]; intros acc H; [now left|].
  unfold last_named in *. cbn [fold_left] in H. apply IH in H.
  destruct H as [H | [Hin Hname]]; [|right; split; [now right | exact Hname]].
  destruct (String.eqb (name e) nm) eqn:E; [|now left].
  injection H as <-. right. split; [now left | now apply String.eqb_eq].
Qed.

(** What [createEntities]' query leaves: the nodes there were and those
    merged in, upserted. *)
Lemma create_entities_upsert (entities : list Entity) (g : Graph) :
  well_formed g ->
  create_entities entities g =
  mkGraph (map (after_upsert entities) (nodes (fst (merge_rows entities g))))
          (rels (fst (merge_rows entities g)))
          (next_id (fst (merge_rows entities g))).
Proof.
  intros Hg. unfold create_entities.
  destruct (merge_rows_binds entities g) as [Hrows _].
  pose proof (merge_rows_well_formed entities g Hg) as [Hnd _].
  rewrite Hrows, fold_set_entity_nodes. f_equal. apply map_ext_in. intros n Hin.
  rewrite (last_entity_named entities _ n None Hnd Hin). unfold after_upsert.
  destruct (has_label "Memory" n); [|reflexivity]. now destruct (p_name n).
Qed.

Lemma write_entity_observations (entity : Entity) (n : Node) :
  p_observations (write_entity entity n) = Some (observations entity).
Proof. unfold write_entity. now rewrite add_label_observations. Qed.

Lemma createEntities_exact (entities : list Entity) (g : Graph) :
  sound g ->
  observations_distinct (effect (CreateEntities entities) g) <->
  stores_distinct g (CreateEntities entities).
Proof.
  intros Hg. pose proof Hg as [Hwf _]. cbn [effect stores_distinct].
  rewrite (create_entities_upsert entities g Hwf).
  destruct (merge_rows_sound entities g Hg) as [[_ Hd1] _].
  destruct (merge_rows_binds entities g) as [_ Hall].
  unfold observations_distinct in *. cbn [nodes].
  rewrite Forall_forall in Hd1, Hall. rewrite Forall_forall. split.
  - intros H nm entity Hlast.
    destruct (last_named_from nm entities None entity Hlast) as [Hnone | [Hin Hname]];
      [discriminate|].
    specialize (Hall entity Hin).
    destruct (match_memory (name entity) (fst (merge_rows entities g))) as [|n ns] eqn:E;
      [contradiction|].
    assert (Hn : In n (match_memory (name entity) (fst (merge_rows entities g))))
      by (rewrite E; now left).
    apply match_memory_In in Hn. destruct Hn as [Hn [Hlabel Hp]].
    specialize (H (after_upsert entities n) (in_map _ _ _ Hn)).
    unfold after_upsert in H. rewrite Hlabel, Hp, Hname, Hlast in H. cbn [written] in H.
    now rewrite write_entity_observations in H.
  - intros H n' Hn'. apply in_map_iff in Hn'. destruct Hn' as [n [<- Hn]].
    unfold after_upsert.
    destruct (has_label "Memory" n); [|now apply Hd1].
    destruct (p_name n) as [nm|]; [|now apply Hd1].
    destruct (last_named nm entities None) as [entity|] eqn:Hlast; cbn [written];
      [|now apply Hd1].
    rewrite write_entity_observations. cbn [coalesce]. now apply (H nm).
Qed.

Lemma effect_exact (c : Call) (g : Graph) :
  sound g -> observations_distinct (effect c g) <-> stores_distinct g c.
Proof.
  intros Hg. destruct c as [entities | observations | deletions].
  - now apply createEntities_exact.
  - now apply addObservations_exact.
  - cbn [effect stores_distinct]. split; [trivial|]. intros _.
    now destruct (fold_remove_listed_sound (deletion_rows deletions g) g Hg).
Qed.

Lemma effect_well_formed (c : Call) (g : Graph) :
  well_formed g -> well_formed (effect c g).
Proof.
  intros Hg. destruct c as [entities | observations | deletions]; cbn [effect].
  - now apply create_entities_well_formed.
  - apply fold_well_formed; [|exact Hg]. intros g' [[e nm] new] Hg'.
    now apply update_node_well_formed.
  - apply fold_well_formed; [|exact Hg]. intros g' [e listed] Hg'.
    now apply update_node_well_formed.
Qed.

(** One call keeps the observations distinct exactly when its round trip
    fails or it stores no string twice. *)
Lemma call_exact (c : Call) (s : Store) :
  sound (graph s) ->
  observations_distinct (graph (call c s)) <->
  (fails s = false -> stores_distinct (graph s) c).
Proof.
  intros Hs. rewrite call_store. cbn [graph]. destruct (fails s).
  - split; [discriminate | intros _; now destruct Hs].
  - rewrite (effect_exact c (graph s) Hs). split; auto.
Qed.

Lemma call_well_formed (c : Call) (s : Store) :
  well_formed (graph s) -> well_formed (graph (call c s)).
Proof.
  intros Hs. rewrite call_store. cbn [graph].
  destruct (fails s); [exact Hs | now apply effect_well_formed].
Qed.

Lemma calls_cons (c : Call) (cs : list Call) (s : Store) :
  calls (c :: cs) s = calls cs (call c s).
Proof. reflexivity. Qed.

Lemma along_prefixes (cs : list Call) (s : Store) :
  sound (graph s) ->
  distinct_along cs s <->
  forall k, observations_distinct (graph (calls (firstn k cs) s)).
Proof.
  revert s. induction cs as [|c cs IH]; intros s Hs.
  - cbn [distinct_along]. split; [|trivial]. intros _ k. rewrite firstn_nil.
    now destruct Hs.
  - cbn [distinct_along]. split.
    + intros [Hc Hrest] [|k]; [now destruct Hs|].
      cbn [firstn]. rewrite calls_cons. apply IH; [|exact Hrest].
      split; [apply call_well_formed; now destruct Hs | now apply call_exact].
    + intros H.
      assert (Hc : observations_distinct (graph (call c s))) by exact (H 1).
      split; [now apply call_exact|].
      apply IH.
      * split; [apply call_well_formed; now destruct Hs | exact Hc].
      * intros k. exact (H (S k)).
Qed.

(** C2, as the code has it.  Start from a graph with unique node identities
    in which no entity holds an observation twice, and run any sequence of
    [createEntities], [addObservations] and [deleteObservations] calls,
    whichever round trips fail.  No entity holds an observation twice after
    any call of the sequence exactly when every call whose round trip
    succeeds stores no string twice on the graph it finds: the last entity
    of each name given to [createEntities] has distinct observations, and
    the strings [addObservations] adds to one entity, over all pairs of the
    batch naming it, are distinct.  Contents an entity holds already are
    filtered out however often they repeat; nothing else is. *)
Theorem observations_stay_distinct (cs : list Call) (s : Store) :
  well_formed (graph s) ->
  observations_distinct (graph s) ->
  (distinct_along cs s -> observations_distinct (graph (calls cs s))) /\
  (distinct_along cs s <->
   forall k, observations_distinct (graph (calls (firstn k cs) s))).
Proof.
  intros Hwf Hd. assert (Hs : sound (graph s)) by now split.
  split; [|now apply along_prefixes].
  intros H.
  pose proof (proj1 (along_prefixes cs s Hs) H (List.length cs)) as Hk.
  now rewrite firstn_all in Hk.
Qed.

(** An entity holding "x" is given the contents "x", "x", "y": "y" is
    added once and the observations stay distinct. *)
Lemma observations_stay_distinct_witness :
  observations_distinct
    (graph (calls [CreateEntities [mkEntity "A" "Thing" ["x"]];
                   AddObservations [mkObservationAddition "A" ["x"; "x"; "y"]];
                   DeleteObservations [mkObservationDeletion "A" ["x"]]]
                  fresh)).
Proof.
  apply (observations_stay_distinct
           [CreateEntities [mkEntity "A" "Thing" ["x"]];
            AddObservations [mkObservationAddition "A" ["x"; "x"; "y"]];
            DeleteObservations [mkObservationDeletion "A" ["x"]]] fresh).
  - split; constructor.
  - constructor.
  - cbn [distinct_along]. repeat apply conj; try exact I; intros _.
    + intros nm entity. unfold last_named. cbn [fold_left name].
      destruct (String.eqb "A" nm); intros H; [|discriminate H].
      injection H as <-. cbn [observations].
      constructor; [intros [] | constructor].
    + constructor; [|constructor]. change (NoDup ["y"]).
      constructor; [intros [] | constructor].
    + exact I.
Defined.

End StoredTwice.
